(** * DS-AsyncIO-Benchmark: a shallow embedding of [benchmark.py]

    The script drives an external asynchronous block-I/O engine, times
    write/read round trips and prints descriptive statistics.  This file
    embeds its functions ([parse_size], [calculate_statistics],
    [get_aio_handle], [benchmark], [main]) and proves the properties the
    specification states about them.

    Conventions.
    - Python exceptions are values of type [exn]; a call that may raise
      returns a [result].
    - The numeric libraries (numpy, scipy) and the float type are not part
      of the repository: they enter through the interface [NumLib].
    - Calls that leave the process (clock, file system, the AIO engine,
      standard output) are nodes of a program tree [prog]; an environment
      answers them, and a run records the calls made and the answers
      received. *)

From Stdlib Require Import ZArith QArith Qround Qabs Lia Ascii.
From stdpp Require Import base list strings pretty gmap.

Local Open Scope Z_scope.

(** ** Exceptions and results *)

(** The exception classes that occur in the script or in the library calls
    it makes, and [EngineInitError] of the engine's specification.  All of
    them derive from [Exception]. *)
Inductive exn_class : Type :=
| Exception
| ValueError
| RuntimeError
| OverflowError
| IndexError
| OSError
| FileNotFoundError
| FileExistsError
| NotADirectoryError
| IsADirectoryError
| PermissionError
| EngineInitError.

#[global] Instance exn_class_eq_dec : EqDecision exn_class.
Proof. solve_decision. Defined.

(** [str(e)] is the message. *)
Record exn : Type := Exn { exn_cls : exn_class; exn_msg : string }.

#[global] Instance exn_eq_dec : EqDecision exn.
Proof. solve_decision. Defined.

(** [subclass c d]: class [c] is [d] or derives from it (the part of
    Python's hierarchy over the classes above). *)
Definition subclass (c d : exn_class) : bool :=
  match d with
  | Exception => true
  | OSError =>
      match c with
      | OSError | FileNotFoundError | FileExistsError | NotADirectoryError
      | IsADirectoryError | PermissionError => true
      | _ => false
      end
  | _ => bool_decide (c = d)
  end.

Definition isinstance (e : exn) (d : exn_class) : bool := subclass (exn_cls e) d.

Inductive result (A : Type) : Type :=
| Ok (a : A)
| Raise (e : exn).
Arguments Ok {A} a.
Arguments Raise {A} e.

Definition is_ok {A} (r : result A) : bool :=
  match r with Ok _ => true | Raise _ => false end.

Definition raises {A} (r : result A) (c : exn_class) : Prop :=
  exists msg, r = Raise (Exn c msg).

(** ** The [result] monad *)

#[global] Instance result_ret : MRet result := fun _ a => Ok a.
#[global] Instance result_bind : MBind result :=
  fun _ _ f r => match r with Ok a => f a | Raise e => Raise e end.

(** ** The numeric interface

    [F] is the type of Python floats (and numpy float64 values).  The
    fields are the operations [benchmark.py] takes from the language, numpy
    and scipy; they are total, as the library functions are on lists of
    floats.  [of_int] is the conversion of an int that is in the range of
    the floats; [float_of_int] below adds the [OverflowError] of the others. *)
Class NumLib (F : Type) : Type := {
  of_int : Z -> F;                    (* int -> float conversion, in range *)
  fsub : F -> F -> F;                 (* a - b *)
  fdiv : F -> F -> F;                 (* a / b, for b <> 0 *)
  fgt0 : F -> bool;                   (* a > 0 *)
  lit_1e6 : F;                        (* the literal 1e6 *)
  lit_0_95 : F;                       (* the literal 0.95 *)
  np_mean : list F -> F;
  np_median : list F -> F;
  np_std : list F -> F;
  np_sqrt : F -> F;
  np_percentile : list F -> Z -> F;
  t_interval : F -> Z -> F -> F -> F * F;  (* confidence, df, loc, scale *)
  format_fixed : nat -> F -> string;  (* f"{x:.nf}" *)
  repr_float : F -> string            (* repr(x), inside str(dict) *)
}.

(** ** [calculate_statistics] *)

Section Statistics.
Context {F : Type} `{NumLib F}.

(** The dictionary with the keys "50th", "90th", "99th". *)
Record percentiles : Type := Percentiles {
  p50th : F;
  p90th : F;
  p99th : F
}.

(** The dictionary with the keys "mean", "median", "std_dev",
    "confidence_interval", "percentiles". *)
Record summary : Type := Summary {
  mean : F;
  median : F;
  std_dev : F;
  confidence_interval : F * F;
  pctls : percentiles
}.

(** The returned dictionary, keys "latency" and "bandwidth_mb_s". *)
Record statistics : Type := Statistics {
  latency : summary;
  bandwidth_mb_s : summary
}.

Definition len (l : list F) : Z := Z.of_nat (length l).

(** An int converts to the nearest float, ties to the even significand, and
    the conversion raises [OverflowError] when that float would be 2^1024 or
    beyond: from [2^1024 - 2^970] on, in magnitude. *)
Definition int_too_large (n : Z) : bool := 2 ^ 1024 - 2 ^ 970 <=? Z.abs n.

(** The conversion of the int operand of [size_bytes / lat]. *)
Definition float_of_int (n : Z) : result F :=
  if int_too_large n
  then Raise (Exn OverflowError "int too large to convert to float")
  else Ok (of_int n).

(** [size_bytes / lat / 1e6], for [lat > 0]. *)
Definition bandwidth_of (size_bytes : Z) (lat : F) : result F :=
  size ← float_of_int size_bytes;
  mret (fdiv (fdiv size lat) lit_1e6).

(** [[size_bytes / lat / 1e6 for lat in latencies if lat > 0]] *)
Definition bandwidths_of (size_bytes : Z) (latencies : list F) : result (list F) :=
  mapM (bandwidth_of size_bytes) (List.filter fgt0 latencies).

Definition key_percentiles (xs : list F) : percentiles :=
  {| p50th := np_percentile xs 50;
     p90th := np_percentile xs 90;
     p99th := np_percentile xs 99 |}.

(** A length is below 2^63 and converts to a float: [np.sqrt(len(..))]
    takes it through [of_int]. *)
Definition calculate_statistics (latencies : list F) (size_bytes : Z)
  : result statistics :=
  match latencies with
  | [] => Raise (Exn ValueError "No latencies provided for statistics.")
  | _ :: _ =>
    let mean_lat := np_mean latencies in
    let median_lat := np_median latencies in
    let std_dev_lat := np_std latencies in
    let confidence_level := lit_0_95 in
    let degrees_freedom := len latencies - 1 in
    let sample_standard_error :=
      fdiv std_dev_lat (np_sqrt (of_int (len latencies))) in
    let ci_lat :=
      t_interval confidence_level degrees_freedom mean_lat sample_standard_error in
    let lat_percentiles := key_percentiles latencies in
    bandwidths ← bandwidths_of size_bytes latencies;
    if negb (len bandwidths =? len latencies) then
      Raise (Exn ValueError "Some latencies were zero; cannot compute bandwidth.")
    else
      let mean_bw := np_mean bandwidths in
      let median_bw := np_median bandwidths in
      let std_dev_bw := np_std bandwidths in
      let sample_standard_error_bw :=
        fdiv std_dev_bw (np_sqrt (of_int (len bandwidths))) in
      let ci_bw :=
        t_interval confidence_level degrees_freedom mean_bw sample_standard_error_bw in
      let bw_percentiles := key_percentiles bandwidths in
      Ok {| latency :=
              {| mean := mean_lat; median := median_lat; std_dev := std_dev_lat;
                 confidence_interval := ci_lat; pctls := lat_percentiles |};
            bandwidth_mb_s :=
              {| mean := mean_bw; median := median_bw; std_dev := std_dev_bw;
                 confidence_interval := ci_bw; pctls := bw_percentiles |} |}
  end.

(** From the specification, not from the code: the descriptive statistics
    of a list of samples [xs] as claim C1 lists them, each written out with
    the library function of that name: mean, median, standard deviation, the
    95% confidence interval (Student t with [len xs - 1] degrees of freedom
    around the mean, scaled by the standard error) and the 50th, 90th and
    99th percentiles. *)
Definition describe (xs : list F) : summary :=
  {| mean := np_mean xs;
     median := np_median xs;
     std_dev := np_std xs;
     confidence_interval :=
       t_interval lit_0_95 (len xs - 1) (np_mean xs)
         (fdiv (np_std xs) (np_sqrt (of_int (len xs))));
     pctls := {| p50th := np_percentile xs 50;
                 p90th := np_percentile xs 90;
                 p99th := np_percentile xs 99 |} |}.

Definition all_positive (xs : list F) : Prop := Forall (fun x => fgt0 x = true) xs.

End Statistics.

Arguments percentiles F : clear implicits.
Arguments summary F : clear implicits.
Arguments statistics F : clear implicits.

(** ** Python strings

    A [string] stands for a Python [str] whose characters are ASCII; the
    functions below are the ASCII behaviour of the [str] methods and of the
    [int] and [float] constructors that [parse_size] uses. *)

Definition code (c : ascii) : Z := Z.of_nat (Ascii.nat_of_ascii c).

(** [str.isspace] on one ASCII character: TAB, LF, VT, FF, CR, the separators
    FS, GS, RS, US and the space. *)
Definition is_space (c : ascii) : bool :=
  ((9 <=? code c) && (code c <=? 13)) || ((28 <=? code c) && (code c <=? 32)).

Definition upper_char (c : ascii) : ascii :=
  if (97 <=? code c) && (code c <=? 122)
  then Ascii.ascii_of_nat (Z.to_nat (code c - 32))
  else c.

(** [s.upper()] *)
Fixpoint str_upper (s : string) : string :=
  match s with
  | EmptyString => EmptyString
  | String c s' => String (upper_char c) (str_upper s')
  end.

Fixpoint str_lstrip (s : string) : string :=
  match s with
  | EmptyString => EmptyString
  | String c s' => if is_space c then str_lstrip s' else s
  end.

Fixpoint str_rstrip (s : string) : string :=
  match s with
  | EmptyString => EmptyString
  | String c s' =>
      match str_rstrip s' with
      | EmptyString => if is_space c then EmptyString else String c EmptyString
      | r => String c r
      end
  end.

(** [s.strip()] *)
Definition str_strip (s : string) : string := str_rstrip (str_lstrip s).

(** [s] is made of white space only (the empty string included). *)
Fixpoint all_space (s : string) : bool :=
  match s with
  | EmptyString => true
  | String c s' => is_space c && all_space s'
  end.

(** [s.endswith(suffix)] *)
Definition endswith (s suffix : string) : bool :=
  let n := String.length s in
  let m := String.length suffix in
  (m <=? n)%nat && String.eqb (String.substring (n - m) m s) suffix.

(** [s[:-1]] *)
Definition drop_last (s : string) : string :=
  String.substring 0 (String.length s - 1) s.

(** The last character of a string. *)
Fixpoint last_char (s : string) : option ascii :=
  match s with
  | EmptyString => None
  | String c s' => match s' with EmptyString => Some c | _ => last_char s' end
  end.

(** White space as [int()] and [float()] skip it around an ASCII text: TAB,
    LF, VT, FF, CR and the space.  The separators FS, GS, RS and US, which
    [str.strip] removes, are not skipped. *)
Definition is_c_space (c : ascii) : bool :=
  ((9 <=? code c) && (code c <=? 13)) || (code c =? 32).

Fixpoint c_lstrip (s : string) : string :=
  match s with
  | EmptyString => EmptyString
  | String c s' => if is_c_space c then c_lstrip s' else s
  end.

Fixpoint c_rstrip (s : string) : string :=
  match s with
  | EmptyString => EmptyString
  | String c s' =>
      match c_rstrip s' with
      | EmptyString => if is_c_space c then EmptyString else String c EmptyString
      | r => String c r
      end
  end.

Definition c_strip (s : string) : string := c_rstrip (c_lstrip s).

(** [c in s] for a character. *)
Fixpoint contains (c : ascii) (s : string) : bool :=
  match s with
  | EmptyString => false
  | String d s' => Ascii.eqb c d || contains c s'
  end.

Definition quote1 : ascii := Ascii.ascii_of_nat 39.
Definition quote2 : ascii := Ascii.ascii_of_nat 34.
Definition backslash : ascii := Ascii.ascii_of_nat 92.

Definition hex_digit (n : Z) : ascii :=
  Ascii.ascii_of_nat (Z.to_nat (if n <? 10 then 48 + n else 87 + n)).

(** One character inside [repr(s)]: the backslash and the enclosing quote
    are escaped, TAB, LF and CR have their letters, and the other characters
    that are not printable (below 32, and from 127 on) are written with
    their code in two hexadecimal digits. *)
Definition repr_char (quote c : ascii) : string :=
  if Ascii.eqb c backslash then String backslash (String backslash EmptyString)
  else if Ascii.eqb c quote then String backslash (String quote EmptyString)
  else if code c =? 9 then String backslash "t"
  else if code c =? 10 then String backslash "n"
  else if code c =? 13 then String backslash "r"
  else if (32 <=? code c) && (code c <=? 126) then String c EmptyString
  else String backslash
         (String "x" (String (hex_digit (code c / 16))
                        (String (hex_digit (code c mod 16)) EmptyString))).

Fixpoint repr_chars (quote : ascii) (s : string) : string :=
  match s with
  | EmptyString => EmptyString
  | String c s' => repr_char quote c +:+ repr_chars quote s'
  end.

(** [repr(s)]: in single quotes, unless the text holds a single quote and
    no double quote. *)
Definition str_repr (s : string) : string :=
  let quote := if contains quote1 s && negb (contains quote2 s) then quote2 else quote1 in
  String quote (repr_chars quote s) +:+ String quote EmptyString.

(** *** Decimal digits *)

Definition digit_val (c : ascii) : option Z :=
  if (48 <=? code c) && (code c <=? 57) then Some (code c - 48) else None.

Definition is_digit (c : ascii) : Prop := is_Some (digit_val c).

Definition is_underscore (c : ascii) : bool := code c =? 95.

(** A run of digits read so far: its value and the number of digits. *)
Record digits : Type := Digits { dg_value : Z; dg_count : nat }.

Definition push_digit (ds : digits) (d : Z) : digits :=
  {| dg_value := 10 * dg_value ds + d; dg_count := S (dg_count ds) |}.

(** The rest of [digit (["_"] digit)*] after at least one digit. *)
Fixpoint digitpart_rest (cs : list ascii) (acc : digits) : digits * list ascii :=
  match cs with
  | [] => (acc, [])
  | c :: cs' =>
      match digit_val c with
      | Some d => digitpart_rest cs' (push_digit acc d)
      | None =>
          if is_underscore c then
            match cs' with
            | c2 :: cs'' =>
                match digit_val c2 with
                | Some d => digitpart_rest cs'' (push_digit acc d)
                | None => (acc, cs)
                end
            | [] => (acc, cs)
            end
          else (acc, cs)
      end
  end.

Definition digitpart (cs : list ascii) : option (digits * list ascii) :=
  match cs with
  | c :: cs' =>
      match digit_val c with
      | Some d => Some (digitpart_rest cs' (Digits d 1))
      | None => None
      end
  | [] => None
  end.

(** An optional sign: [true] for "-". *)
Definition read_sign (cs : list ascii) : bool * list ascii :=
  match cs with
  | c :: cs' =>
      if code c =? 45 then (true, cs')
      else if code c =? 43 then (false, cs')
      else (false, cs)
  | [] => (false, [])
  end.

Definition apply_sign (neg : bool) (z : Z) : Z := if neg then - z else z.

(** *** [int(s)] for a string, base 10 *)

(** CPython's default limit on the digits of a decimal string converted to
    an integer ([sys.get_int_max_str_digits()]). *)
Definition int_max_str_digits : nat := 4300.

(** What [int()] makes of a text: a value, digits beyond the limit, or no
    integer at all.  The digits are counted while they are read, so a
    misplaced underscore is found before the limit is looked at, and the
    limit before what follows the digits. *)
Inductive int_syntax : Type :=
| IntValue (z : Z)
| IntTooLong (count : nat)
| IntInvalid.

Definition int_parse (cs : list ascii) : int_syntax :=
  let '(neg, cs1) := read_sign cs in
  match digitpart cs1 with
  | Some (ds, rest) =>
      match rest with
      | c :: _ =>
          if is_underscore c then IntInvalid
          else if (dg_count ds <=? int_max_str_digits)%nat then IntInvalid
          else IntTooLong (dg_count ds)
      | [] =>
          if (dg_count ds <=? int_max_str_digits)%nat
          then IntValue (apply_sign neg (dg_value ds))
          else IntTooLong (dg_count ds)
      end
  | None => IntInvalid
  end.

Definition int_literal (cs : list ascii) : option Z :=
  match int_parse cs with IntValue z => Some z | _ => None end.

Definition py_int (s : string) : result Z :=
  match int_parse (String.list_ascii_of_string (c_strip s)) with
  | IntValue z => Ok z
  | IntTooLong count =>
      Raise (Exn ValueError
               ("Exceeds the limit (4300 digits) for integer string conversion: value has "
                  +:+ pretty count
                  +:+ " digits; use sys.set_int_max_str_digits() to increase the limit"))
  | IntInvalid =>
      Raise (Exn ValueError ("invalid literal for int() with base 10: " +:+ str_repr s))
  end.

(** [str(n)] for an int within the limit. *)
Definition str_of_int (n : Z) : string := pretty n.

(** The first integer that has more digits than [str()] and the f-strings
    convert. *)
Definition int_str_limit : Z := 10 ^ Z.of_nat int_max_str_digits.

(** The exception of [str(n)] and of an f-string for an int of more than
    4300 digits. *)
Definition digits_error : exn :=
  Exn ValueError
    ("Exceeds the limit (4300 digits) for integer string conversion; "
       +:+ "use sys.set_int_max_str_digits() to increase the limit").

(** [str(n)] and [f"{n}"]: an int of more than 4300 digits is refused. *)
Definition format_int (n : Z) : result string :=
  if int_str_limit <=? Z.abs n then Raise digits_error else Ok (str_of_int n).

(** *** Floats

    A binary64 value: a finite number [m * 2^e], an infinity or a NaN.  The
    sign of zero is not kept; nothing in the script observes it. *)
Inductive float : Type :=
| FFinite (m e : Z)
| FInf (negative : bool)
| FNan.

(** floor(log2(a/d)) for positive [a] and [d]. *)
Definition floor_log2_ratio (a d : Z) : Z :=
  let l := Z.log2 a - Z.log2 d in
  let reached := if 0 <=? l then d * 2 ^ l <=? a else d <=? a * 2 ^ (- l) in
  if reached then l else l - 1.

(** The binary64 value nearest to [n/d] ([d > 0]), ties to even: 53
    significant bits, exponent of the last bit at least -1074, overflow to an
    infinity from 2^1024 on. *)
Definition round_binary64 (n d : Z) : float :=
  if n =? 0 then FFinite 0 0 else
  let a := Z.abs n in
  let e := Z.max (floor_log2_ratio a d - 52) (-1074) in
  let num := if 0 <=? e then a else a * 2 ^ (- e) in
  let den := if 0 <=? e then d * 2 ^ e else d in
  let q := num / den in
  let r := num mod den in
  let q' := if 2 * r <? den then q
            else if den <? 2 * r then q + 1
            else if Z.even q then q else q + 1 in
  if (0 <=? e) && (2 ^ 1024 <=? q' * 2 ^ e)
  then FInf (n <? 0)
  else FFinite (Z.sgn n * q') e.

(** [x * y] on floats: the exact product, rounded. *)
Definition fmul (x y : float) : float :=
  match x, y with
  | FNan, _ | _, FNan => FNan
  | FInf s, FInf t => FInf (xorb s t)
  | FInf s, FFinite m _ | FFinite m _, FInf s =>
      if m =? 0 then FNan else FInf (xorb s (m <? 0))
  | FFinite m1 e1, FFinite m2 e2 =>
      let m := m1 * m2 in
      let e := e1 + e2 in
      if 0 <=? e then round_binary64 (m * 2 ^ e) 1 else round_binary64 m (2 ^ (- e))
  end.

(** The float an [int] operand of small magnitude converts to (exact below
    2^53). *)
Definition float_of_small_int (z : Z) : float := FFinite z 0.

(** The integer part of [m * 2^e], toward zero. *)
Definition truncated (m e : Z) : Z :=
  if 0 <=? e then m * 2 ^ e else Z.quot m (2 ^ (- e)).

(** [int(x)] for a float: truncation toward zero. *)
Definition int_of_float (x : float) : result Z :=
  match x with
  | FFinite m e => Ok (truncated m e)
  | FInf _ => Raise (Exn OverflowError "cannot convert float infinity to integer")
  | FNan => Raise (Exn ValueError "cannot convert float NaN to integer")
  end.

(** The decimal number [digitpart ["."] | [digitpart] "." digitpart]: the
    digits with the point removed, and the number of digits after the point. *)
Definition read_number (cs : list ascii) : option (Z * nat * list ascii) :=
  match digitpart cs with
  | Some (ip, rest) =>
      match rest with
      | c :: rest' =>
          if code c =? 46 then
            match digitpart rest' with
            | Some (fp, rest'') =>
                Some (dg_value ip * 10 ^ Z.of_nat (dg_count fp) + dg_value fp,
                      dg_count fp, rest'')
            | None => Some (dg_value ip, 0%nat, rest')
            end
          else Some (dg_value ip, 0%nat, rest)
      | [] => Some (dg_value ip, 0%nat, [])
      end
  | None =>
      match cs with
      | c :: rest' =>
          if code c =? 46 then
            match digitpart rest' with
            | Some (fp, rest'') => Some (dg_value fp, dg_count fp, rest'')
            | None => None
            end
          else None
      | [] => None
      end
  end.

(** The optional exponent [("e" | "E") [sign] digitpart]. *)
Definition read_exponent (cs : list ascii) : option (Z * list ascii) :=
  match cs with
  | [] => Some (0, [])
  | c :: cs' =>
      if (code c =? 69) || (code c =? 101) then
        let '(neg, cs1) := read_sign cs' in
        match digitpart cs1 with
        | Some (ds, rest) => Some (apply_sign neg (dg_value ds), rest)
        | None => None
        end
      else Some (0, cs)
  end.

(** The float nearest to [m * 10^x]. *)
Definition decimal_to_float (m x : Z) : float :=
  if 0 <=? x then round_binary64 (m * 10 ^ x) 1 else round_binary64 m (10 ^ (- x)).

Definition float_literal (cs : list ascii) : option float :=
  let '(neg, cs1) := read_sign cs in
  let word := str_upper (String.string_of_list_ascii cs1) in
  if String.eqb word "INF" || String.eqb word "INFINITY" then Some (FInf neg)
  else if String.eqb word "NAN" then Some FNan
  else
    match read_number cs1 with
    | Some (m, frac, rest) =>
        match read_exponent rest with
        | Some (x, []) => Some (decimal_to_float (apply_sign neg m) (x - Z.of_nat frac))
        | _ => None
        end
    | None => None
    end.

(** [float(s)] for a string. *)
Definition py_float (s : string) : result float :=
  match float_literal (String.list_ascii_of_string (c_strip s)) with
  | Some x => Ok x
  | None => Raise (Exn ValueError ("could not convert string to float: " +:+ str_repr s))
  end.

(** ** [parse_size] *)

Definition parse_size (size_str : string) : result Z :=
  let size_str := str_strip (str_upper size_str) in
  if endswith size_str "K" then
    x ← py_float (drop_last size_str);
    int_of_float (fmul x (float_of_small_int 1024))
  else if endswith size_str "M" then
    x ← py_float (drop_last size_str);
    int_of_float (fmul (fmul x (float_of_small_int 1024)) (float_of_small_int 1024))
  else if endswith size_str "G" then
    x ← py_float (drop_last size_str);
    int_of_float
      (fmul (fmul (fmul x (float_of_small_int 1024)) (float_of_small_int 1024))
         (float_of_small_int 1024))
  else py_int size_str.


(** The number of factors 1024 a suffix stands for. *)
Definition suffix_power (suffix : string) : option nat :=
  if String.eqb suffix "K" then Some 1%nat
  else if String.eqb suffix "M" then Some 2%nat
  else if String.eqb suffix "G" then Some 3%nat
  else None.

(** [x * 1024 * ... * 1024], with [k] factors, as the script multiplies:
    from the left, in floating point. *)
Definition times_1024 (k : nat) (x : float) : float :=
  Nat.iter k (fun y => fmul y (float_of_small_int 1024)) x.

(** ** Paths

    A [pathlib.PurePosixPath]: its root and its components.  A text that
    begins with exactly two slashes has the root [//], which pathlib keeps
    apart from [/]; three slashes or more count as one.  Paths are compared
    as pathlib compares them, root and components; [..] and symbolic links
    are not resolved. *)
Inductive root_kind : Type :=
| NoRoot
| OneSlash
| TwoSlashes.

#[global] Instance root_kind_eq_dec : EqDecision root_kind.
Proof. solve_decision. Defined.

#[global] Instance root_kind_countable : Countable root_kind :=
  inj_countable'
    (fun r => match r with NoRoot => 0%nat | OneSlash => 1%nat | TwoSlashes => 2%nat end)
    (fun n => match n with 0%nat => NoRoot | 1%nat => OneSlash | _ => TwoSlashes end)
    (fun r => match r with NoRoot | OneSlash | TwoSlashes => eq_refl end).

Record path : Type := MkPath { root : root_kind; parts : list string }.

#[global] Instance path_eq_dec : EqDecision path.
Proof. solve_decision. Defined.

#[global] Instance path_countable : Countable path :=
  inj_countable' (fun p => (root p, parts p)) (fun '(a, ps) => MkPath a ps)
    (fun p => match p with MkPath _ _ => eq_refl end).

(** [p.is_absolute()] *)
Definition absolute (p : path) : bool :=
  match root p with NoRoot => false | _ => true end.

(** The components of [s] between slashes; [cur] is the component being
    read, reversed. *)
Fixpoint split_slash (s : string) (cur : list ascii) : list string :=
  match s with
  | EmptyString => [String.string_of_list_ascii (rev cur)]
  | String c s' =>
      if code c =? 47
      then String.string_of_list_ascii (rev cur) :: split_slash s' []
      else split_slash s' (c :: cur)
  end.

Definition is_real_part (s : string) : bool :=
  negb (String.eqb s EmptyString) && negb (String.eqb s ".").

(** The root of a text, from the slashes it begins with. *)
Definition leading_root (s : string) : root_kind :=
  match s with
  | String c1 s1 =>
      if code c1 =? 47 then
        match s1 with
        | String c2 s2 =>
            if code c2 =? 47 then
              match s2 with
              | String c3 _ => if code c3 =? 47 then OneSlash else TwoSlashes
              | EmptyString => TwoSlashes
              end
            else OneSlash
        | EmptyString => OneSlash
        end
      else NoRoot
  | EmptyString => NoRoot
  end.

(** [Path(s)]: empty components and [.] are dropped. *)
Definition Path (s : string) : path :=
  {| root := leading_root s;
     parts := List.filter is_real_part (split_slash s []) |}.

Fixpoint join_slash (ps : list string) : string :=
  match ps with
  | [] => EmptyString
  | [p] => p
  | p :: ps' => p +:+ "/" +:+ join_slash ps'
  end.

(** [str(p)] *)
Definition path_str (p : path) : string :=
  match root p with
  | OneSlash => "/" +:+ join_slash (parts p)
  | TwoSlashes => "//" +:+ join_slash (parts p)
  | NoRoot => match parts p with [] => "." | _ => join_slash (parts p) end
  end.

(** [p / name] *)
Definition path_div (p : path) (name : string) : path :=
  let q := Path name in
  if absolute q then q
  else {| root := root p; parts := parts p ++ parts q |}.

(** [p.parent] *)
Definition path_parent (p : path) : path :=
  {| root := root p; parts := removelast (parts p) |}.

(** ** Calls that leave the process *)

(** A pinned CPU tensor of [tensor_size] bytes ([dtype=torch.uint8]). *)
Record tensor : Type := Tensor { tensor_id : nat; tensor_size : Z }.

(** The module object [AsyncIOBuilder().load(verbose=True)] returns. *)
Inductive aio_module : Type := AioModule.

(** An [aio_handle] object of the engine. *)
Record handle : Type := Handle { handle_id : nat }.

#[global] Instance handle_eq_dec : EqDecision handle.
Proof. solve_decision. Defined.

Section Programs.
Context {F : Type} {NL : NumLib F}.

(** One constructor for each external call of the script; the index is
    the type of the value the call returns. *)
Inductive callE : Type -> Type :=
| PerfCounter : callE F
    (* time.perf_counter() *)
| Print (to_stderr : bool) (line : string) : callE unit
    (* print(line) and print(line, file=sys.stderr) *)
| ExpandUser (p : path) : callE path
    (* p.expanduser() *)
| PathExists (p : path) : callE bool
    (* p.exists() *)
| OsAccessW (p : path) : callE bool
    (* os.access(p, os.W_OK) *)
| Rmtree (p : path) : callE unit
    (* shutil.rmtree(p) *)
| Mkdir (p : path) (parents exist_ok : bool) : callE unit
    (* p.mkdir(parents=.., exist_ok=..) *)
| Unlink (p : path) (missing_ok : bool) : callE unit
    (* p.unlink(missing_ok=..) *)
| TorchEmpty (size : Z) (pin_memory : bool) : callE tensor
    (* torch.empty(size, dtype=torch.uint8, device="cpu", pin_memory=..) *)
| LoadAsyncIO : callE aio_module
    (* AsyncIOBuilder().load(verbose=True) *)
| AioHandle (m : aio_module) (block_size queue_depth : Z)
    (single_submit overlap_events : bool) (threads : Z) : callE handle
    (* m.aio_handle(block_size, queue_depth, single_submit, overlap_events, threads) *)
| AsyncPwrite (h : handle) (t : tensor) (file : string) (offset : Z) : callE unit
    (* h.async_pwrite(t, file, offset) *)
| AsyncPread (h : handle) (t : tensor) (file : string) (offset : Z) : callE unit
    (* h.async_pread(t, file, offset) *)
| Wait (h : handle) : callE unit.
    (* h.wait() *)

(** A program: it returns, raises, or makes a call and continues with the
    value the call returned or the exception it raised. *)
Inductive prog (A : Type) : Type :=
| Ret (a : A)
| Throw (e : exn)
| Vis {X : Type} (c : callE X) (k : result X -> prog A).
Arguments Ret {A} a.
Arguments Throw {A} e.
Arguments Vis {A X} c k.

Fixpoint bind {A B} (p : prog A) (f : A -> prog B) : prog B :=
  match p with
  | Ret a => f a
  | Throw e => Throw e
  | Vis c k => Vis c (fun r => bind (k r) f)
  end.

#[global] Instance prog_ret : MRet prog := fun _ a => Ret a.
#[global] Instance prog_bind : MBind prog := fun _ _ f p => bind p f.

(** A call whose exception, if any, propagates. *)
Definition call {X} (c : callE X) : prog X :=
  Vis c (fun r => match r with Ok x => Ret x | Raise e => Throw e end).

(** A pure computation that may raise. *)
Definition lift {A} (r : result A) : prog A :=
  match r with Ok a => Ret a | Raise e => Throw e end.

(** [try: p  except ...: handler e]; a handler that does not match
    re-raises. *)
Fixpoint try_except {A} (p : prog A) (handler : exn -> prog A) : prog A :=
  match p with
  | Ret a => Ret a
  | Throw e => handler e
  | Vis c k => Vis c (fun r => try_except (k r) handler)
  end.

(** [for x in xs: st = body st x], the loop state [st] holding the
    variables the body updates. *)
Fixpoint for_each {X St} (xs : list X) (body : St -> X -> prog St) (st : St)
  : prog St :=
  match xs with
  | [] => Ret st
  | x :: xs' => st' ← body st x; for_each xs' body st'
  end.

(** [range(n)] *)
Definition range (n : Z) : list Z := List.map Z.of_nat (seq 0 (Z.to_nat n)).

(** *** [get_aio_handle] *)

Definition get_aio_handle (block_size queue_depth threads : Z) : prog handle :=
  try_except
    (aio_op ← call LoadAsyncIO;
     call (AioHandle aio_op block_size queue_depth false true threads))
    (fun e => Throw (Exn RuntimeError ("Failed to initialize AIO handle: " +:+ exn_msg e))).

(** *** [benchmark] *)

(** [f"test_write_{size}_{i}.swap"], for a size and an index that
    [format_int] converts. *)
Definition test_file_name (size i : Z) : string :=
  "test_write_" +:+ str_of_int size +:+ "_" +:+ str_of_int i +:+ ".swap".

(** [f"test_write_{size}_{i}.swap"]: the size is converted, then the
    index. *)
Definition format_test_file_name (size i : Z) : result string :=
  size_str ← format_int size;
  i_str ← format_int i;
  mret ("test_write_" +:+ size_str +:+ "_" +:+ i_str +:+ ".swap").

(** [len(range(n))], which [tqdm] takes from the range it is given: on a
    64-bit CPython the length has to fit a C [ssize_t]. *)
Definition len_range (n : Z) : result Z :=
  if 2 ^ 63 <=? n
  then Raise (Exn OverflowError "Python int too large to convert to C ssize_t")
  else Ok (Z.max 0 n).

(** The body of the write loop (lines 111-120); the loop state is
    [(test_files, write_latencies)]. *)
Definition write_iteration (aio_handle : handle) (nvme_dir : path) (size : Z)
    (st : list path * list F) (i : Z) : prog (list path * list F) :=
  let '(test_files, write_latencies) := st in
  tensor ← call (TorchEmpty size true);
  name ← lift (format_test_file_name size i);
  let test_file := path_div nvme_dir name in
  let test_files := test_files ++ [test_file] in
  start ← call PerfCounter;
  call (AsyncPwrite aio_handle tensor (path_str test_file) 0);;
  call (Wait aio_handle);;
  end_ ← call PerfCounter;
  mret (test_files, write_latencies ++ [fsub end_ start]).

(** The body of the read loop (lines 138-146); the loop state is
    [read_latencies]. *)
Definition read_iteration (aio_handle : handle) (test_files : list path) (size : Z)
    (read_latencies : list F) (i : Z) : prog (list F) :=
  tensor ← call (TorchEmpty size true);
  test_file ← match test_files !! Z.to_nat i with
              | Some f => mret f
              | None => Throw (Exn IndexError "list index out of range")
              end;
  start ← call PerfCounter;
  call (AsyncPread aio_handle tensor (path_str test_file) 0);;
  call (Wait aio_handle);;
  end_ ← call PerfCounter;
  mret (read_latencies ++ [fsub end_ start]).

(** [str(d)] for a percentile dictionary. *)
Definition str_percentiles (p : percentiles F) : string :=
  "{'50th': " +:+ repr_float (p50th p) +:+ ", '90th': " +:+ repr_float (p90th p)
    +:+ ", '99th': " +:+ repr_float (p99th p) +:+ "}".

Definition str_interval (n : nat) (ci : F * F) : string :=
  "(" +:+ format_fixed n (fst ci) +:+ ", " +:+ format_fixed n (snd ci) +:+ ")".

(** The eleven [print] calls of lines 123-133 and of lines 149-159, which
    differ in the title only. *)
Definition print_statistics (title : string) (stats : statistics F) : prog unit :=
  let lat := latency stats in
  let bw := bandwidth_mb_s stats in
  call (Print false title);;
  call (Print false ("  Latency Mean: " +:+ format_fixed 9 (mean lat) +:+ "s"));;
  call (Print false ("  Latency Median: " +:+ format_fixed 9 (median lat) +:+ "s"));;
  call (Print false ("  Latency Std Dev: " +:+ format_fixed 9 (std_dev lat) +:+ "s"));;
  call (Print false ("  Latency 95% CI: " +:+ str_interval 9 (confidence_interval lat)));;
  call (Print false ("  Latency Percentiles: " +:+ str_percentiles (pctls lat)));;
  call (Print false ("  Bandwidth Mean: " +:+ format_fixed 3 (mean bw) +:+ " MB/s"));;
  call (Print false ("  Bandwidth Median: " +:+ format_fixed 3 (median bw) +:+ " MB/s"));;
  call (Print false ("  Bandwidth Std Dev: " +:+ format_fixed 3 (std_dev bw) +:+ " MB/s"));;
  call (Print false ("  Bandwidth 95% CI: " +:+ str_interval 3 (confidence_interval bw)));;
  call (Print false ("  Bandwidth Percentiles: " +:+ str_percentiles (pctls bw))).

(** The cleanup loop (lines 162-163). *)
Definition cleanup (test_files : list path) : prog unit :=
  for_each test_files (fun _ file => call (Unlink file true)) tt.

(** The body of the loop over the sizes (lines 105-164).  The two inner
    loops run over [tqdm(range(iterations), desc=..)].  [tqdm] hands the
    indices of the range to the loop unchanged and draws a progress bar on
    the standard error stream while the loop advances; the drawing is done
    inside the library and is not among the calls of the runs below.  What
    the wrapper does to the script is kept: when it is built it takes
    [len(range(iterations))], which raises before the first iteration if the
    length does not fit. *)
Definition benchmark_size (aio_handle : handle) (nvme_dir : path) (iterations : Z)
    (size : Z) : prog unit :=
  size_str ← lift (format_int size);
  call (Print false ("Benchmarking size: " +:+ size_str +:+ " bytes"));;
  lift (len_range iterations);;
  '(test_files, write_latencies) ←
    for_each (range iterations) (write_iteration aio_handle nvme_dir size) ([], []);
  write_stats ← lift (calculate_statistics write_latencies size);
  print_statistics "Write Statistics:" write_stats;;
  lift (len_range iterations);;
  read_latencies ←
    for_each (range iterations) (read_iteration aio_handle test_files size) [];
  read_stats ← lift (calculate_statistics read_latencies size);
  print_statistics "Read Statistics:" read_stats;;
  cleanup test_files;;
  size_str ← lift (format_int size);
  call (Print false ("Cleaned up files for size " +:+ size_str
                       +:+ String (Ascii.ascii_of_nat 10) EmptyString)).

Definition benchmark (aio_handle : handle) (tensor_sizes : list Z) (iterations : Z)
    (nvme_path : string) : prog unit :=
  let nvme_dir := Path nvme_path in
  call (Mkdir nvme_dir true true);;
  for_each tensor_sizes (fun _ size => benchmark_size aio_handle nvme_dir iterations size) tt.

(** *** [main], from the parsed arguments on *)

Record Args : Type := {
  nvme_path : string;
  sizes : list string;
  iterations : Z;
  threads : Z;
  queue_depth : Z;
  block_size : string
}.

(** Lines 209-213: the sizes and the block size. *)
Definition parse_arguments (args : Args) : prog (list Z * Z) :=
  try_except
    (tensor_sizes ← lift (mapM parse_size (sizes args));
     block_size ← lift (parse_size (block_size args));
     mret (tensor_sizes, block_size))
    (fun e =>
       if isinstance e ValueError
       then Throw (Exn ValueError ("Invalid size format: " +:+ exn_msg e))
       else Throw e).

(** Lines 216-218: the parent of the target must exist and be writable. *)
Definition check_parent (nvme_path : path) : prog unit :=
  let parent_dir := path_parent nvme_path in
  parent_exists ← call (PathExists parent_dir);
  unusable ← (if negb parent_exists then mret true
              else writable ← call (OsAccessW parent_dir); mret (negb writable));
  if unusable : bool then
    Throw (Exn ValueError ("Parent of NVMe path '" +:+ path_str nvme_path
                             +:+ "' must exist and be writable."))
  else mret tt.

(** Lines 220-227: the target directory is removed. *)
Definition clean_nvme_dir (nvme_path : path) : prog unit :=
  try_except
    (call (Rmtree nvme_path);;
     call (Print false ("Cleaned NVMe directory: " +:+ path_str nvme_path)))
    (fun e =>
       if isinstance e FileNotFoundError then mret tt
       else Throw (Exn RuntimeError ("Failed to clean NVMe directory: " +:+ exn_msg e))).

(** Lines 229-235: the engine is opened and the benchmark runs. *)
Definition run_benchmark (args : Args) (block_size : Z) (tensor_sizes : list Z)
    (nvme_path : path) : prog unit :=
  try_except
    (aio_handle ← get_aio_handle block_size (queue_depth args) (threads args);
     benchmark aio_handle tensor_sizes (iterations args) (path_str nvme_path))
    (fun e => call (Print true ("Benchmark failed: " +:+ exn_msg e));; Throw e).

Definition main (args : Args) : prog unit :=
  '(tensor_sizes, block_size) ← parse_arguments args;
  nvme_path ← call (ExpandUser (Path (nvme_path args)));
  check_parent nvme_path;;
  clean_nvme_dir nvme_path;;
  run_benchmark args block_size tensor_sizes nvme_path.

(** ** Runs *)

(** A call together with what it returned or raised. *)
Inductive event : Type :=
| Ev {X : Type} (c : callE X) (r : result X).

(** An environment with state [S] answers every call. *)
Definition handler (S : Type) : Type := forall X, callE X -> S -> result X * S.

(** The run of [p] in the environment [h] from the state [s]: the outcome,
    the final state and the calls made, in order. *)
Fixpoint interp {S A} (h : handler S) (p : prog A) (s : S)
  : result A * S * list event :=
  match p with
  | Ret a => (Ok a, s, [])
  | Throw e => (Raise e, s, [])
  | Vis c k =>
      let '(r, s1) := h _ c s in
      let '(o, s2, tr) := interp h (k r) s1 in
      (o, s2, Ev c r :: tr)
  end.

End Programs.

Arguments callE F : clear implicits.
Arguments prog F A : clear implicits.
Arguments event F : clear implicits.
Arguments handler F S : clear implicits.
Arguments Ret {F A} a.
Arguments Throw {F A} e.
Arguments Vis {F A X} c k.

(** ** A reference environment

    A file system, a clock, standard output and an engine, to run the
    programs in.  The file-system calls behave as the POSIX calls behind
    pathlib and shutil do on a tree of directories and regular files. *)

Inductive node : Type :=
| File (size : Z)
| Dir (writable : bool).

Definition is_dir (m : gmap path node) (p : path) : bool :=
  match m !! p with Some (Dir _) => true | _ => false end.

(** [os.mkdir(p)] *)
Definition os_mkdir (m : gmap path node) (p : path) : result (gmap path node) :=
  match m !! p with
  | Some _ => Raise (Exn FileExistsError ("[Errno 17] File exists: " +:+ str_repr (path_str p)))
  | None =>
      match m !! path_parent p with
      | None =>
          Raise (Exn FileNotFoundError ("[Errno 2] No such file or directory: " +:+ str_repr (path_str p)))
      | Some (File _) =>
          Raise (Exn NotADirectoryError ("[Errno 20] Not a directory: " +:+ str_repr (path_str p)))
      | Some (Dir w) =>
          if w then Ok (<[p := Dir true]> m)
          else Raise (Exn PermissionError ("[Errno 13] Permission denied: " +:+ str_repr (path_str p)))
      end
  end.

(** [Path.mkdir] without [parents]: an existing directory is accepted when
    [exist_ok] is set. *)
Definition mkdir_one (m : gmap path node) (p : path) (exist_ok : bool)
  : result (gmap path node) :=
  match os_mkdir m p with
  | Ok m' => Ok m'
  | Raise e =>
      if isinstance e FileNotFoundError then Raise e
      else if negb exist_ok || negb (is_dir m p) then Raise e
      else Ok m
  end.

(** [Path.mkdir(parents=True, exist_ok=..)] on the path with the components
    [rev rparts]: a missing parent is created first, with the same call. *)
Fixpoint mkdir_parents (anchored : root_kind) (rparts : list string) (m : gmap path node)
    (exist_ok : bool) : result (gmap path node) :=
  let p := MkPath anchored (rev rparts) in
  match os_mkdir m p with
  | Ok m' => Ok m'
  | Raise e =>
      if isinstance e FileNotFoundError then
        match rparts with
        | [] => Raise e
        | _ :: rparent =>
            m1 ← mkdir_parents anchored rparent m true;
            mkdir_one m1 p exist_ok
        end
      else if negb exist_ok || negb (is_dir m p) then Raise e
      else Ok m
  end.

(** [p.mkdir(parents=.., exist_ok=..)] *)
Definition path_mkdir (m : gmap path node) (p : path) (parents exist_ok : bool)
  : result (gmap path node) :=
  if parents then mkdir_parents (root p) (rev (parts p)) m exist_ok
  else mkdir_one m p exist_ok.

(** [os.unlink(p)] *)
Definition os_unlink (m : gmap path node) (p : path) : result (gmap path node) :=
  match m !! p with
  | None =>
      Raise (Exn FileNotFoundError ("[Errno 2] No such file or directory: " +:+ str_repr (path_str p)))
  | Some (Dir _) =>
      Raise (Exn IsADirectoryError ("[Errno 21] Is a directory: " +:+ str_repr (path_str p)))
  | Some (File _) =>
      match m !! path_parent p with
      | Some (Dir false) =>
          Raise (Exn PermissionError ("[Errno 13] Permission denied: " +:+ str_repr (path_str p)))
      | _ => Ok (delete p m)
      end
  end.

(** [p.unlink(missing_ok=..)] *)
Definition path_unlink (m : gmap path node) (p : path) (missing_ok : bool)
  : result (gmap path node) :=
  match os_unlink m p with
  | Ok m' => Ok m'
  | Raise e =>
      if isinstance e FileNotFoundError && missing_ok then Ok m else Raise e
  end.

Fixpoint is_prefix (l k : list string) : bool :=
  match l, k with
  | [], _ => true
  | x :: l', y :: k' => String.eqb x y && is_prefix l' k'
  | _ :: _, [] => false
  end.

(** [q] is [p] or lies below it. *)
Definition is_under (p q : path) : bool :=
  bool_decide (root p = root q) && is_prefix (parts p) (parts q).

(** An entry can be removed from its directory when that directory is
    writable. *)
Definition removable (m : gmap path node) (q : path) : bool :=
  match m !! path_parent q with Some (Dir false) => false | _ => true end.

(** [shutil.rmtree(p)].  A tree that cannot be removed whole is left as it
    was (the library removes what it can before it raises). *)
Definition shutil_rmtree (m : gmap path node) (p : path) : result (gmap path node) :=
  match m !! p with
  | None =>
      Raise (Exn FileNotFoundError ("[Errno 2] No such file or directory: " +:+ str_repr (path_str p)))
  | Some (File _) =>
      Raise (Exn NotADirectoryError ("[Errno 20] Not a directory: " +:+ str_repr (path_str p)))
  | Some (Dir _) =>
      if forallb (fun kv => negb (is_under p kv.1) || removable m kv.1) (map_to_list m)
      then Ok (filter (fun kv => is_under p kv.1 = false) m)
      else Raise (Exn PermissionError ("[Errno 13] Permission denied: " +:+ str_repr (path_str p)))
  end.

(** [os.access(p, os.W_OK)] *)
Definition os_access_w (m : gmap path node) (p : path) : bool :=
  match m !! p with
  | Some (Dir w) => w
  | Some (File _) => true
  | None => false
  end.

(** [p.expanduser()]: a leading [~] is replaced by the home directory; the
    home of another user is not known. *)
Definition expanduser (home : path) (p : path) : result path :=
  match parts p with
  | first :: rest =>
      if absolute p then Ok p
      else if String.eqb first "~" then Ok (MkPath (root home) (parts home ++ rest))
      else if String.prefix "~" first
           then Raise (Exn RuntimeError "Could not determine home directory.")
           else Ok p
  | [] => Ok p
  end.

(** *** The engine *)

Record request : Type := Request {
  rq_write : bool;
  rq_file : string;
  rq_offset : Z;
  rq_length : Z
}.

Record engine : Type := Engine {
  eng_block_size : Z;
  eng_queue_depth : Z;
  eng_threads : Z;
  eng_pending : list request
}.

Definition is_power_of_two (n : Z) : bool := (0 <? n) && (n =? 2 ^ Z.log2 n).

(** Modelled from the spec: the engine's construction operation, which the
    repository takes from an external library.  Specification, section 6:
    [open(block_size, queue_depth, num_threads, direct_io)] fails with
    [EngineInitError] if [block_size] is not a positive power of two, or if
    direct I/O is requested but the target file system does not support it. *)
Definition engine_open (block_size queue_depth num_threads : Z) (direct_io : bool)
    (fs_supports_direct_io : bool) : result engine :=
  if negb (is_power_of_two block_size) then
    Raise (Exn EngineInitError "block_size is not a positive power of two")
  else if direct_io && negb fs_supports_direct_io then
    Raise (Exn EngineInitError "direct I/O is not supported by the file system")
  else
    Ok {| eng_block_size := block_size; eng_queue_depth := queue_depth;
          eng_threads := num_threads; eng_pending := [] |}.

(** Modelled from the spec: the effect of a completed request on the file
    system (section 4.3).  A write stores the buffer in the file; a request
    that fails is reported in the result of [wait] and raises nothing. *)
Definition complete_request (m : gmap path node) (rq : request) : gmap path node :=
  if rq_write rq then
    let p := Path (rq_file rq) in
    match m !! p with
    | Some (Dir _) => m
    | _ => if is_dir m (path_parent p)
           then <[p := File (rq_offset rq + rq_length rq)]> m
           else m
    end
  else m.

Definition submit (rq : request) (e : engine) : engine :=
  {| eng_block_size := eng_block_size e; eng_queue_depth := eng_queue_depth e;
     eng_threads := eng_threads e; eng_pending := eng_pending e ++ [rq] |}.

Definition drained (e : engine) : engine :=
  {| eng_block_size := eng_block_size e; eng_queue_depth := eng_queue_depth e;
     eng_threads := eng_threads e; eng_pending := [] |}.

(** *** The world *)

Record world : Type := World {
  w_fs : gmap path node;
  w_home : path;
  w_ticks : nat;                   (* calls of the clock so far *)
  w_aio_available : bool;          (* whether the AsyncIO op can be built and loaded *)
  w_engines : list engine;         (* the handles created, by [handle_id] *)
  w_tensors : nat;                 (* tensors allocated so far *)
  w_stdout : list string;
  w_stderr : list string
}.

Definition set_fs (w : world) (m : gmap path node) : world :=
  {| w_fs := m; w_home := w_home w; w_ticks := w_ticks w;
     w_aio_available := w_aio_available w; w_engines := w_engines w;
     w_tensors := w_tensors w; w_stdout := w_stdout w; w_stderr := w_stderr w |}.

Definition set_engines (w : world) (es : list engine) : world :=
  {| w_fs := w_fs w; w_home := w_home w; w_ticks := w_ticks w;
     w_aio_available := w_aio_available w; w_engines := es;
     w_tensors := w_tensors w; w_stdout := w_stdout w; w_stderr := w_stderr w |}.

Definition tick (w : world) : world :=
  {| w_fs := w_fs w; w_home := w_home w; w_ticks := S (w_ticks w);
     w_aio_available := w_aio_available w; w_engines := w_engines w;
     w_tensors := w_tensors w; w_stdout := w_stdout w; w_stderr := w_stderr w |}.

Definition new_tensor (w : world) : world :=
  {| w_fs := w_fs w; w_home := w_home w; w_ticks := w_ticks w;
     w_aio_available := w_aio_available w; w_engines := w_engines w;
     w_tensors := S (w_tensors w); w_stdout := w_stdout w; w_stderr := w_stderr w |}.

Definition print_line (to_stderr : bool) (line : string) (w : world) : world :=
  {| w_fs := w_fs w; w_home := w_home w; w_ticks := w_ticks w;
     w_aio_available := w_aio_available w; w_engines := w_engines w;
     w_tensors := w_tensors w;
     w_stdout := if to_stderr then w_stdout w else w_stdout w ++ [line];
     w_stderr := if to_stderr then w_stderr w ++ [line] else w_stderr w |}.

(** A file-system call: the new tree on success, the old one on failure. *)
Definition fs_call (w : world) (r : result (gmap path node)) : result unit * world :=
  match r with
  | Ok m => (Ok tt, set_fs w m)
  | Raise e => (Raise e, w)
  end.

Definition closed_handle : exn := Exn RuntimeError "unknown aio handle".

Definition submit_call (w : world) (h : handle) (rq : request) : result unit * world :=
  match w_engines w !! handle_id h with
  | Some e => (Ok tt, set_engines w (<[handle_id h := submit rq e]> (w_engines w)))
  | None => (Raise closed_handle, w)
  end.

Definition wait_call (w : world) (h : handle) : result unit * world :=
  match w_engines w !! handle_id h with
  | Some e =>
      (Ok tt,
       set_engines (set_fs w (foldl complete_request (w_fs w) (eng_pending e)))
         (<[handle_id h := drained e]> (w_engines w)))
  | None => (Raise closed_handle, w)
  end.

Section World.
Context {F : Type}.
(** The reading of the clock at its [n]-th call. *)
Variable clock : nat -> F.

Definition world_handler : handler F world :=
  fun X (c : callE F X) (w : world) =>
    match c in callE _ X return result X * world with
    | PerfCounter => (Ok (clock (w_ticks w)), tick w)
    | Print to_stderr line => (Ok tt, print_line to_stderr line w)
    | ExpandUser p => (expanduser (w_home w) p, w)
    | PathExists p => (Ok (bool_decide (is_Some (w_fs w !! p))), w)
    | OsAccessW p => (Ok (os_access_w (w_fs w) p), w)
    | Rmtree p => fs_call w (shutil_rmtree (w_fs w) p)
    | Mkdir p parents exist_ok => fs_call w (path_mkdir (w_fs w) p parents exist_ok)
    | Unlink p missing_ok => fs_call w (path_unlink (w_fs w) p missing_ok)
    | TorchEmpty size pin_memory =>
        if size <? 0
        then (Raise (Exn RuntimeError "Trying to create tensor with negative dimension"), w)
        else (Ok (Tensor (w_tensors w) size), new_tensor w)
    | LoadAsyncIO =>
        if w_aio_available w then (Ok AioModule, w)
        else (Raise (Exn RuntimeError "async_io op cannot be built"), w)
    | AioHandle _ block_size queue_depth _ _ threads =>
        match engine_open block_size queue_depth threads false false with
        | Ok e => (Ok (Handle (length (w_engines w))), set_engines w (w_engines w ++ [e]))
        | Raise e => (Raise e, w)
        end
    | AsyncPwrite h t file offset =>
        submit_call w h (Request true file offset (tensor_size t))
    | AsyncPread h t file offset =>
        submit_call w h (Request false file offset (tensor_size t))
    | Wait h => wait_call w h
    end.

Definition run {A} (p : prog F A) (w : world) : result A * world * list (event F) :=
  interp world_handler p w.

End World.

(** ** A rational instance of the numeric interface

    Exact rational arithmetic in place of binary64, to run the programs on
    examples.  Mean, median and percentiles (numpy's linear interpolation)
    are exact; the square root is taken to nine decimal places and the
    Student t quantile for the 95% interval comes from a table, so standard
    deviations and intervals are approximations.  No theorem below depends
    on this instance except through the examples that run it. *)
Module RationalNum.

Definition gt0 (x : Q) : bool := negb (Qle_bool x 0).

Definition qsum (xs : list Q) : Q := fold_right Qplus (0 # 1)%Q xs.

Definition qlen (xs : list Q) : Q := inject_Z (Z.of_nat (length xs)).

Definition qmean (xs : list Q) : Q := Qred (qsum xs / qlen xs).

Fixpoint insert_sorted (x : Q) (xs : list Q) : list Q :=
  match xs with
  | [] => [x]
  | y :: ys => if Qle_bool x y then x :: xs else y :: insert_sorted x ys
  end.

Definition qsort (xs : list Q) : list Q := fold_right insert_sorted [] xs.

Definition qnth (xs : list Q) (i : Z) : Q := nth (Z.to_nat i) xs (0 # 1)%Q.

(** [np.percentile(xs, p)] with the default linear interpolation. *)
Definition qpercentile (xs : list Q) (p : Z) : Q :=
  let sorted := qsort xs in
  let pos := ((qlen xs - 1) * inject_Z p / 100)%Q in
  let lo := Qfloor pos in
  let frac := (pos - inject_Z lo)%Q in
  let a := qnth sorted lo in
  let b := if lo + 1 <? Z.of_nat (length xs) then qnth sorted (lo + 1) else a in
  Qred (a + frac * (b - a)).

Definition qmedian (xs : list Q) : Q := qpercentile xs 50.

(** The square root, rounded down to nine decimal places. *)
Definition qsqrt (x : Q) : Q :=
  Qred (Z.sqrt (Qfloor (x * inject_Z (10 ^ 18))) # 10 ^ 9).

Definition qstd (xs : list Q) : Q :=
  let m := qmean xs in
  qsqrt (qmean (List.map (fun x => (x - m) * (x - m))%Q xs)).

(** The 0.975 quantile of Student's t distribution, in thousandths. *)
Definition t975 (df : Z) : Q :=
  let thousandths (n : Z) : Q := Qmake n 1000 in
  match df with
  | 1 => thousandths 12706 | 2 => thousandths 4303 | 3 => thousandths 3182
  | 4 => thousandths 2776 | 5 => thousandths 2571 | 6 => thousandths 2447
  | 7 => thousandths 2365 | 8 => thousandths 2306 | 9 => thousandths 2262
  | 10 => thousandths 2228 | _ => thousandths 1960
  end.

Definition qinterval (confidence : Q) (df : Z) (loc scale : Q) : Q * Q :=
  (Qred (loc - t975 df * scale), Qred (loc + t975 df * scale)).

(** [s], padded with zeros on the left to [n] characters. *)
Definition pad_zeros (n : nat) (s : string) : string :=
  String.concat EmptyString (replicate (n - String.length s) "0") +:+ s.

(** [x] with [n] decimals, half away from zero. *)
Definition qfixed (n : nat) (x : Q) : string :=
  let scale := 10 ^ Z.of_nat n in
  let scaled := Qfloor (Qabs x * inject_Z scale + (1 # 2)) in
  (if Qle_bool 0 x then EmptyString else "-") +:+ pretty (scaled / scale)
    +:+ "." +:+ pad_zeros n (pretty (scaled mod scale)).

#[global] Instance num : NumLib Q := {|
  of_int := inject_Z;
  fsub := fun a b => Qred (a - b);
  fdiv := fun a b => Qred (a / b);
  fgt0 := gt0;
  lit_1e6 := inject_Z 1000000;
  lit_0_95 := (95 # 100)%Q;
  np_mean := qmean;
  np_median := qmedian;
  np_std := qstd;
  np_sqrt := qsqrt;
  np_percentile := qpercentile;
  t_interval := qinterval;
  format_fixed := qfixed;
  repr_float := fun x => "np.float64(" +:+ qfixed 9 x +:+ ")"
|}.

(** A clock that starts at 1 s and advances by 1 ms at every reading. *)
Definition clock (n : nat) : Q := (1 + inject_Z (Z.of_nat n) / 1000)%Q.

(** A machine with a writable [/mnt/nvme] and an old run's file in
    [/mnt/nvme/test]. *)
Definition machine : world :=
  {| w_fs := list_to_map
       [ (MkPath OneSlash [], Dir true);
         (MkPath OneSlash ["mnt"], Dir true);
         (MkPath OneSlash ["mnt"; "nvme"], Dir true);
         (MkPath OneSlash ["mnt"; "nvme"; "test"], Dir true);
         (MkPath OneSlash ["mnt"; "nvme"; "test"; "old.swap"], File 4096) ];
     w_home := MkPath OneSlash ["root"];
     w_ticks := 0;
     w_aio_available := true;
     w_engines := [];
     w_tensors := 0;
     w_stdout := [];
     w_stderr := [] |}.

(** The same machine after the engine has been opened. *)
Definition ready : world :=
  {| w_fs := w_fs machine;
     w_home := w_home machine;
     w_ticks := 0;
     w_aio_available := true;
     w_engines := [Engine 2097152 64 16 []];
     w_tensors := 0;
     w_stdout := [];
     w_stderr := [] |}.

(** A run of the benchmark on [ready]: two sizes, two iterations. *)
Definition example_run : result unit * world * list (event Q) :=
  run clock (benchmark (Handle 0) [4096; 8192] 2 "/mnt/nvme/test") ready.

Definition args : Args :=
  {| nvme_path := "/mnt/nvme/test"; sizes := ["4K"; "1M"]; iterations := 2;
     threads := 16; queue_depth := 64; block_size := "2M" |}.


End RationalNum.

Import RationalNum.


(** ** Observations on runs *)

Section Traces.
Context {F : Type} {NL : NumLib F}.

Definition is_submit (e : event F) : bool :=
  match e with
  | Ev c _ =>
      match c with
      | AsyncPwrite _ _ _ _ | AsyncPread _ _ _ _ => true
      | _ => false
      end
  end.

Definition is_wait (e : event F) : bool :=
  match e with
  | Ev c _ => match c with Wait _ => true | _ => false end
  end.

Definition is_clock (e : event F) : bool :=
  match e with
  | Ev c _ => match c with PerfCounter => true | _ => false end
  end.

(** Neither a call of the engine's handle nor a reading of the clock. *)
Definition is_quiet (e : event F) : bool :=
  negb (is_submit e) && negb (is_wait e) && negb (is_clock e).

Definition answered_ok (e : event F) : bool :=
  match e with Ev _ r => is_ok r end.

(** A submission on the handle [hd], and a [wait] on it. *)
Definition submits_on (hd : handle) (e : event F) : bool :=
  match e with
  | Ev c _ =>
      match c with
      | AsyncPwrite h _ _ _ | AsyncPread h _ _ _ => bool_decide (h = hd)
      | _ => false
      end
  end.

Definition waits_on (hd : handle) (e : event F) : bool :=
  match e with
  | Ev c _ => match c with Wait h => bool_decide (h = hd) | _ => false end
  end.



(** A run made of calls that are no handle's and of pairs "submit on [hd],
    then wait on [hd]"; it may end with a submission on [hd] that raised. *)
Inductive blocks (hd : handle) : list (event F) -> Prop :=
| blocks_nil : blocks hd []
| blocks_other e tr :
    is_submit e = false -> is_wait e = false -> blocks hd tr -> blocks hd (e :: tr)
| blocks_pair e w tr :
    submits_on hd e = true -> waits_on hd w = true -> blocks hd tr ->
    blocks hd (e :: w :: tr)
| blocks_last e :
    submits_on hd e = true -> answered_ok e = false -> blocks hd [e].

(** [timed_rounds hd tr ls]: the run [tr] is made of quiet calls and of
    rounds "clock, submit on [hd], wait on [hd], clock", and [ls] lists,
    round by round, the second reading minus the first. *)
Inductive timed_rounds (hd : handle) : list (event F) -> list F -> Prop :=
| timed_nil : timed_rounds hd [] []
| timed_quiet e tr ls :
    is_quiet e = true -> timed_rounds hd tr ls -> timed_rounds hd (e :: tr) ls
| timed_round t0 t1 sub w tr ls :
    submits_on hd sub = true -> answered_ok sub = true -> waits_on hd w = true ->
    timed_rounds hd tr ls ->
    timed_rounds hd
      (Ev PerfCounter (Ok t0) :: sub :: w :: Ev PerfCounter (Ok t1) :: tr)
      (fsub t1 t0 :: ls).

(** The queue depth a call that creates a handle asks for. *)
Definition opened_depth (e : event F) : option Z :=
  match e with
  | Ev c _ => match c with AioHandle _ _ queue_depth _ _ _ => Some queue_depth | _ => None end
  end.

(** The file operations of a run. *)
Inductive op : Type :=
| OpMkdir (p : path) (parents exist_ok : bool)
| OpWrite (file : string)
| OpRead (file : string)
| OpUnlink (p : path) (missing_ok : bool).

Definition op_of (e : event F) : list op :=
  match e with
  | Ev c _ =>
      match c with
      | Mkdir p parents exist_ok => [OpMkdir p parents exist_ok]
      | AsyncPwrite _ _ file _ => [OpWrite file]
      | AsyncPread _ _ file _ => [OpRead file]
      | Unlink p missing_ok => [OpUnlink p missing_ok]
      | _ => []
      end
  end.

Definition ops (tr : list (event F)) : list op := flat_map op_of tr.

(** [nvme_dir / f"test_write_{size}_{i}.swap"] *)
Definition test_file (nvme_dir : path) (size i : Z) : path :=
  path_div nvme_dir (test_file_name size i).

(** The file operations of one size: the writes, the reads of the same
    files in the same order, and the removal of the files. *)
Definition size_ops (nvme_dir : path) (iterations size : Z) : list op :=
  List.map (fun i => OpWrite (path_str (test_file nvme_dir size i))) (range iterations)
  ++ List.map (fun i => OpRead (path_str (test_file nvme_dir size i))) (range iterations)
  ++ List.map (fun i => OpUnlink (test_file nvme_dir size i) true) (range iterations).

Definition benchmark_ops (nvme_path : string) (iterations : Z) (tensor_sizes : list Z)
  : list op :=
  OpMkdir (Path nvme_path) true true
    :: flat_map (size_ops (Path nvme_path) iterations) tensor_sizes.

(** The samples of a run over several sizes: for each size the write
    latencies and the read latencies, [iterations] of each. *)
Definition samples_ok (iterations : Z) (samples : list (list F * list F)) : Prop :=
  Forall (fun wr => Z.of_nat (length wr.1) = iterations
                    /\ Z.of_nat (length wr.2) = iterations) samples.

Definition flatten_samples (samples : list (list F * list F)) : list F :=
  flat_map (fun wr => wr.1 ++ wr.2) samples.

(** The submissions among the file operations. *)
Definition is_io_op (o : op) : bool :=
  match o with OpWrite _ | OpRead _ => true | _ => false end.

Definition submissions (tr : list (event F)) : list op := List.filter is_io_op (ops tr).

(** The submissions of one size: the writes, then the reads of the files
    written, in the same order. *)
Definition size_submissions (nvme_dir : path) (iterations size : Z) : list op :=
  List.map (fun i => OpWrite (path_str (test_file nvme_dir size i))) (range iterations)
  ++ List.map (fun i => OpRead (path_str (test_file nvme_dir size i))) (range iterations).

End Traces.

Section TraceKinds.
Context {F : Type}.

Definition is_print (e : event F) : bool :=
  match e with
  | Ev c _ => match c with Print _ _ => true | _ => false end
  end.

Definition is_unlink (e : event F) : bool :=
  match e with
  | Ev c _ => match c with Unlink _ _ => true | _ => false end
  end.

End TraceKinds.

Section MainKinds.
Context {F : Type}.

(** A query about a path: [expanduser], [exists], [os.access]. *)
Definition is_path_query (e : event F) : bool :=
  match e with
  | Ev c _ =>
      match c with
      | ExpandUser _ | PathExists _ | OsAccessW _ => true
      | _ => false
      end
  end.

(** A call that builds the engine: loading the op, creating the handle. *)
Definition is_init (e : event F) : bool :=
  match e with
  | Ev c _ =>
      match c with
      | LoadAsyncIO | AioHandle _ _ _ _ _ _ => true
      | _ => false
      end
  end.

End MainKinds.

(** The exception [get_aio_handle] raises for the exception [e] of the
    library. *)
Definition init_error (e : exn) : exn :=
  Exn RuntimeError ("Failed to initialize AIO handle: " +:+ exn_msg e).

(** The exception [main] raises for the exception [e] of [shutil.rmtree]. *)
Definition clean_error (e : exn) : exn :=
  Exn RuntimeError ("Failed to clean NVMe directory: " +:+ exn_msg e).

(** The exception the [except ValueError] clause of [main] turns the
    exception [e] of [parse_size] into: a [ValueError] is wrapped, any other
    exception passes. *)
Definition size_error (e : exn) : exn :=
  if isinstance e ValueError
  then Exn ValueError ("Invalid size format: " +:+ exn_msg e)
  else e.

(** The exception of lines 217-218. *)
Definition parent_error (nvme_path : path) : exn :=
  Exn ValueError ("Parent of NVMe path '" +:+ path_str nvme_path
                    +:+ "' must exist and be writable.").

(** Lines 210-211: the sizes, in order, and then the block size. *)
Definition parsed_sizes (args : Args) : result (list Z * Z) :=
  tensor_sizes ← mapM parse_size (sizes args);
  block_size ← parse_size (block_size args);
  mret (tensor_sizes, block_size).

(** The three path queries of lines 215-217, all answered, the last two
    with yes. *)
Definition checks_passed {F : Type} (args : Args) (p : path) : list (event F) :=
  [Ev (ExpandUser (Path (nvme_path args))) (Ok p);
   Ev (PathExists (path_parent p)) (Ok true);
   Ev (OsAccessW (path_parent p)) (Ok true)].

(** The runs of [main] that end before the target directory is touched:
    a size or the block size is rejected and no call is made; or
    [expanduser] raises; or [exists()] or [os.access] raises or answers no. *)
Definition stopped_in_checks {F : Type} (args : Args) (o : result unit)
    (tr : list (event F)) : Prop :=
  (exists e, parsed_sizes args = Raise e /\ tr = [] /\ o = Raise (size_error e))
  \/ (exists e,
        tr = [Ev (ExpandUser (Path (nvme_path args))) (Raise e)] /\ o = Raise e)
  \/ exists p,
       (exists e,
          tr = [Ev (ExpandUser (Path (nvme_path args))) (Ok p);
                Ev (PathExists (path_parent p)) (Raise e)] /\ o = Raise e)
       \/ (tr = [Ev (ExpandUser (Path (nvme_path args))) (Ok p);
                 Ev (PathExists (path_parent p)) (Ok false)]
           /\ o = Raise (parent_error p))
       \/ (exists e,
             tr = [Ev (ExpandUser (Path (nvme_path args))) (Ok p);
                   Ev (PathExists (path_parent p)) (Ok true);
                   Ev (OsAccessW (path_parent p)) (Raise e)] /\ o = Raise e)
       \/ (tr = [Ev (ExpandUser (Path (nvme_path args))) (Ok p);
                 Ev (PathExists (path_parent p)) (Ok true);
                 Ev (OsAccessW (path_parent p)) (Ok false)]
           /\ o = Raise (parent_error p)).

(** The exception of a call, if it raised. *)
Definition failure_of {X : Type} (r : result X) : option exn :=
  match r with Ok _ => None | Raise e => Some e end.

(** What [main] does after the [try] block of lines 220-227, in which
    [failure] was raised or nothing was: a [FileNotFoundError] is passed
    over and the last block runs, as it does when nothing was raised; any
    other exception ends the run with [clean_error], and nothing more is
    called.  [bench] lists the calls made after the block, and [o] and [s']
    are the outcome and the final state of the run. *)
Definition after_removal {F : Type} {NL : NumLib F} {S : Type} (h : handler F S)
    (args : Args) (block_size : Z) (tensor_sizes : list Z) (p : path)
    (failure : option exn) (o : result unit) (s' : S) (bench : list (event F)) : Prop :=
  let goes_on :=
    exists s2, interp h (run_benchmark args block_size tensor_sizes p) s2 = (o, s', bench) in
  match failure with
  | None => goes_on
  | Some e =>
      if isinstance e FileNotFoundError then goes_on
      else bench = [] /\ o = Raise (clean_error e)
  end.

(** ** The plan of a run *)

Section Plans.
Context {F : Type} {NL : NumLib F}.

(** The exceptions [benchmark] raises without a call: the three of
    [calculate_statistics], the one of an f-string that formats an int of
    more than 4300 digits, and the one of [len(range(iterations))]. *)
Definition own_error (e : exn) : Prop :=
  e = Exn ValueError "No latencies provided for statistics."
  \/ e = Exn ValueError "Some latencies were zero; cannot compute bandwidth."
  \/ e = Exn OverflowError "int too large to convert to float"
  \/ e = digits_error
  \/ e = Exn OverflowError "Python int too large to convert to C ssize_t".

(** Every call of the run returned. *)
Definition all_answered (tr : list (event F)) : Prop :=
  Forall (fun e => answered_ok e = true) tr.

(** How a run [tr] ends with the exception [e]: its last call raised [e],
    the calls before it having returned; or all its calls returned and [e]
    is one of the exceptions of [own_error]. *)
Definition raised_by (e : exn) (tr : list (event F)) : Prop :=
  (exists pre X (c : callE F X), tr = pre ++ [Ev c (Raise e)] /\ all_answered pre)
  \/ (own_error e /\ all_answered tr).

(** [follows_plan p plan Q]: in every environment, a run of [p] that returns
    has made the file operations [plan], every call having returned, and its
    value satisfies [Q]; a run that raises has made an initial part of
    [plan] and ends as [raised_by] says. *)
Definition follows_plan {A : Type} (p : prog F A) (plan : list op) (Q : A -> Prop)
  : Prop :=
  forall (S : Type) (h : handler F S) (s : S),
    match interp h p s with
    | (Ok a, _, tr) => ops tr = plan /\ all_answered tr /\ Q a
    | (Raise e, _, tr) => ops tr `prefix_of` plan /\ raised_by e tr
    end.

End Plans.

(** ** Numerals and exact floats *)

(** The decimal digit [d] as a character, and the numeral with the digits
    [ds], most significant first. *)
Definition digit_char (d : nat) : ascii := Ascii.ascii_of_nat (48 + d).

Fixpoint numeral (ds : list nat) : string :=
  match ds with
  | [] => EmptyString
  | d :: ds' => String (digit_char d) (numeral ds')
  end.

Definition numeral_value (ds : list nat) : Z :=
  fold_left (fun acc d => 10 * acc + Z.of_nat d) ds 0.

(** The binary64 value of an integer [n] with [0 <= n < 2^53], in the form
    [round_binary64] produces: 53 significant bits. *)
Definition float_of_exact (n : Z) : float :=
  if n =? 0 then FFinite 0 0
  else FFinite (n * 2 ^ (52 - Z.log2 n)) (Z.log2 n - 52).

(** A call [print(..., file=sys.stderr)] of the script. *)
Definition is_stderr {F : Type} (e : event F) : bool :=
  match e with
  | Ev c _ => match c with Print true _ => true | _ => false end
  end.

Definition quiet_on_stderr {F : Type} (e : event F) : bool := negb (is_stderr e).

(** In every environment, every call [p] makes satisfies [P]. *)
Definition only_calls {F A : Type} (P : event F -> bool) (p : prog F A) : Prop :=
  forall (S : Type) (h : handler F S) (s : S),
    Forall (fun e => P e = true) (interp h p s).2.

(** ** Well-formed paths *)

(** [s] holds no slash. *)
Definition no_slash (s : string) : Prop :=
  Forall (fun c => (code c =? 47) = false) (String.list_ascii_of_string s).

(** A path as [pathlib] keeps it: no component is empty or [.], and none
    holds a slash. *)
Definition well_formed (p : path) : Prop :=
  Forall (fun s => is_real_part s = true /\ no_slash s) (parts p).

(** ** Failures and the files written *)

Definition not_unlink {F : Type} (e : event F) : bool := negb (is_unlink e).

(** The run ends with an [unlink] or a [print] that raised. *)
Definition failed_in_cleanup {F : Type} (tr : list (event F)) : Prop :=
  exists pre last,
    tr = pre ++ [last] /\ answered_ok last = false
    /\ (is_unlink last || is_print last) = true.

(** In every environment, a run of [p] that raises has removed no file,
    unless it is an [unlink] or a [print] that raised. *)
Definition keeps_files_on_failure {F A : Type} (p : prog F A) : Prop :=
  forall (S : Type) (h : handler F S) (s : S),
    match interp h p s with
    | (Raise _, _, tr) =>
        Forall (fun ev => is_unlink ev = false) tr \/ failed_in_cleanup tr
    | (Ok _, _, _) => True
    end.

(** * Facts *)

(** ** [calculate_statistics] *)

Section StatisticsFacts.
Context {F : Type} `{NumLib F}.

Lemma filter_all_positive (xs : list F) :
  all_positive xs -> List.filter fgt0 xs = xs.
Proof.
  induction 1 as [|x xs Hx _ IH]; simpl; [reflexivity|].
  rewrite Hx. f_equal. exact IH.
Qed.

Lemma filter_length_eq (xs : list F) :
  length (List.filter fgt0 xs) = length xs -> all_positive xs.
Proof.
  induction xs as [|x xs IH]; simpl; intros Hlen; [constructor|].
  pose proof (List.filter_length_le fgt0 xs) as Hle.
  destruct (fgt0 x) eqn:Hx; simpl in Hlen.
  - constructor; [exact Hx|]. apply IH. lia.
  - lia.
Qed.

Lemma filter_none_positive (xs : list F) :
  List.filter fgt0 xs = [] <-> Forall (fun x => fgt0 x = false) xs.
Proof.
  induction xs as [|x xs IH]; simpl.
  - split; [constructor|reflexivity].
  - destruct (fgt0 x) eqn:Hx.
    + split; [discriminate|]. intros Hall. inversion Hall; congruence.
    + rewrite IH. split; [now constructor|]. intros Hall. now inversion Hall.
Qed.

Lemma filter_some_positive (xs : list F) :
  List.filter fgt0 xs <> [] <-> Exists (fun x => fgt0 x = true) xs.
Proof.
  rewrite filter_none_positive. induction xs as [|x xs IH].
  - split; [intros Hn; exfalso; apply Hn; constructor|intros Hex; inversion Hex].
  - split.
    + intros Hn. destruct (fgt0 x) eqn:Hx; [now apply Exists_cons_hd|].
      apply Exists_cons_tl, IH. intros Hall. apply Hn. now constructor.
    + intros Hex Hall. inversion Hall; subst.
      inversion Hex; subst; [congruence|]. now apply (proj2 IH).
Qed.

(** The list comprehension, when the size converts. *)
Lemma bandwidths_of_fits (size_bytes : Z) (xs : list F) :
  int_too_large size_bytes = false ->
  bandwidths_of size_bytes xs
  = Ok (List.map (fun lat => fdiv (fdiv (of_int size_bytes) lat) lit_1e6)
          (List.filter fgt0 xs)).
Proof.
  intros Hfit. unfold bandwidths_of.
  induction (List.filter fgt0 xs) as [|y ys IH]; [reflexivity|].
  cbn [mapM List.map]. rewrite IH. unfold bandwidth_of, float_of_int. now rewrite Hfit.
Qed.

(** The list comprehension, when the size does not convert: the first
    positive latency raises. *)
Lemma bandwidths_of_too_large (size_bytes : Z) (xs : list F) :
  int_too_large size_bytes = true ->
  bandwidths_of size_bytes xs
  = match List.filter fgt0 xs with
    | [] => Ok []
    | _ :: _ => Raise (Exn OverflowError "int too large to convert to float")
    end.
Proof.
  intros Hbig. unfold bandwidths_of.
  destruct (List.filter fgt0 xs) as [|y ys]; [reflexivity|].
  cbn [mapM]. unfold bandwidth_of, float_of_int. now rewrite Hbig.
Qed.

Lemma len_check_true (xs : list F) (g : F -> F) :
  (len (List.map g (List.filter fgt0 xs)) =? len xs) = true <-> all_positive xs.
Proof.
  unfold len. rewrite Z.eqb_eq, List.length_map. split.
  - intros Heq. apply filter_length_eq. lia.
  - intros Hpos. now rewrite filter_all_positive.
Qed.

Lemma calculate_statistics_positive (latencies : list F) (size_bytes : Z) :
  latencies <> [] -> all_positive latencies -> int_too_large size_bytes = false ->
  calculate_statistics latencies size_bytes =
    Ok {| latency := describe latencies;
          bandwidth_mb_s :=
            describe (List.map (fun lat => fdiv (fdiv (of_int size_bytes) lat) lit_1e6)
                        latencies) |}.
Proof.
  intros Hne Hpos Hfit. unfold calculate_statistics.
  destruct latencies as [|x xs]; [congruence|]. cbv zeta.
  rewrite (bandwidths_of_fits size_bytes (x :: xs) Hfit).
  change (Ok ?l ≫= ?k) with (k l). cbv beta.
  rewrite (proj2 (len_check_true (x :: xs) _) Hpos). simpl negb. cbv iota.
  rewrite (filter_all_positive (x :: xs) Hpos).
  unfold describe, key_percentiles. do 3 f_equal.
  unfold len. now rewrite List.length_map.
Qed.

Lemma calculate_statistics_not_positive (latencies : list F) (size_bytes : Z) :
  latencies <> [] -> ~ all_positive latencies -> int_too_large size_bytes = false ->
  calculate_statistics latencies size_bytes =
    Raise (Exn ValueError "Some latencies were zero; cannot compute bandwidth.").
Proof.
  intros Hne Hnpos Hfit. unfold calculate_statistics.
  destruct latencies as [|x xs]; [congruence|]. cbv zeta.
  rewrite (bandwidths_of_fits size_bytes (x :: xs) Hfit).
  change (Ok ?l ≫= ?k) with (k l). cbv beta.
  destruct (len (List.map _ (List.filter fgt0 (x :: xs))) =? len (x :: xs)) eqn:Hchk.
  - exfalso. apply Hnpos. now apply len_check_true in Hchk.
  - reflexivity.
Qed.

Lemma calculate_statistics_overflow (latencies : list F) (size_bytes : Z) :
  Exists (fun lat => fgt0 lat = true) latencies -> int_too_large size_bytes = true ->
  calculate_statistics latencies size_bytes =
    Raise (Exn OverflowError "int too large to convert to float").
Proof.
  intros Hex Hbig. unfold calculate_statistics.
  destruct latencies as [|x xs]; [inversion Hex|]. cbv zeta.
  rewrite (bandwidths_of_too_large size_bytes (x :: xs) Hbig).
  apply filter_some_positive in Hex.
  destruct (List.filter fgt0 (x :: xs)); [congruence|reflexivity].
Qed.

Lemma calculate_statistics_none_positive (latencies : list F) (size_bytes : Z) :
  latencies <> [] -> Forall (fun lat => fgt0 lat = false) latencies ->
  int_too_large size_bytes = true ->
  calculate_statistics latencies size_bytes =
    Raise (Exn ValueError "Some latencies were zero; cannot compute bandwidth.").
Proof.
  intros Hne Hnone Hbig. unfold calculate_statistics.
  destruct latencies as [|x xs]; [congruence|]. cbv zeta.
  rewrite (bandwidths_of_too_large size_bytes (x :: xs) Hbig).
  rewrite (proj2 (filter_none_positive (x :: xs)) Hnone). reflexivity.
Qed.

Lemma not_all_positive (xs : list F) :
  ~ all_positive xs <-> Exists (fun x => fgt0 x = false) xs.
Proof.
  unfold all_positive. induction xs as [|x xs IH].
  - split; [intros Hn; exfalso; apply Hn; constructor | intros Hex; inversion Hex].
  - split.
    + intros Hn. destruct (fgt0 x) eqn:Hx.
      * apply Exists_cons_tl, IH. intros Hall. apply Hn. now constructor.
      * now apply Exists_cons_hd.
    + intros Hex Hall. inversion Hall; subst.
      inversion Hex; subst; [congruence|]. now apply (proj2 IH).
Qed.

Lemma some_or_none_positive (xs : list F) :
  Exists (fun x => fgt0 x = true) xs \/ Forall (fun x => fgt0 x = false) xs.
Proof.
  induction xs as [|x xs [IH|IH]].
  - right. constructor.
  - left. now apply Exists_cons_tl.
  - destruct (fgt0 x) eqn:Hx; [left; now apply Exists_cons_hd|right; now constructor].
Qed.

(** C1, as the code has it.  For a non-empty list of positive latencies and
    a size that converts to a float, the result holds the descriptive
    statistics of the latencies and of the bandwidths, each bandwidth being
    [size_bytes / lat / 1e6]; for a size that does not convert (2^1024 - 2^970
    or more in magnitude) the call raises [OverflowError]. *)
Theorem calculate_statistics_describes (latencies : list F) (size_bytes : Z) :
  latencies <> [] -> all_positive latencies ->
  (int_too_large size_bytes = false ->
   calculate_statistics latencies size_bytes =
     Ok {| latency := describe latencies;
           bandwidth_mb_s :=
             describe (List.map (fun lat => fdiv (fdiv (of_int size_bytes) lat) lit_1e6)
                         latencies) |})
  /\ (int_too_large size_bytes = true ->
      calculate_statistics latencies size_bytes =
        Raise (Exn OverflowError "int too large to convert to float")).
Proof.
  intros Hne Hpos. split.
  - now apply calculate_statistics_positive.
  - apply calculate_statistics_overflow.
    destruct latencies as [|x xs]; [congruence|].
    apply Exists_cons_hd. now inversion Hpos.
Qed.

(** C8, as the code has it.  For a size that converts to a float,
    [calculate_statistics] raises [ValueError] exactly when the list is empty
    or holds a latency that is not strictly positive, raises nothing else,
    and returns for every non-empty list of strictly positive latencies.  For
    a size that does not convert it never returns: it raises [OverflowError]
    exactly when some latency is strictly positive, and [ValueError]
    otherwise. *)
Theorem calculate_statistics_raises_iff (latencies : list F) (size_bytes : Z) :
  (int_too_large size_bytes = false ->
   (raises (calculate_statistics latencies size_bytes) ValueError <->
      latencies = [] \/ Exists (fun lat => fgt0 lat = false) latencies)
   /\ (latencies <> [] -> all_positive latencies ->
       exists stats, calculate_statistics latencies size_bytes = Ok stats)
   /\ (forall e, calculate_statistics latencies size_bytes = Raise e ->
       exn_cls e = ValueError))
  /\ (int_too_large size_bytes = true ->
      (raises (calculate_statistics latencies size_bytes) OverflowError <->
         Exists (fun lat => fgt0 lat = true) latencies)
      /\ (raises (calculate_statistics latencies size_bytes) ValueError <->
            Forall (fun lat => fgt0 lat = false) latencies)
      /\ (forall stats, calculate_statistics latencies size_bytes <> Ok stats)).
Proof.
  split.
  - intros Hfit. split; [|split].
    + split.
      * intros [msg Hr]. destruct latencies as [|x xs]; [now left|right].
        apply not_all_positive. intros Hpos.
        rewrite calculate_statistics_positive in Hr by (congruence || assumption).
        discriminate.
      * intros [-> | Hex].
        -- eexists. reflexivity.
        -- eexists. apply calculate_statistics_not_positive; [| |exact Hfit].
           ++ intros ->. inversion Hex.
           ++ now apply not_all_positive.
    + intros Hne Hpos. eexists. now apply calculate_statistics_positive.
    + intros e He. destruct latencies as [|x xs]; [now inversion He|].
      destruct (decide (all_positive (x :: xs))) as [Hpos|Hnpos].
      * rewrite calculate_statistics_positive in He by (congruence || assumption).
        discriminate.
      * rewrite calculate_statistics_not_positive in He by (congruence || assumption).
        now inversion He.
  - intros Hbig.
    assert (Hcases :
      (Exists (fun lat => fgt0 lat = true) latencies
       /\ calculate_statistics latencies size_bytes
          = Raise (Exn OverflowError "int too large to convert to float"))
      \/ (Forall (fun lat => fgt0 lat = false) latencies
          /\ exists msg, calculate_statistics latencies size_bytes
                         = Raise (Exn ValueError msg))).
    { destruct (some_or_none_positive latencies) as [Hex|Hnone].
      - left. split; [exact Hex|]. now apply calculate_statistics_overflow.
      - right. split; [exact Hnone|]. destruct latencies as [|x xs].
        + eexists. reflexivity.
        + eexists. apply calculate_statistics_none_positive; [discriminate|assumption..]. }
    assert (Hexcl : forall xs : list F,
              Exists (fun lat => fgt0 lat = true) xs ->
              Forall (fun lat => fgt0 lat = false) xs -> False).
    { intros xs Hex Hall. induction Hex as [x xs Hx|x xs _ IH].
      - inversion Hall; congruence.
      - apply IH. now inversion Hall. }
    destruct Hcases as [[Hex Hr]|[Hnone [msg Hr]]]; rewrite Hr.
    + split; [|split].
      * split; [intros _; exact Hex|intros _; eexists; reflexivity].
      * split; [intros [m Hm]; discriminate|intros Hall; exfalso; eauto].
      * discriminate.
    + split; [|split].
      * split; [intros [m Hm]; discriminate|intros Hex; exfalso; eauto].
      * split; [intros _; exact Hnone|intros _; eexists; reflexivity].
      * discriminate.
Qed.

End StatisticsFacts.

(** A run of C1 on three samples of a 1 MB transfer. *)
Lemma calculate_statistics_describes_witness :
  calculate_statistics [(1 # 10)%Q; (2 # 10)%Q; (4 # 10)%Q] 1000000 =
    Ok {| latency := describe [(1 # 10)%Q; (2 # 10)%Q; (4 # 10)%Q];
          bandwidth_mb_s :=
            describe (List.map (fun lat => fdiv (fdiv (of_int 1000000) lat) lit_1e6)
                        [(1 # 10)%Q; (2 # 10)%Q; (4 # 10)%Q]) |}.
Proof.
  apply (calculate_statistics_describes [(1 # 10)%Q; (2 # 10)%Q; (4 # 10)%Q] 1000000).
  - discriminate.
  - repeat constructor.
  - vm_compute. reflexivity.
Defined.

(** C1, as stated, fails: a positive size of 2^1024 bytes with one positive
    latency makes [size_bytes / lat] raise. *)
Lemma calculate_statistics_overflows :
  all_positive [(1 # 1)%Q] /\ 0 < 2 ^ 1024
  /\ calculate_statistics [(1 # 1)%Q] (2 ^ 1024)
     = Raise (Exn OverflowError "int too large to convert to float").
Proof.
  split; [repeat constructor|]. split; [reflexivity|]. vm_compute. reflexivity.
Qed.

Lemma calculate_statistics_raises_iff_witness :
  (raises (calculate_statistics [(1 # 10)%Q; (0 # 1)%Q] 4096) ValueError)
  /\ (exists stats, calculate_statistics [(1 # 10)%Q; (2 # 10)%Q] 4096 = Ok stats)
  /\ (raises (calculate_statistics [(0 # 1)%Q; (1 # 10)%Q] (2 ^ 1024)) OverflowError).
Proof.
  split; [|split].
  - apply (proj1 (calculate_statistics_raises_iff [(1 # 10)%Q; (0 # 1)%Q] 4096)
             ltac:(vm_compute; reflexivity)).
    right. apply Exists_cons_tl, Exists_cons_hd. reflexivity.
  - apply (proj1 (calculate_statistics_raises_iff [(1 # 10)%Q; (2 # 10)%Q] 4096)
             ltac:(vm_compute; reflexivity)).
    + discriminate.
    + repeat constructor.
  - apply (proj2 (calculate_statistics_raises_iff [(0 # 1)%Q; (1 # 10)%Q] (2 ^ 1024))
             ltac:(vm_compute; reflexivity)).
    apply Exists_cons_tl, Exists_cons_hd. reflexivity.
Defined.

(** C8, as stated, fails: with a size of 2^1024 bytes a list of strictly
    positive latencies does not make the call return, and a list with a
    latency that is not positive makes it raise [OverflowError], not
    [ValueError]. *)
Lemma calculate_statistics_raises_overflow_error :
  calculate_statistics [(1 # 1)%Q] (2 ^ 1024)
  = Raise (Exn OverflowError "int too large to convert to float")
  /\ calculate_statistics [(1 # 1)%Q; (0 # 1)%Q] (2 ^ 1024)
     = Raise (Exn OverflowError "int too large to convert to float").
Proof. split; vm_compute; reflexivity. Qed.

(** ** Strings *)

Lemma append_cons (c : ascii) (p q : string) : String c p +:+ q = String c (p +:+ q).
Proof. reflexivity. Qed.

Lemma length_append (p q : string) :
  String.length (p +:+ q) = (String.length p + String.length q)%nat.
Proof. induction p as [|c p IH]; [reflexivity|]. rewrite append_cons. simpl. now rewrite IH. Qed.

Lemma substring_all (q : string) : String.substring 0 (String.length q) q = q.
Proof. induction q as [|c q IH]; [reflexivity|]. simpl. now rewrite IH. Qed.

Lemma substring_append_end (p q : string) :
  String.substring (String.length p) (String.length q) (p +:+ q) = q.
Proof.
  induction p as [|c p IH]; [apply substring_all|].
  rewrite append_cons. simpl. exact IH.
Qed.

Lemma substring_append_start (p q : string) :
  String.substring 0 (String.length p) (p +:+ q) = p.
Proof.
  induction p as [|c p IH]; [now destruct q|].
  rewrite append_cons. simpl. now rewrite IH.
Qed.

Lemma endswith_append (p q r : string) :
  String.length q = String.length r ->
  endswith (p +:+ q) r = String.eqb q r.
Proof.
  intros Hlen. unfold endswith. rewrite length_append, <- Hlen.
  replace (String.length p + String.length q - String.length q)%nat
    with (String.length p) by lia.
  rewrite substring_append_end.
  replace (String.length q <=? String.length p + String.length q)%nat with true; [reflexivity|].
  symmetry. apply Nat.leb_le. lia.
Qed.

Lemma drop_last_append (p : string) (c : ascii) :
  drop_last (p +:+ String c EmptyString) = p.
Proof.
  unfold drop_last. rewrite length_append. simpl.
  replace (String.length p + 1 - 1)%nat with (String.length p) by lia.
  apply substring_append_start.
Qed.

Lemma last_char_append (p : string) (c : ascii) :
  last_char (p +:+ String c EmptyString) = Some c.
Proof.
  induction p as [|a p IH]; [reflexivity|].
  rewrite append_cons. simpl. rewrite IH.
  destruct (p +:+ String c EmptyString) eqn:Hp; [|reflexivity].
  destruct p; discriminate.
Qed.

Lemma last_char_split (s : string) (c : ascii) :
  last_char s = Some c -> exists p, s = p +:+ String c EmptyString.
Proof.
  induction s as [|a s IH]; [discriminate|]. simpl.
  destruct s as [|b s].
  - intros [= ->]. now exists EmptyString.
  - intros Hl. destruct (IH Hl) as [p Hp]. exists (String a p).
    rewrite append_cons. now rewrite <- Hp.
Qed.

Lemma endswith_char (s : string) (d : ascii) :
  endswith s (String d EmptyString) = true -> last_char s = Some d.
Proof.
  destruct (last_char s) as [c|] eqn:Hl.
  - destruct (last_char_split s c Hl) as [p ->].
    rewrite endswith_append by reflexivity.
    intros Heq. apply String.eqb_eq in Heq. congruence.
  - destruct s as [|a s]; [discriminate|].
    exfalso. clear -Hl. revert a Hl. induction s as [|b s IH]; intros a Hl; [discriminate|].
    simpl in Hl. apply (IH b). exact Hl.
Qed.

Lemma str_rstrip_cons (a : ascii) (s : string) :
  str_rstrip (String a s) =
    match str_rstrip s with
    | EmptyString => if is_space a then EmptyString else String a EmptyString
    | r => String a r
    end.
Proof. reflexivity. Qed.

Lemma last_char_rstrip (s : string) (c : ascii) :
  last_char s = Some c -> is_space c = false -> last_char (str_rstrip s) = Some c.
Proof.
  intros Hl Hc. induction s as [|a s IH]; [discriminate|].
  simpl in Hl. destruct s as [|b s].
  - injection Hl as ->. simpl. now rewrite Hc.
  - specialize (IH Hl). rewrite str_rstrip_cons.
    destruct (str_rstrip (String b s)) as [|b' s'] eqn:Hr; [discriminate|].
    exact IH.
Qed.

Lemma last_char_lstrip (s : string) (c : ascii) :
  last_char s = Some c -> is_space c = false -> last_char (str_lstrip s) = Some c.
Proof.
  intros Hl Hc. induction s as [|a s IH]; [discriminate|].
  simpl. destruct (is_space a) eqn:Ha; [|exact Hl].
  apply IH. simpl in Hl. destruct s; [|exact Hl]. congruence.
Qed.

Lemma last_char_strip (s : string) (c : ascii) :
  last_char s = Some c -> is_space c = false -> last_char (str_strip s) = Some c.
Proof.
  intros Hl Hc. unfold str_strip. apply last_char_rstrip; [|exact Hc].
  now apply last_char_lstrip.
Qed.

Lemma c_space_is_space (c : ascii) : is_c_space c = true -> is_space c = true.
Proof.
  unfold is_c_space, is_space. intros Hc.
  apply orb_true_iff in Hc as [Hc|Hc]; [now rewrite Hc|].
  apply Z.eqb_eq in Hc. rewrite Hc. reflexivity.
Qed.

Lemma not_space_not_c_space (c : ascii) : is_space c = false -> is_c_space c = false.
Proof.
  intros Hc. destruct (is_c_space c) eqn:Hcs; [|reflexivity].
  apply c_space_is_space in Hcs. congruence.
Qed.

Lemma c_rstrip_cons (a : ascii) (s : string) :
  c_rstrip (String a s) =
    match c_rstrip s with
    | EmptyString => if is_c_space a then EmptyString else String a EmptyString
    | r => String a r
    end.
Proof. reflexivity. Qed.

Lemma last_char_c_rstrip (s : string) (c : ascii) :
  last_char s = Some c -> is_c_space c = false -> last_char (c_rstrip s) = Some c.
Proof.
  intros Hl Hc. induction s as [|a s IH]; [discriminate|].
  simpl in Hl. destruct s as [|b s].
  - injection Hl as ->. simpl. now rewrite Hc.
  - specialize (IH Hl). rewrite c_rstrip_cons.
    destruct (c_rstrip (String b s)) as [|b' s'] eqn:Hr; [discriminate|].
    exact IH.
Qed.

Lemma last_char_c_lstrip (s : string) (c : ascii) :
  last_char s = Some c -> is_c_space c = false -> last_char (c_lstrip s) = Some c.
Proof.
  intros Hl Hc. induction s as [|a s IH]; [discriminate|].
  simpl. destruct (is_c_space a) eqn:Ha; [|exact Hl].
  apply IH. simpl in Hl. destruct s; [|exact Hl]. congruence.
Qed.

Lemma last_char_c_strip (s : string) (c : ascii) :
  last_char s = Some c -> is_c_space c = false -> last_char (c_strip s) = Some c.
Proof.
  intros Hl Hc. unfold c_strip. apply last_char_c_rstrip; [|exact Hc].
  now apply last_char_c_lstrip.
Qed.

Lemma last_char_list (s : string) :
  last_char s = last (String.list_ascii_of_string s).
Proof.
  induction s as [|a s IH]; [reflexivity|]. simpl. rewrite IH.
  destruct s; reflexivity.
Qed.

(** ** Integer literals end in a digit *)

Lemma digitpart_rest_all (n : nat) :
  forall cs acc ds, (length cs <= n)%nat ->
    digitpart_rest cs acc = (ds, []) ->
    cs = [] \/ exists c, last cs = Some c /\ is_digit c.
Proof.
  induction n as [|n IH]; intros cs acc ds Hlen Hrest.
  - destruct cs; [now left|simpl in Hlen; lia].
  - destruct cs as [|c cs']; [now left|]. right. simpl in Hrest, Hlen.
    destruct (digit_val c) as [d|] eqn:Hd.
    + destruct (IH cs' _ _ ltac:(lia) Hrest) as [-> | (c' & Hl & Hdig)].
      * exists c. split; [reflexivity|]. unfold is_digit. rewrite Hd. eauto.
      * exists c'. split; [|exact Hdig]. rewrite last_cons, Hl. reflexivity.
    + destruct (is_underscore c); [|discriminate].
      destruct cs' as [|c2 cs'']; [discriminate|].
      destruct (digit_val c2) as [d|] eqn:Hd2; [|discriminate].
      simpl in Hlen.
      destruct (IH cs'' _ _ ltac:(lia) Hrest) as [-> | (c' & Hl & Hdig)].
      * exists c2. split; [reflexivity|]. unfold is_digit. rewrite Hd2. eauto.
      * exists c'. split; [|exact Hdig]. rewrite !last_cons, Hl. reflexivity.
Qed.

Lemma digitpart_all (cs : list ascii) (ds : digits) :
  digitpart cs = Some (ds, []) -> exists c, last cs = Some c /\ is_digit c.
Proof.
  unfold digitpart. destruct cs as [|c cs']; [discriminate|].
  destruct (digit_val c) as [d|] eqn:Hd; [|discriminate].
  intros [= Hrest].
  destruct (digitpart_rest_all (length cs') cs' _ _ (Nat.le_refl _) Hrest)
    as [-> | (c' & Hl & Hdig)].
  - exists c. split; [reflexivity|]. unfold is_digit. rewrite Hd. eauto.
  - exists c'. split; [|exact Hdig]. rewrite last_cons, Hl. reflexivity.
Qed.

Lemma int_parse_value (cs : list ascii) (z : Z) :
  int_parse cs = IntValue z ->
  exists neg cs1 ds,
    read_sign cs = (neg, cs1) /\ digitpart cs1 = Some (ds, [])
    /\ (dg_count ds <= int_max_str_digits)%nat /\ z = apply_sign neg (dg_value ds).
Proof.
  unfold int_parse. destruct (read_sign cs) as [neg cs1].
  destruct (digitpart cs1) as [[ds [|a rest]]|] eqn:Hdp; [| |discriminate].
  - destruct (Nat.leb_spec (dg_count ds) int_max_str_digits) as [Hle|]; [|discriminate].
    intros [= <-]. exists neg, cs1, ds. split; [reflexivity|]. split; [exact Hdp|].
    split; [exact Hle|reflexivity].
  - destruct (is_underscore a); [discriminate|].
    destruct (dg_count ds <=? int_max_str_digits)%nat; discriminate.
Qed.

Lemma int_literal_last (cs : list ascii) (z : Z) :
  int_literal cs = Some z -> exists c, last cs = Some c /\ is_digit c.
Proof.
  unfold int_literal. destruct (int_parse cs) as [z'| |] eqn:Hparse; try discriminate.
  intros _. apply int_parse_value in Hparse as (neg & cs1 & ds & Hsign & Hdp & _).
  destruct (digitpart_all cs1 ds Hdp) as (c & Hl & Hdig).
  exists c. split; [|exact Hdig].
  unfold read_sign in Hsign. destruct cs as [|a cs']; [now injection Hsign as _ <-|].
  destruct (code a =? 45); [|destruct (code a =? 43)]; injection Hsign as _ <-.
  - rewrite last_cons, Hl. reflexivity.
  - rewrite last_cons, Hl. reflexivity.
  - exact Hl.
Qed.

Lemma py_int_value (t : string) (z : Z) :
  py_int t = Ok z <-> int_parse (String.list_ascii_of_string (c_strip t)) = IntValue z.
Proof.
  unfold py_int. destruct (int_parse _); split; congruence.
Qed.

Lemma py_int_last (t : string) (z : Z) :
  py_int t = Ok z -> exists c, last_char (c_strip t) = Some c /\ is_digit c.
Proof.
  intros Hint. apply py_int_value in Hint.
  rewrite last_char_list. apply (int_literal_last _ z).
  unfold int_literal. now rewrite Hint.
Qed.

Lemma py_int_no_suffix (t : string) (z : Z) (d : ascii) :
  py_int t = Ok z -> is_space d = false -> digit_val d = None ->
  endswith t (String d EmptyString) = false.
Proof.
  intros Hint Hsp Hnd. destruct (endswith t (String d EmptyString)) eqn:Hends; [|reflexivity].
  apply endswith_char in Hends.
  destruct (py_int_last t z Hint) as (c & Hl & [v Hv]).
  rewrite (last_char_c_strip t d Hends (not_space_not_c_space d Hsp)) in Hl. congruence.
Qed.

(** ** [parse_size] *)

Lemma parse_size_suffix (s p suffix : string) (k : nat) (x : float) :
  str_strip (str_upper s) = p +:+ suffix ->
  suffix_power suffix = Some k ->
  py_float p = Ok x ->
  parse_size s = int_of_float (times_1024 k x).
Proof.
  intros Ht Hk Hx. unfold parse_size. rewrite Ht. unfold suffix_power in Hk.
  destruct (String.eqb suffix "K") eqn:HK.
  { apply String.eqb_eq in HK. subst suffix. injection Hk as <-.
    rewrite endswith_append by reflexivity. simpl String.eqb. cbv iota.
    rewrite drop_last_append, Hx. reflexivity. }
  destruct (String.eqb suffix "M") eqn:HM.
  { apply String.eqb_eq in HM. subst suffix. injection Hk as <-.
    rewrite !endswith_append by reflexivity. simpl String.eqb. cbv iota.
    rewrite drop_last_append, Hx. reflexivity. }
  destruct (String.eqb suffix "G") eqn:HG; [|discriminate].
  apply String.eqb_eq in HG. subst suffix. injection Hk as <-.
  rewrite !endswith_append by reflexivity. simpl String.eqb. cbv iota.
  rewrite drop_last_append, Hx. reflexivity.
Qed.

Lemma char_K : is_space "K"%char = false /\ digit_val "K"%char = None.
Proof. split; reflexivity. Qed.
Lemma char_M : is_space "M"%char = false /\ digit_val "M"%char = None.
Proof. split; reflexivity. Qed.
Lemma char_G : is_space "G"%char = false /\ digit_val "G"%char = None.
Proof. split; reflexivity. Qed.

Lemma parse_size_plain (s : string) (n : Z) :
  py_int (str_strip (str_upper s)) = Ok n -> parse_size s = Ok n.
Proof.
  intros Hint. unfold parse_size.
  rewrite (py_int_no_suffix _ n "K"%char Hint (proj1 char_K) (proj2 char_K)).
  rewrite (py_int_no_suffix _ n "M"%char Hint (proj1 char_M) (proj2 char_M)).
  rewrite (py_int_no_suffix _ n "G"%char Hint (proj1 char_G) (proj2 char_G)).
  exact Hint.
Qed.

(** C9, as the code has it.  With a suffix K, M or G, [parse_size] returns
    the integer part of the float product [float(prefix) * 1024 * ...]
    whenever [float] accepts the prefix and the product is finite; without a
    suffix it returns [int] of the string whenever [int] accepts it, and
    raises [ValueError] otherwise. *)
Theorem parse_size_amended (s : string) :
  (forall p suffix k x m e,
      str_strip (str_upper s) = p +:+ suffix ->
      suffix_power suffix = Some k ->
      py_float p = Ok x ->
      times_1024 k x = FFinite m e ->
      parse_size s = Ok (truncated m e))
  /\ (forall n, py_int (str_strip (str_upper s)) = Ok n -> parse_size s = Ok n)
  /\ (endswith (str_strip (str_upper s)) "K" = false ->
      endswith (str_strip (str_upper s)) "M" = false ->
      endswith (str_strip (str_upper s)) "G" = false ->
      forall e, py_int (str_strip (str_upper s)) = Raise e ->
      parse_size s = Raise e /\ exn_cls e = ValueError).
Proof.
  split; [|split].
  - intros p suffix k x m e Ht Hk Hx Hfin.
    rewrite (parse_size_suffix s p suffix k x Ht Hk Hx), Hfin. reflexivity.
  - apply parse_size_plain.
  - intros HK HM HG e He. unfold parse_size. rewrite HK, HM, HG. split; [exact He|].
    unfold py_int in He.
    destruct (int_parse _); [discriminate| |]; now inversion He.
Qed.

Lemma parse_size_amended_witness :
  parse_size "2M" = Ok 2097152
  /\ parse_size " 1.5k " = Ok 1536
  /\ parse_size "4096" = Ok 4096
  /\ (parse_size "12 bytes"
        = Raise (Exn ValueError "invalid literal for int() with base 10: '12 BYTES'")
      /\ exn_cls (Exn ValueError "invalid literal for int() with base 10: '12 BYTES'")
         = ValueError).
Proof.
  split; [|split; [|split]].
  - apply (proj1 (parse_size_amended "2M") "2" "M" 2%nat (FFinite 4503599627370496 (-51))
             4503599627370496 (-31)); reflexivity.
  - apply (proj1 (parse_size_amended " 1.5k ") "1.5" "K" 1%nat
             (FFinite 6755399441055744 (-52)) 6755399441055744 (-42)); reflexivity.
  - apply (proj1 (proj2 (parse_size_amended "4096"))). reflexivity.
  - apply (proj2 (proj2 (parse_size_amended "12 bytes"))); reflexivity.
Defined.

(** C9, as stated, fails: a numeric string with a fraction and no suffix is
    rejected, and a product that overflows the floats is rejected too. *)
Lemma parse_size_rejects_numeric_strings :
  (py_float "1.5" = Ok (FFinite 6755399441055744 (-52))
   /\ parse_size "1.5"
      = Raise (Exn ValueError "invalid literal for int() with base 10: '1.5'"))
  /\ (py_float "1e308" = Ok (FFinite 5010420900022432 971)
      /\ parse_size "1e308K"
         = Raise (Exn OverflowError "cannot convert float infinity to integer")).
Proof. split; split; vm_compute; reflexivity. Qed.

(** ** Runs of programs *)

Section InterpFacts.
Context {F : Type} {S : Type} (h : handler F S).

Lemma interp_bind {A B} (p : prog F A) (f : A -> prog F B) (s : S) :
  interp h (p ≫= f) s =
    match interp h p s with
    | (Ok a, s1, tr1) =>
        let '(o, s2, tr2) := interp h (f a) s1 in (o, s2, tr1 ++ tr2)
    | (Raise e, s1, tr1) => (Raise e, s1, tr1)
    end.
Proof.
  revert s. induction p as [a|e|X c k IH]; intros s.
  - cbn. now destruct (interp h (f a) s) as [[o s2] tr2].
  - reflexivity.
  - cbn. destruct (h X c s) as [r s1]. specialize (IH r s1).
    unfold mbind, prog_bind in IH. rewrite IH.
    destruct (interp h (k r) s1) as [[[a|e] s2] tr]; [|reflexivity].
    now destruct (interp h (f a) s2) as [[o s3] tr3].
Qed.

Lemma interp_call {X} (c : callE F X) (s : S) :
  interp h (call c) s =
    (match (h X c s).1 with Ok x => Ok x | Raise e => Raise e end,
     (h X c s).2, [Ev c (h X c s).1]).
Proof. cbn. destruct (h X c s) as [[x|e] s1]; reflexivity. Qed.

Lemma interp_lift {A} (r : result A) (s : S) :
  interp h (lift r) s = (r, s, []).
Proof. destruct r; reflexivity. Qed.

Lemma interp_bind_lift {A B} (r : result A) (f : A -> prog F B) (s : S) :
  interp h (lift r ≫= f) s =
    match r with
    | Ok a => interp h (f a) s
    | Raise e => (Raise e, s, [])
    end.
Proof.
  rewrite interp_bind, interp_lift. destruct r as [a|e]; [|reflexivity].
  now destruct (interp h (f a) s) as [[o s2] tr2].
Qed.

Lemma interp_try_except {A} (p : prog F A) (handle : exn -> prog F A) (s : S) :
  interp h (try_except p handle) s =
    match interp h p s with
    | (Ok a, s1, tr1) => (Ok a, s1, tr1)
    | (Raise e, s1, tr1) =>
        let '(o, s2, tr2) := interp h (handle e) s1 in (o, s2, tr1 ++ tr2)
    end.
Proof.
  revert s. induction p as [a|e|X c k IH]; intros s.
  - reflexivity.
  - cbn. now destruct (interp h (handle e) s) as [[o s2] tr2].
  - cbn. destruct (h X c s) as [r s1]. rewrite IH.
    destruct (interp h (k r) s1) as [[[a|e] s2] tr]; [reflexivity|].
    now destruct (interp h (handle e) s2) as [[o s3] tr3].
Qed.

Lemma interp_bind_ok {A B} (p : prog F A) (f : A -> prog F B) s b s' tr :
  interp h (p ≫= f) s = (Ok b, s', tr) ->
  exists a s1 tr1 tr2,
    interp h p s = (Ok a, s1, tr1) /\ interp h (f a) s1 = (Ok b, s', tr2)
    /\ tr = tr1 ++ tr2.
Proof.
  rewrite interp_bind.
  destruct (interp h p s) as [[[a|e] s1] tr1]; [|discriminate].
  destruct (interp h (f a) s1) as [[o s2] tr2] eqn:Hf.
  intros [= -> -> <-]. now exists a, s1, tr1, tr2.
Qed.

Lemma interp_bind_raise {A B} (p : prog F A) (f : A -> prog F B) s e s' tr :
  interp h (p ≫= f) s = (Raise e, s', tr) ->
  interp h p s = (Raise e, s', tr)
  \/ exists a s1 tr1 tr2,
       interp h p s = (Ok a, s1, tr1) /\ interp h (f a) s1 = (Raise e, s', tr2)
       /\ tr = tr1 ++ tr2.
Proof.
  rewrite interp_bind.
  destruct (interp h p s) as [[[a|e1] s1] tr1]; [|intros [= -> -> ->]; now left].
  destruct (interp h (f a) s1) as [[o s2] tr2] eqn:Hf.
  intros [= -> -> <-]. right. now exists a, s1, tr1, tr2.
Qed.

Lemma interp_call_ok {X} (c : callE F X) s x s' tr :
  interp h (call c) s = (Ok x, s', tr) ->
  h X c s = (Ok x, s') /\ tr = [Ev c (Ok x)].
Proof.
  rewrite interp_call. destruct (h X c s) as [[y|e] s1]; [|discriminate].
  cbn. now intros [= -> -> <-].
Qed.

Lemma interp_call_raise {X} (c : callE F X) s e s' tr :
  interp h (call c) s = (Raise e, s', tr) ->
  h X c s = (Raise e, s') /\ tr = [Ev c (Raise e)].
Proof.
  rewrite interp_call. destruct (h X c s) as [[y|e1] s1]; [discriminate|].
  cbn. now intros [= -> -> <-].
Qed.

Lemma interp_mret {A} (a : A) (s : S) : interp h (mret a) s = (Ok a, s, []).
Proof. reflexivity. Qed.

Lemma interp_throw {A} (e : exn) (s : S) : interp h (@Throw F A e) s = (Raise e, s, []).
Proof. reflexivity. Qed.

Lemma interp_ret {A} (a : A) s o s' tr :
  interp h (mret a) s = (o, s', tr) -> o = Ok a /\ s' = s /\ tr = [].
Proof. cbn. now intros [= <- <- <-]. Qed.

Lemma for_each_cons {X St} (x : X) (xs : list X) (body : St -> X -> prog F St) st :
  for_each (x :: xs) body st = (body st x ≫= for_each xs body).
Proof. reflexivity. Qed.

Lemma for_each_app {X St} (xs ys : list X) (body : St -> X -> prog F St) st s :
  interp h (for_each (xs ++ ys) body st) s
  = interp h (for_each xs body st ≫= for_each ys body) s.
Proof.
  revert st s. induction xs as [|x xs IH]; intros st s.
  - cbn [app for_each]. rewrite interp_bind. cbn.
    now destruct (interp h (for_each ys body st) s) as [[o s2] tr2].
  - cbn [app]. rewrite for_each_cons, !interp_bind.
    destruct (interp h (body st x) s) as [[[st1|e] s1] tr1] eqn:Hb.
    + rewrite IH, !interp_bind. rewrite for_each_cons, interp_bind, Hb.
      destruct (interp h (for_each xs body st1) s1) as [[[st2|e] s2] tr2]; cbn.
      * destruct (interp h (for_each ys body st2) s2) as [[o s3] tr3].
        now rewrite app_assoc.
      * reflexivity.
    + rewrite for_each_cons, interp_bind, Hb. reflexivity.
Qed.

End InterpFacts.

(** ** Shapes of runs *)

Section Shapes.
Context {F : Type} {NL : NumLib F}.

Lemma submits_on_submit (hd : handle) (e : event F) :
  submits_on hd e = true -> is_submit e = true.
Proof. destruct e as [X c r]. now destruct c. Qed.



Lemma not_wait_on (hd : handle) (e : event F) :
  is_wait e = false -> waits_on hd e = false.
Proof. destruct e as [X c r]. now destruct c. Qed.

Lemma timed_rounds_app (hd : handle) (tr1 tr2 : list (event F)) (l1 l2 : list F) :
  timed_rounds hd tr1 l1 -> timed_rounds hd tr2 l2 ->
  timed_rounds hd (tr1 ++ tr2) (l1 ++ l2).
Proof.
  induction 1 as [|e tr ls Hq _ IH|t0 t1 sub w tr ls Hs Hok Hw _ IH]; intros H2; cbn.
  - exact H2.
  - apply timed_quiet; auto.
  - apply timed_round; auto.
Qed.

Lemma quiet_not_handle (e : event F) :
  is_quiet e = true -> is_submit e = false /\ is_wait e = false.
Proof.
  unfold is_quiet. destruct (is_submit e), (is_wait e); cbn; intuition congruence.
Qed.

Lemma blocks_after_rounds (hd : handle) (tr1 tr2 : list (event F)) (l1 : list F) :
  timed_rounds hd tr1 l1 -> blocks hd tr2 -> blocks hd (tr1 ++ tr2).
Proof.
  induction 1 as [|e tr ls Hq _ IH|t0 t1 sub w tr ls Hs Hok Hw _ IH]; intros H2; cbn.
  - exact H2.
  - destruct (quiet_not_handle e Hq). apply blocks_other; auto.
  - apply blocks_other; [reflexivity..|].
    apply blocks_pair; [assumption..|].
    apply blocks_other; [reflexivity..|]. auto.
Qed.

Lemma timed_rounds_blocks (hd : handle) (tr : list (event F)) (ls : list F) :
  timed_rounds hd tr ls -> blocks hd tr.
Proof.
  intros Ht. rewrite <- (app_nil_r tr). eapply blocks_after_rounds; [exact Ht|constructor].
Qed.

Lemma quiet_rounds (hd : handle) (tr : list (event F)) :
  Forall (fun e => is_quiet e = true) tr -> timed_rounds hd tr [].
Proof. induction 1; [constructor|apply timed_quiet; assumption]. Qed.

Lemma print_quiet (e : event F) : is_print e = true -> is_quiet e = true.
Proof. destruct e as [X c r]. now destruct c. Qed.

Lemma unlink_quiet (e : event F) : is_unlink e = true -> is_quiet e = true.
Proof. destruct e as [X c r]. now destruct c. Qed.

Lemma print_no_op (e : event F) : is_print e = true -> op_of e = [].
Proof. destruct e as [X c r]. now destruct c. Qed.

Lemma ops_app (tr1 tr2 : list (event F)) : ops (tr1 ++ tr2) = ops tr1 ++ ops tr2.
Proof. apply flat_map_app. Qed.

Lemma prints_no_ops (tr : list (event F)) :
  Forall (fun e => is_print e = true) tr -> ops tr = [].
Proof.
  induction 1 as [|e tr He _ IH]; [reflexivity|].
  change (ops (e :: tr)) with (op_of e ++ ops tr). now rewrite (print_no_op e He), IH.
Qed.

Lemma prints_rounds (hd : handle) (tr : list (event F)) :
  Forall (fun e => is_print e = true) tr -> timed_rounds hd tr [].
Proof.
  intros Hp. apply quiet_rounds. eapply Forall_impl; [exact Hp|].
  intros e. apply print_quiet.
Qed.

End Shapes.

(** ** Conversions that return *)

Lemma format_int_ok (n : Z) (s : string) : format_int n = Ok s -> s = str_of_int n.
Proof. unfold format_int. destruct (_ <=? _); [discriminate|]. now intros [= <-]. Qed.

Lemma format_int_error (n : Z) (e : exn) :
  format_int n = Raise e -> e = digits_error.
Proof. unfold format_int. destruct (_ <=? _); [|discriminate]. now intros [= <-]. Qed.

Lemma format_test_file_name_ok (size i : Z) (name : string) :
  format_test_file_name size i = Ok name -> name = test_file_name size i.
Proof.
  unfold format_test_file_name, test_file_name.
  destruct (format_int size) as [a|e] eqn:Ha; [|discriminate].
  destruct (format_int i) as [b|e] eqn:Hb; [|discriminate].
  apply format_int_ok in Ha, Hb. subst. now intros [= <-].
Qed.

Lemma format_test_file_name_error (size i : Z) (e : exn) :
  format_test_file_name size i = Raise e -> e = digits_error.
Proof.
  unfold format_test_file_name.
  destruct (format_int size) as [a|e1] eqn:Ha.
  - destruct (format_int i) as [b|e2] eqn:Hb; [discriminate|].
    intros [= <-]. eapply format_int_error. exact Hb.
  - intros [= <-]. eapply format_int_error. exact Ha.
Qed.

Lemma len_range_error (n : Z) (e : exn) :
  len_range n = Raise e ->
  e = Exn OverflowError "Python int too large to convert to C ssize_t".
Proof. unfold len_range. destruct (_ <=? _); [|discriminate]. now intros [= <-]. Qed.

(** Symbolic execution of a run: one call at a time, with both answers. *)
Ltac run_step h :=
  rewrite ?interp_bind; cbv beta; rewrite ?interp_call;
  match goal with
  | |- context [h ?X ?c ?s] =>
      let x := fresh "x" in
      let e := fresh "e" in
      let s1 := fresh "s" in
      destruct (h X c s) as [[x|e] s1]; cbn [fst snd]
  end.

Ltac on_handle := first [reflexivity | cbn; apply bool_decide_eq_true_2; reflexivity].

Ltac solve_blocks :=
  repeat first
    [ apply blocks_nil
    | apply blocks_last; [on_handle|reflexivity]
    | apply blocks_pair; [on_handle|on_handle|]
    | apply blocks_other; [reflexivity|reflexivity|] ].

Section BenchmarkRuns.
Context {F : Type} {NL : NumLib F} {S : Type} (h : handler F S).
Variables (aio_handle : handle) (nvme_dir : path) (size : Z).

Lemma write_iteration_run (files : list path) (lats : list F) (i : Z) s o s' tr :
  interp h (write_iteration aio_handle nvme_dir size (files, lats) i) s = (o, s', tr) ->
  match o with
  | Ok (files', lats') =>
      exists l,
        files' = files ++ [test_file nvme_dir size i] /\ lats' = lats ++ [l]
        /\ timed_rounds aio_handle tr [l]
        /\ ops tr = [OpWrite (path_str (test_file nvme_dir size i))]
  | Raise _ => blocks aio_handle tr
  end.
Proof.
  unfold write_iteration.
  run_step h; [|intros [= <- <- <-]; solve_blocks].
  rewrite interp_bind_lift.
  destruct (format_test_file_name size i) as [name|e0] eqn:Hname; cbv zeta;
    [|intros [= <- <- <-]; solve_blocks].
  apply format_test_file_name_ok in Hname. subst name.
  run_step h; [|intros [= <- <- <-]; solve_blocks].
  run_step h; [|intros [= <- <- <-]; solve_blocks].
  run_step h; [|intros [= <- <- <-]; solve_blocks].
  run_step h; [|intros [= <- <- <-]; solve_blocks].
  cbn. intros [= <- <- <-]. eexists. split; [reflexivity|]. split; [reflexivity|].
  split; [|reflexivity].
  apply timed_quiet; [reflexivity|].
  apply timed_round; [on_handle|reflexivity|on_handle|constructor].
Qed.

Lemma write_loop_run (indices : list Z) :
  forall (files : list path) (lats : list F) s o s' tr,
  interp h (for_each indices (write_iteration aio_handle nvme_dir size) (files, lats)) s
    = (o, s', tr) ->
  match o with
  | Ok (files', lats') =>
      exists ls,
        files' = files ++ List.map (test_file nvme_dir size) indices
        /\ lats' = lats ++ ls /\ length ls = length indices
        /\ timed_rounds aio_handle tr ls
        /\ ops tr = List.map (fun i => OpWrite (path_str (test_file nvme_dir size i))) indices
  | Raise _ => blocks aio_handle tr
  end.
Proof.
  induction indices as [|i indices IH]; intros files lats s o s' tr.
  - cbn. intros [= <- <- <-]. exists []. rewrite !app_nil_r.
    repeat split; constructor.
  - rewrite for_each_cons, interp_bind.
    destruct (interp h (write_iteration aio_handle nvme_dir size (files, lats) i) s)
      as [[[[files1 lats1]|e] s1] tr1] eqn:Hit; apply write_iteration_run in Hit.
    + destruct Hit as (l & -> & -> & Ht1 & Hops1).
      destruct (interp h (for_each indices _ _) s1) as [[o2 s2] tr2] eqn:Hrest.
      apply IH in Hrest. intros [= <- <- <-].
      destruct o2 as [[files2 lats2]|e2].
      * destruct Hrest as (ls & -> & -> & Hlen & Ht2 & Hops2).
        exists (l :: ls). rewrite <- !app_assoc. cbn [app List.map length].
        repeat split; [now rewrite Hlen| |].
        -- apply (timed_rounds_app aio_handle tr1 tr2 [l] ls Ht1 Ht2).
        -- now rewrite ops_app, Hops1, Hops2.
      * eapply blocks_after_rounds; eassumption.
    + intros [= <- <- <-]. exact Hit.
Qed.

Lemma read_iteration_run (test_files : list path) (lats : list F) (i : Z) s o s' tr :
  interp h (read_iteration aio_handle test_files size lats i) s = (o, s', tr) ->
  match o with
  | Ok lats' =>
      exists l file,
        test_files !! Z.to_nat i = Some file /\ lats' = lats ++ [l]
        /\ timed_rounds aio_handle tr [l] /\ ops tr = [OpRead (path_str file)]
  | Raise _ => blocks aio_handle tr
  end.
Proof.
  unfold read_iteration.
  run_step h; [|intros [= <- <- <-]; solve_blocks].
  destruct (test_files !! Z.to_nat i) as [file|];
    [rewrite interp_bind, interp_mret
    |rewrite interp_bind, interp_throw; intros [= <- <- <-]; solve_blocks].
  run_step h; [|intros [= <- <- <-]; solve_blocks].
  run_step h; [|intros [= <- <- <-]; solve_blocks].
  run_step h; [|intros [= <- <- <-]; solve_blocks].
  run_step h; [|intros [= <- <- <-]; solve_blocks].
  cbn. intros [= <- <- <-]. eexists _, file. split; [reflexivity|]. split; [reflexivity|].
  split; [|reflexivity].
  apply timed_quiet; [reflexivity|].
  apply timed_round; [on_handle|reflexivity|on_handle|constructor].
Qed.

Lemma read_loop_run (test_files : list path) (indices : list Z) :
  forall (lats : list F) s o s' tr,
  interp h (for_each indices (read_iteration aio_handle test_files size) lats) s
    = (o, s', tr) ->
  match o with
  | Ok lats' =>
      exists ls,
        lats' = lats ++ ls /\ length ls = length indices
        /\ timed_rounds aio_handle tr ls
        /\ forall file_of : Z -> path,
             (forall i, In i indices -> test_files !! Z.to_nat i = Some (file_of i)) ->
             ops tr = List.map (fun i => OpRead (path_str (file_of i))) indices
  | Raise _ => blocks aio_handle tr
  end.
Proof.
  induction indices as [|i indices IH]; intros lats s o s' tr.
  - cbn. intros [= <- <- <-]. exists []. rewrite !app_nil_r.
    repeat split; constructor.
  - rewrite for_each_cons, interp_bind.
    destruct (interp h (read_iteration aio_handle test_files size lats i) s)
      as [[[lats1|e] s1] tr1] eqn:Hit; apply read_iteration_run in Hit.
    + destruct Hit as (l & file & Hfile & -> & Ht1 & Hops1).
      destruct (interp h (for_each indices _ _) s1) as [[o2 s2] tr2] eqn:Hrest.
      apply IH in Hrest. intros [= <- <- <-].
      destruct o2 as [lats2|e2].
      * destruct Hrest as (ls & -> & Hlen & Ht2 & Hops2).
        exists (l :: ls). rewrite <- !app_assoc. cbn [app List.map length].
        repeat split; [now rewrite Hlen| |].
        -- apply (timed_rounds_app aio_handle tr1 tr2 [l] ls Ht1 Ht2).
        -- intros file_of Hfiles.
           rewrite (Hfiles i (or_introl eq_refl)) in Hfile. injection Hfile as <-.
           rewrite ops_app, Hops1, (Hops2 file_of); [reflexivity|].
           intros j Hj. apply Hfiles. now right.
      * eapply blocks_after_rounds; eassumption.
    + intros [= <- <- <-]. exact Hit.
Qed.

Lemma print_statistics_run (title : string) (stats : statistics F) s o s' tr :
  interp h (print_statistics title stats) s = (o, s', tr) ->
  Forall (fun e => is_print e = true) tr.
Proof.
  unfold print_statistics.
  do 11 (run_step h; [|intros [= <- <- <-]; repeat constructor]).
  intros [= <- <- <-]. repeat constructor.
Qed.

Lemma cleanup_run (files : list path) :
  forall s o s' tr,
  interp h (cleanup files) s = (o, s', tr) ->
  Forall (fun e => is_unlink e = true) tr
  /\ (is_ok o = true -> ops tr = List.map (fun f => OpUnlink f true) files).
Proof.
  unfold cleanup. induction files as [|f files IH]; intros s o s' tr.
  - cbn. intros [= <- <- <-]. split; [constructor|reflexivity].
  - rewrite for_each_cons. run_step h.
    + destruct (interp h (for_each files _ _) s0) as [[o2 s2] tr2] eqn:Hrest.
      destruct x. apply IH in Hrest as [Hall Hops]. intros [= <- <- <-]. split.
      * constructor; [reflexivity|exact Hall].
      * intros Hok. cbn. now rewrite <- Hops.
    + intros [= <- <- <-]. split; [repeat constructor|discriminate].
Qed.

Lemma lookup_map {A B} (g : A -> B) (l : list A) (k : nat) :
  List.map g l !! k = g <$> (l !! k).
Proof.
  revert k. induction l as [|a l IH]; intros [|k]; try reflexivity. cbn. apply IH.
Qed.

Lemma range_length (n : Z) : length (range n) = Z.to_nat n.
Proof. unfold range. now rewrite List.length_map, List.length_seq. Qed.

Lemma range_lookup {B} (g : Z -> B) (n i : Z) :
  In i (range n) -> List.map g (range n) !! Z.to_nat i = Some (g i).
Proof.
  unfold range. intros Hin. apply in_map_iff in Hin as (k & <- & Hk).
  apply in_seq in Hk. rewrite Nat2Z.id, !lookup_map.
  rewrite lookup_seq_lt by lia. reflexivity.
Qed.

Lemma unlinks_rounds (tr : list (event F)) :
  Forall (fun e => is_unlink e = true) tr -> timed_rounds aio_handle tr [].
Proof.
  intros Hp. apply quiet_rounds. eapply Forall_impl; [exact Hp|].
  intros e. apply unlink_quiet.
Qed.

Lemma benchmark_size_run (iterations : Z) s o s' tr :
  interp h (benchmark_size aio_handle nvme_dir iterations size) s = (o, s', tr) ->
  match o with
  | Ok _ =>
      exists wl rl,
        length wl = Z.to_nat iterations /\ length rl = Z.to_nat iterations
        /\ 0 < iterations
        /\ timed_rounds aio_handle tr (wl ++ rl)
        /\ ops tr = size_ops nvme_dir iterations size
  | Raise _ => blocks aio_handle tr
  end.
Proof.
  unfold benchmark_size.
  (* the header *)
  rewrite interp_bind_lift.
  destruct (format_int size) as [size_str|e0] eqn:Hsize;
    [|intros [= <- <- <-]; solve_blocks].
  run_step h; [|intros [= <- <- <-]; solve_blocks].
  assert (Hp0 : timed_rounds aio_handle
                  [Ev (Print false ("Benchmarking size: " +:+ size_str +:+ " bytes"))
                     (@Ok unit x)] []).
  { apply timed_quiet; [reflexivity|constructor]. }
  set (p0 := Ev (Print false _) (Ok x)) in *.
  (* the write loop *)
  rewrite interp_bind_lift.
  destruct (len_range iterations) as [total|e0];
    [|intros [= <- <- <-]; solve_blocks].
  rewrite interp_bind.
  destruct (interp h (for_each (range iterations) _ _) s0)
    as [[[[files wl]|e] s1] tr1] eqn:Hw; apply write_loop_run in Hw;
    [|intros [= <- <- <-];
      exact (blocks_after_rounds aio_handle [p0] tr1 [] Hp0 Hw)].
  destruct Hw as (wl' & Hfiles & -> & Hwlen & Htw & Hopsw).
  cbn [app] in Hfiles. subst files. rewrite range_length in Hwlen.
  cbv beta iota. cbn [app].
  pose proof (timed_rounds_app _ _ _ _ _ Hp0 Htw) as H1. cbn [app] in H1.
  (* the write statistics *)
  rewrite interp_bind, interp_lift.
  destruct (calculate_statistics wl' size) as [write_stats|e] eqn:Hstats; cbv beta iota;
    [|intros [= <- <- <-]; rewrite app_nil_r; eapply timed_rounds_blocks; exact H1].
  rewrite interp_bind.
  destruct (interp h (print_statistics _ _) s1) as [[[u|e] s2] tr2] eqn:Hp1;
    apply print_statistics_run in Hp1;
    [|intros [= <- <- <-]; cbn [app]; rewrite app_comm_cons;
      eapply blocks_after_rounds; [exact H1|];
      eapply timed_rounds_blocks, prints_rounds; exact Hp1].
  pose proof (timed_rounds_app _ _ _ _ _ H1 (prints_rounds aio_handle _ Hp1)) as H2.
  rewrite app_nil_r in H2.
  (* the read loop *)
  rewrite interp_bind_lift. cbv iota.
  rewrite interp_bind.
  destruct (interp h (for_each (range iterations) _ _) s2)
    as [[[rl|e] s3] tr3] eqn:Hr;
    apply read_loop_run in Hr;
    [|intros [= <- <- <-]; cbn [app]; rewrite app_comm_cons, app_assoc;
      eapply blocks_after_rounds; [exact H2|exact Hr]].
  destruct Hr as (rl' & -> & Hrlen & Htr & Hopsr). cbn [app].
  rewrite range_length in Hrlen.
  specialize (Hopsr (test_file nvme_dir size)
                (fun i Hi => range_lookup (test_file nvme_dir size) iterations i Hi)).
  pose proof (timed_rounds_app _ _ _ _ _ H2 Htr) as H3.
  (* the read statistics *)
  rewrite interp_bind, interp_lift.
  destruct (calculate_statistics rl' size) as [read_stats|e]; cbv beta iota;
    [|intros [= <- <- <-]; rewrite !app_nil_r, app_comm_cons, app_assoc;
      eapply timed_rounds_blocks; exact H3].
  rewrite interp_bind.
  destruct (interp h (print_statistics _ _) s3) as [[[u2|e] s4] tr4] eqn:Hp2;
    apply print_statistics_run in Hp2;
    [|intros [= <- <- <-]; cbn [app]; rewrite app_comm_cons, !app_assoc;
      eapply blocks_after_rounds; [exact H3|];
      eapply timed_rounds_blocks, prints_rounds; exact Hp2].
  pose proof (timed_rounds_app _ _ _ _ _ H3 (prints_rounds aio_handle _ Hp2)) as H4.
  rewrite app_nil_r in H4.
  (* the cleanup *)
  rewrite interp_bind.
  destruct (interp h (cleanup _) s4) as [[[u3|e] s5] tr5] eqn:Hc;
    apply cleanup_run in Hc as [Hcq Hcops];
    [|intros [= <- <- <-]; cbn [app]; rewrite app_comm_cons, !app_assoc;
      eapply blocks_after_rounds; [exact H4|];
      eapply timed_rounds_blocks, unlinks_rounds; exact Hcq].
  specialize (Hcops eq_refl).
  pose proof (timed_rounds_app _ _ _ _ _ H4 (unlinks_rounds _ Hcq)) as H5.
  rewrite app_nil_r in H5.
  rewrite interp_bind_lift. cbv iota. rewrite interp_call.
  destruct (h _ _ s5) as [[u4|e] s6]; cbn [fst snd]; intros [= <- <- <-].
  - exists wl', rl'. split; [exact Hwlen|]. split; [exact Hrlen|]. split; [|split].
    + destruct wl'; [discriminate|]. cbn [length] in Hwlen. lia.
    + assert (Hlast : timed_rounds aio_handle
                [Ev (Print false ("Cleaned up files for size "
                +:+ size_str +:+ String (Ascii.ascii_of_nat 10) EmptyString))
                (@Ok unit u4)] []).
      { apply timed_quiet; [reflexivity|constructor]. }
      pose proof (timed_rounds_app _ _ _ _ _ H5 Hlast) as H6.
      rewrite <- !app_assoc in H6. rewrite app_nil_r in H6. exact H6.
    + unfold size_ops. cbn [app]. change (ops (p0 :: ?t)) with (ops t).
      rewrite !ops_app, Hopsw, Hopsr, Hcops, (prints_no_ops _ Hp1), (prints_no_ops _ Hp2).
      cbn [app]. rewrite List.map_map. cbn. now rewrite app_nil_r.
  - assert (Hlast : @blocks F aio_handle [Ev (Print false ("Cleaned up files for size "
                +:+ size_str +:+ String (Ascii.ascii_of_nat 10) EmptyString))
                (@Raise unit e)]) by solve_blocks.
    pose proof (blocks_after_rounds _ _ _ _ H5 Hlast) as H6.
    rewrite <- !app_assoc in H6. exact H6.
Qed.

End BenchmarkRuns.

Section WholeRuns.
Context {F : Type} {NL : NumLib F} {S : Type} (h : handler F S).
Variables (aio_handle : handle) (iterations : Z).

Lemma sizes_loop_run (nvme_dir : path) (tensor_sizes : list Z) :
  forall s o s' tr,
  interp h (for_each tensor_sizes
              (fun _ size => benchmark_size aio_handle nvme_dir iterations size) tt) s
    = (o, s', tr) ->
  match o with
  | Ok _ =>
      exists samples,
        length samples = length tensor_sizes /\ samples_ok iterations samples
        /\ (tensor_sizes <> [] -> 0 < iterations)
        /\ timed_rounds aio_handle tr (flatten_samples samples)
        /\ ops tr = flat_map (size_ops nvme_dir iterations) tensor_sizes
  | Raise _ => blocks aio_handle tr
  end.
Proof.
  induction tensor_sizes as [|size sizes IH]; intros s o s' tr.
  - cbn. intros [= <- <- <-]. exists []. repeat split; try constructor. congruence.
  - rewrite for_each_cons, interp_bind. cbv beta.
    destruct (interp h (benchmark_size aio_handle nvme_dir iterations size) s)
      as [[[u|e] s1] tr1] eqn:Hsize; apply benchmark_size_run in Hsize.
    + destruct Hsize as (wl & rl & Hwl & Hrl & Hpos & Ht1 & Hops1).
      destruct (interp h (for_each sizes _ _) s1) as [[o2 s2] tr2] eqn:Hrest.
      destruct u. apply IH in Hrest. intros [= <- <- <-].
      destruct o2 as [u2|e2].
      * destruct Hrest as (samples & Hlen & Hok & _ & Ht2 & Hops2).
        exists ((wl, rl) :: samples). cbn [length]. split; [now rewrite Hlen|].
        split; [constructor; [cbn; lia|exact Hok]|]. split; [intros _; exact Hpos|].
        split.
        -- exact (timed_rounds_app _ _ _ _ _ Ht1 Ht2).
        -- rewrite ops_app, Hops1, Hops2. reflexivity.
      * eapply blocks_after_rounds; eassumption.
    + intros [= <- <- <-]. exact Hsize.
Qed.

Lemma benchmark_run (tensor_sizes : list Z) (nvme_path : string) s o s' tr :
  interp h (benchmark aio_handle tensor_sizes iterations nvme_path) s = (o, s', tr) ->
  (exists r rest, tr = Ev (Mkdir (Path nvme_path) true true) r :: rest)
  /\ match o with
     | Ok _ =>
         exists samples,
           length samples = length tensor_sizes /\ samples_ok iterations samples
           /\ (tensor_sizes <> [] -> 0 < iterations)
           /\ timed_rounds aio_handle tr (flatten_samples samples)
           /\ ops tr = benchmark_ops nvme_path iterations tensor_sizes
     | Raise _ => blocks aio_handle tr
     end.
Proof.
  unfold benchmark. cbv zeta.
  run_step h; [|intros [= <- <- <-]; split; [eauto|solve_blocks]].
  destruct (interp h (for_each tensor_sizes _ _) s0) as [[o2 s2] tr2] eqn:Hloop.
  apply sizes_loop_run in Hloop. intros [= <- <- <-]. split; [cbn; eauto|].
  destruct o2 as [u|e].
  - destruct Hloop as (samples & Hlen & Hok & Hpos & Ht & Hops).
    exists samples. repeat split; try assumption.
    + cbn [app]. apply timed_quiet; [reflexivity|exact Ht].
    + cbn [app]. unfold benchmark_ops. change (ops (?e :: ?t)) with (op_of e ++ ops t).
      cbn [op_of app]. now rewrite Hops.
  - cbn [app]. apply blocks_other; [reflexivity..|exact Hloop].
Qed.

End WholeRuns.

(** ** One operation in flight *)

Section InFlight.
Context {F : Type}.








End InFlight.

(** A run is the triple of its components. *)
Lemma run_eta {A B C : Type} (x : A * B * C) (r : A) :
  x.1.1 = r -> x = (r, x.1.2, x.2).
Proof. destruct x as [[a b] c]. cbn. now intros ->. Qed.

Lemma split_at {A : Type} (l : list A) (i : nat) (x : A) :
  l !! i = Some x -> l = take i l ++ x :: drop (Datatypes.S i) l.
Proof. intros Hl. symmetry. now apply take_drop_middle. Qed.

(** ** Samples and submissions *)

(** C3.  In the write loop and in the read loop, every recorded latency is
    the reading of the clock taken right after [wait] returned minus the
    reading taken right before the submission: between the two readings the
    run holds the submission on the handle and the wait on it, and nothing
    else. *)
Theorem latency_is_time_around_submit_and_wait {F : Type} {NL : NumLib F} {S : Type}
    (h : handler F S) (aio_handle : handle) (nvme_dir : path) (size iterations : Z)
    (s : S) :
  (forall files lats s' tr,
      interp h (for_each (range iterations)
                  (write_iteration aio_handle nvme_dir size) ([], [])) s
        = (Ok (files, lats), s', tr) ->
      timed_rounds aio_handle tr lats /\ length lats = Z.to_nat iterations)
  /\ (forall test_files lats s' tr,
      interp h (for_each (range iterations)
                  (read_iteration aio_handle test_files size) []) s
        = (Ok lats, s', tr) ->
      timed_rounds aio_handle tr lats /\ length lats = Z.to_nat iterations).
Proof.
  split.
  - intros files lats s' tr Hrun. apply write_loop_run in Hrun.
    destruct Hrun as (ls & _ & -> & Hlen & Ht & _). cbn [app].
    rewrite range_length in Hlen. auto.
  - intros test_files lats s' tr Hrun. apply read_loop_run in Hrun.
    destruct Hrun as (ls & -> & Hlen & Ht & _). cbn [app].
    rewrite range_length in Hlen. auto.
Qed.

Lemma latency_is_time_around_submit_and_wait_witness :
  timed_rounds (Handle 0)
    (run clock (for_each (range 2)
                  (write_iteration (Handle 0) (Path "/mnt/nvme/test") 4096) ([], []))
       ready).2
    [(1 # 1000)%Q; (1 # 1000)%Q]
  /\ timed_rounds (Handle 0)
       (run clock (for_each (range 1)
                     (read_iteration (Handle 0) [Path "/mnt/nvme/test/a.swap"] 4096) [])
          ready).2
       [(1 # 1000)%Q].
Proof.
  pose proof (latency_is_time_around_submit_and_wait (world_handler clock) (Handle 0)
                (Path "/mnt/nvme/test") 4096 2 ready) as [Hw _].
  pose proof (latency_is_time_around_submit_and_wait (world_handler clock) (Handle 0)
                (Path "/mnt/nvme/test") 4096 1 ready) as [_ Hr].
  split.
  - refine (proj1 (Hw [Path "/mnt/nvme/test/test_write_4096_0.swap";
                       Path "/mnt/nvme/test/test_write_4096_1.swap"]
                     [(1 # 1000)%Q; (1 # 1000)%Q] _ _ (run_eta _ _ _))).
    vm_compute. reflexivity.
  - refine (proj1 (Hr [Path "/mnt/nvme/test/a.swap"] [(1 # 1000)%Q] _ _
                     (run_eta _ _ _))).
    vm_compute. reflexivity.
Defined.

Section Submissions.
Context {F : Type} {NL : NumLib F}.

Lemma filter_map_all {A B} (p : B -> bool) (g : A -> B) (l : list A) :
  (forall a, p (g a) = true) -> List.filter p (List.map g l) = List.map g l.
Proof.
  intros Hp. induction l as [|a l IH]; [reflexivity|]. cbn. now rewrite Hp, IH.
Qed.

Lemma filter_map_none {A B} (p : B -> bool) (g : A -> B) (l : list A) :
  (forall a, p (g a) = false) -> List.filter p (List.map g l) = [].
Proof.
  intros Hp. induction l as [|a l IH]; [reflexivity|]. cbn. now rewrite Hp, IH.
Qed.

Lemma filter_flat_map {A B} (p : B -> bool) (g : A -> list B) (l : list A) :
  List.filter p (flat_map g l) = flat_map (fun a => List.filter p (g a)) l.
Proof.
  induction l as [|a l IH]; [reflexivity|]. cbn. now rewrite List.filter_app, IH.
Qed.

Lemma size_ops_submissions (nvme_dir : path) (iterations size : Z) :
  List.filter is_io_op (size_ops nvme_dir iterations size)
  = size_submissions nvme_dir iterations size.
Proof.
  unfold size_ops, size_submissions. rewrite !List.filter_app.
  rewrite !filter_map_all by reflexivity.
  rewrite filter_map_none by reflexivity. now rewrite app_nil_r.
Qed.

Lemma benchmark_ops_submissions (nvme_path : string) (iterations : Z) (sizes : list Z) :
  List.filter is_io_op (benchmark_ops nvme_path iterations sizes)
  = flat_map (size_submissions (Path nvme_path) iterations) sizes.
Proof.
  unfold benchmark_ops. cbn [List.filter is_io_op]. rewrite filter_flat_map.
  apply flat_map_ext. intros size. apply size_ops_submissions.
Qed.

End Submissions.

(** C4.  A run of [benchmark] that returns has submitted, for each size in
    turn, [iterations] writes and then [iterations] reads, the i-th read
    naming the file of the i-th write; and it has recorded, for each size,
    [iterations] write samples followed by [iterations] read samples. *)
Theorem benchmark_writes_then_reads {F : Type} {NL : NumLib F} {S : Type}
    (h : handler F S) (aio_handle : handle) (tensor_sizes : list Z) (iterations : Z)
    (nvme_path : string) (s : S) u s' tr :
  interp h (benchmark aio_handle tensor_sizes iterations nvme_path) s = (Ok u, s', tr) ->
  submissions tr = flat_map (size_submissions (Path nvme_path) iterations) tensor_sizes
  /\ (tensor_sizes <> [] -> 0 < iterations)
  /\ exists samples,
       length samples = length tensor_sizes
       /\ samples_ok iterations samples
       /\ timed_rounds aio_handle tr (flatten_samples samples).
Proof.
  intros Hrun. apply benchmark_run in Hrun as [_ Hshape].
  destruct Hshape as (samples & Hlen & Hok & Hpos & Ht & Hops).
  split; [|split].
  - unfold submissions. rewrite Hops. apply benchmark_ops_submissions.
  - exact Hpos.
  - exists samples. auto.
Qed.

Lemma benchmark_writes_then_reads_witness :
  submissions example_run.2
  = flat_map (size_submissions (Path "/mnt/nvme/test") 2) [4096; 8192]
  /\ 0 < 2.
Proof.
  pose proof (benchmark_writes_then_reads (world_handler clock) (Handle 0) [4096; 8192] 2
                "/mnt/nvme/test" ready tt example_run.1.2 example_run.2) as Hthm.
  destruct Hthm as (Hsub & Hpos & _).
  - apply run_eta. vm_compute. reflexivity.
  - split; [exact Hsub|]. apply Hpos. discriminate.
Defined.

(** ** The file system of the reference environment *)

Lemma is_dir_insert (m : gmap path node) (p : path) (w : bool) :
  is_dir (<[p := Dir w]> m) p = true.
Proof. unfold is_dir. now rewrite lookup_insert_eq. Qed.

Lemma os_mkdir_dir (m m' : gmap path node) (p : path) :
  os_mkdir m p = Ok m' -> is_dir m' p = true.
Proof.
  unfold os_mkdir. destruct (m !! p); [discriminate|].
  destruct (m !! path_parent p) as [[sz|[|]]|]; try discriminate.
  intros [= <-]. apply is_dir_insert.
Qed.

Lemma mkdir_one_dir (m m' : gmap path node) (p : path) (exist_ok : bool) :
  mkdir_one m p exist_ok = Ok m' -> is_dir m' p = true.
Proof.
  unfold mkdir_one. destruct (os_mkdir m p) as [m1|e] eqn:Hmk.
  - intros [= <-]. eapply os_mkdir_dir. exact Hmk.
  - destruct (isinstance e FileNotFoundError); [discriminate|].
    destruct exist_ok; [|discriminate]. cbn.
    destruct (is_dir m p) eqn:Hd; [|discriminate]. now intros [= <-].
Qed.

Lemma mkdir_parents_dir (anchored : root_kind) (rparts : list string)
    (m m' : gmap path node) (exist_ok : bool) :
  mkdir_parents anchored rparts m exist_ok = Ok m' ->
  is_dir m' (MkPath anchored (rev rparts)) = true.
Proof.
  destruct rparts as [|name rparent]; cbn [mkdir_parents].
  - destruct (os_mkdir m _) as [m1|e] eqn:Hmk.
    + intros [= <-]. eapply os_mkdir_dir. exact Hmk.
    + destruct (isinstance e FileNotFoundError); [discriminate|].
      destruct exist_ok; [|discriminate]. cbn.
      destruct (is_dir m _) eqn:Hd; [|discriminate]. now intros [= <-].
  - destruct (os_mkdir m _) as [m1|e] eqn:Hmk.
    + intros [= <-]. eapply os_mkdir_dir. exact Hmk.
    + destruct (isinstance e FileNotFoundError).
      * destruct (mkdir_parents anchored rparent m true) as [m1|e1]; [|discriminate].
        cbn. apply mkdir_one_dir.
      * destruct exist_ok; [|discriminate]. cbn.
        destruct (is_dir m _) eqn:Hd; [|discriminate]. now intros [= <-].
Qed.

Lemma path_mkdir_dir (m m' : gmap path node) (p : path) (parents exist_ok : bool) :
  path_mkdir m p parents exist_ok = Ok m' -> is_dir m' p = true.
Proof.
  unfold path_mkdir. destruct parents.
  - intros Hmk. apply mkdir_parents_dir in Hmk. rewrite rev_involutive in Hmk.
    now destruct p.
  - apply mkdir_one_dir.
Qed.

Lemma path_unlink_missing (m : gmap path node) (p : path) :
  m !! p = None -> path_unlink m p true = Ok m.
Proof. intros Hp. unfold path_unlink, os_unlink. now rewrite Hp. Qed.

Lemma path_unlink_gone (m m' : gmap path node) (p : path) (missing_ok : bool) :
  path_unlink m p missing_ok = Ok m' ->
  m' !! p = None /\ forall q, m !! q = None -> m' !! q = None.
Proof.
  unfold path_unlink, os_unlink. destruct (m !! p) as [[sz|w]|] eqn:Hp.
  - destruct (m !! path_parent p) as [[sz'|[|]]|]; cbn; try discriminate;
      intros [= <-]; (split; [apply lookup_delete_eq|]);
      intros q Hq; rewrite lookup_delete; now destruct (decide (p = q)).
  - cbn. discriminate.
  - cbn. destruct missing_ok; [|discriminate]. intros [= <-]. auto.
Qed.

Lemma set_fs_same (w : world) : set_fs w (w_fs w) = w.
Proof. now destruct w. Qed.

Section WorldRuns.
Context {F : Type} {NL : NumLib F} (clock : nat -> F).

Lemma unlink_run (p : path) (missing_ok : bool) (w w' : world) u tr :
  run clock (call (Unlink p missing_ok)) w = (Ok u, w', tr) ->
  w_fs w' !! p = None /\ forall q, w_fs w !! q = None -> w_fs w' !! q = None.
Proof.
  unfold run. intros Hrun. apply interp_call_ok in Hrun as [Hh _].
  cbn in Hh. unfold fs_call in Hh.
  destruct (path_unlink (w_fs w) p missing_ok) as [m|e] eqn:Hun; [|discriminate].
  injection Hh as _ <-. cbn. eapply path_unlink_gone. exact Hun.
Qed.

Lemma cleanup_world (files : list path) :
  forall (w w' : world) u tr,
  run clock (cleanup files) w = (Ok u, w', tr) ->
  (forall q, w_fs w !! q = None -> w_fs w' !! q = None)
  /\ forall f, In f files -> w_fs w' !! f = None.
Proof.
  unfold run, cleanup. induction files as [|f files IH]; intros w w' u tr Hrun.
  - cbn in Hrun. injection Hrun as _ <- _. split; [auto|]. intros f [].
  - rewrite for_each_cons in Hrun.
    apply interp_bind_ok in Hrun as (u1 & w1 & tr1 & tr2 & Hun & Hrest & _).
    apply unlink_run in Hun as [Hgone Hkeep1]. destruct u1.
    apply IH in Hrest as [Hkeep2 Hall]. split; [auto|].
    intros g [<- | Hg]; auto.
Qed.

Lemma print_world (to_stderr : bool) (line : string) (w w' : world) o tr :
  run clock (call (Print to_stderr line)) w = (o, w', tr) -> w_fs w' = w_fs w.
Proof. unfold run. rewrite interp_call. cbn. now intros [= _ <- _]. Qed.

Lemma benchmark_size_world (aio_handle : handle) (nvme_dir : path)
    (iterations size : Z) (w w' : world) u tr :
  run clock (benchmark_size aio_handle nvme_dir iterations size) w = (Ok u, w', tr) ->
  forall i, In i (range iterations) -> w_fs w' !! test_file nvme_dir size i = None.
Proof.
  unfold run, benchmark_size. intros Hrun i Hi.
  apply interp_bind_ok in Hrun as (size_str & w0 & tr0 & tr0' & _ & Hrun & _).
  apply interp_bind_ok in Hrun as (u0 & w0' & tr00 & tr00' & _ & Hrun & _).
  apply interp_bind_ok in Hrun as (total & w0'' & tr01 & tr01' & _ & Hrun & _).
  apply interp_bind_ok in Hrun as ([files wl] & w1 & tr1 & tr1' & Hwrite & Hrun & _).
  apply write_loop_run in Hwrite as (ls & -> & _). cbn [app] in Hrun.
  apply interp_bind_ok in Hrun as (wstats & w2 & tr2 & tr2' & _ & Hrun & _).
  apply interp_bind_ok in Hrun as (u3 & w3 & tr3 & tr3' & _ & Hrun & _).
  apply interp_bind_ok in Hrun as (total' & w3' & tr31 & tr31' & _ & Hrun & _).
  apply interp_bind_ok in Hrun as (rl & w4 & tr4 & tr4' & _ & Hrun & _).
  apply interp_bind_ok in Hrun as (rstats & w5 & tr5 & tr5' & _ & Hrun & _).
  apply interp_bind_ok in Hrun as (u6 & w6 & tr6 & tr6' & _ & Hrun & _).
  apply interp_bind_ok in Hrun as (u7 & w7 & tr7 & tr7' & Hclean & Hrun & _).
  apply interp_bind_ok in Hrun as (size_str' & w8 & tr8 & tr8' & Hfmt & Hprint & _).
  rewrite interp_lift in Hfmt. injection Hfmt as _ <- _.
  apply cleanup_world in Hclean as [_ Hall].
  apply print_world in Hprint. rewrite Hprint. apply Hall.
  apply in_map. exact Hi.
Qed.

Lemma benchmark_world (aio_handle : handle) (before : list Z) (size iterations : Z)
    (nvme_path : string) (w w' : world) u tr :
  run clock (benchmark aio_handle (before ++ [size]) iterations nvme_path) w
    = (Ok u, w', tr) ->
  forall i, In i (range iterations) ->
    w_fs w' !! test_file (Path nvme_path) size i = None.
Proof.
  unfold run, benchmark. cbv zeta. intros Hrun.
  apply interp_bind_ok in Hrun as (u0 & w0 & tr0 & tr0' & _ & Hrun & _).
  rewrite for_each_app in Hrun.
  apply interp_bind_ok in Hrun as (u1 & w1 & tr1 & tr1' & _ & Hrun & _).
  rewrite for_each_cons in Hrun.
  apply interp_bind_ok in Hrun as (u2 & w2 & tr2 & tr2' & Hsize & Hret & _).
  cbn in Hret. injection Hret as _ <- _.
  eapply benchmark_size_world. exact Hsize.
Qed.

End WorldRuns.

(** C7.  [benchmark] owns the life cycle of its files.  Its first call
    creates the target directory, parents included and an existing one
    accepted, and in the reference environment the directory exists once the
    call has returned.  A run that returns has, for each size, removed each
    file of that size after the reads, a missing file counting as removed;
    in the reference environment no test file of a size is left when the
    pass over that size ends. *)
Theorem benchmark_owns_file_lifecycle {F : Type} {NL : NumLib F} (clock : nat -> F)
    (aio_handle : handle) (iterations : Z) (nvme_path : string) :
  (forall S (h : handler F S) tensor_sizes s o s' tr,
      interp h (benchmark aio_handle tensor_sizes iterations nvme_path) s = (o, s', tr) ->
      exists r rest, tr = Ev (Mkdir (Path nvme_path) true true) r :: rest)
  /\ (forall w u w' tr,
      run clock (call (Mkdir (Path nvme_path) true true)) w = (Ok u, w', tr) ->
      is_dir (w_fs w') (Path nvme_path) = true)
  /\ (forall S (h : handler F S) tensor_sizes s u s' tr,
      interp h (benchmark aio_handle tensor_sizes iterations nvme_path) s = (Ok u, s', tr) ->
      ops tr = benchmark_ops nvme_path iterations tensor_sizes)
  /\ (forall w p,
      w_fs w !! p = None ->
      run clock (call (Unlink p true)) w = (Ok tt, w, [Ev (Unlink p true) (Ok tt)]))
  /\ (forall before size w u w' tr,
      run clock (benchmark aio_handle (before ++ [size]) iterations nvme_path) w
        = (Ok u, w', tr) ->
      forall i, In i (range iterations) ->
        w_fs w' !! test_file (Path nvme_path) size i = None).
Proof.
  split; [|split; [|split; [|split]]].
  - intros S h sizes s o s' tr Hrun. now apply benchmark_run in Hrun as [Hfirst _].
  - intros w u w' tr Hrun. unfold run in Hrun.
    apply interp_call_ok in Hrun as [Hh _].
    change (fs_call w (path_mkdir (w_fs w) (Path nvme_path) true true) = (Ok u, w')) in Hh.
    unfold fs_call in Hh.
    destruct (path_mkdir (w_fs w) (Path nvme_path) true true) as [m|e] eqn:Hmk;
      [|discriminate].
    injection Hh as _ <-. cbn. eapply path_mkdir_dir. exact Hmk.
  - intros S h sizes s u s' tr Hrun. apply benchmark_run in Hrun as [_ Hshape].
    now destruct Hshape as (samples & _ & _ & _ & _ & Hops).
  - intros w p Hp. unfold run. rewrite interp_call. cbn.
    rewrite (path_unlink_missing _ _ Hp). cbn. now rewrite set_fs_same.
  - intros before size w u w' tr. apply benchmark_world.
Qed.

Lemma benchmark_owns_file_lifecycle_witness :
  (exists r rest, example_run.2 = Ev (Mkdir (Path "/mnt/nvme/test") true true) r :: rest)
  /\ is_dir (w_fs (run clock (call (Mkdir (Path "/mnt/nvme/test") true true)) ready).1.2)
       (Path "/mnt/nvme/test") = true
  /\ ops example_run.2 = benchmark_ops "/mnt/nvme/test" 2 [4096; 8192]
  /\ run clock (call (Unlink (Path "/mnt/nvme/test/absent.swap") true)) ready
     = (Ok tt, ready, [Ev (Unlink (Path "/mnt/nvme/test/absent.swap") true) (Ok tt)])
  /\ w_fs example_run.1.2 !! test_file (Path "/mnt/nvme/test") 8192 1 = None.
Proof.
  pose proof (benchmark_owns_file_lifecycle clock (Handle 0) 2 "/mnt/nvme/test")
    as (Hfirst & Hdir & Hops & Hmissing & Hgone).
  split; [|split; [|split; [|split]]].
  - apply (Hfirst world (world_handler clock) [4096; 8192] ready
             example_run.1.1 example_run.1.2 example_run.2).
    apply run_eta. reflexivity.
  - apply (Hdir ready tt _
             (run clock (call (Mkdir (Path "/mnt/nvme/test") true true)) ready).2).
    apply run_eta. vm_compute. reflexivity.
  - apply (Hops world (world_handler clock) [4096; 8192] ready tt example_run.1.2).
    apply run_eta. vm_compute. reflexivity.
  - apply Hmissing. vm_compute. reflexivity.
  - apply (Hgone [4096] 8192 ready tt example_run.1.2 example_run.2).
    + apply run_eta. vm_compute. reflexivity.
    + right. left. reflexivity.
Defined.

(** ** Opening the engine *)

Section Init.
Context {F : Type} {NL : NumLib F} {S : Type} (h : handler F S).

Lemma get_aio_handle_run (block_size queue_depth threads : Z) s o s' tr :
  interp h (get_aio_handle block_size queue_depth threads) s = (o, s', tr) ->
  (exists m hd,
      tr = [Ev LoadAsyncIO (Ok m);
            Ev (AioHandle m block_size queue_depth false true threads) (Ok hd)]
      /\ o = Ok hd)
  \/ (exists e, tr = [Ev LoadAsyncIO (Raise e)] /\ o = Raise (init_error e))
  \/ (exists m e,
        tr = [Ev LoadAsyncIO (Ok m);
              Ev (AioHandle m block_size queue_depth false true threads) (Raise e)]
        /\ o = Raise (init_error e)).
Proof.
  unfold get_aio_handle. rewrite interp_try_except.
  run_step h.
  - run_step h; cbn; intros [= <- <- <-]; [left|right; right]; eauto.
  - cbn. intros [= <- <- <-]. right. left. eauto.
Qed.

Lemma init_events (block_size queue_depth threads : Z) s o s' tr :
  interp h (get_aio_handle block_size queue_depth threads) s = (o, s', tr) ->
  Forall (fun e => is_init e = true) tr.
Proof.
  intros Hrun. apply get_aio_handle_run in Hrun
    as [(m & hd & -> & _) | [(e & -> & _) | (m & e & -> & _)]]; repeat constructor.
Qed.

Lemma init_not_submit (tr : list (event F)) :
  Forall (fun e => is_init e = true) tr -> Forall (fun e => is_submit e = false) tr.
Proof.
  intros Hall. eapply Forall_impl; [exact Hall|].
  intros [X c r]. now destruct c.
Qed.

Lemma run_benchmark_init_failure (args : Args) (block_size : Z) (tensor_sizes : list Z)
    (nvme_path : path) s e s1 init_tr o s' tr :
  interp h (get_aio_handle block_size (queue_depth args) (threads args)) s
    = (Raise e, s1, init_tr) ->
  interp h (run_benchmark args block_size tensor_sizes nvme_path) s = (o, s', tr) ->
  exists r,
    tr = init_tr ++ [Ev (Print true ("Benchmark failed: " +:+ exn_msg e)) r]
    /\ is_ok o = false
    /\ (is_ok r = true -> o = Raise e)
    /\ Forall (fun ev => is_submit ev = false) tr.
Proof.
  intros Hinit. unfold run_benchmark.
  rewrite interp_try_except, interp_bind, Hinit.
  pose proof (init_not_submit _ (init_events _ _ _ _ _ _ _ Hinit)) as Hns.
  run_step h; cbn; intros [= <- <- <-]; eexists; (split; [reflexivity|]);
    (split; [reflexivity|]); (split; [try reflexivity; discriminate|]);
    (apply Forall_app; split; [exact Hns|repeat constructor]).
Qed.

End Init.

(** C6.  An exception raised while the engine is loaded or the handle is
    created leaves [get_aio_handle] at once, as a [RuntimeError] that carries
    its message; [main] then makes no call but the report on standard error,
    submits nothing, and ends with the exception. *)
Theorem init_failure_is_fatal {F : Type} {NL : NumLib F} {S : Type} (h : handler F S)
    (args : Args) (block_size : Z) (tensor_sizes : list Z) (nvme_path : path) (s : S) :
  (forall o s' tr,
      interp h (get_aio_handle block_size (queue_depth args) (threads args)) s
        = (o, s', tr) ->
      forall pre ev rest, tr = pre ++ ev :: rest -> answered_ok ev = false ->
        rest = []
        /\ exists e, o = Raise (Exn RuntimeError
                               ("Failed to initialize AIO handle: " +:+ exn_msg e)))
  /\ (forall e s1 init_tr o s' tr,
      interp h (get_aio_handle block_size (queue_depth args) (threads args)) s
        = (Raise e, s1, init_tr) ->
      interp h (run_benchmark args block_size tensor_sizes nvme_path) s = (o, s', tr) ->
      exists r,
        tr = init_tr ++ [Ev (Print true ("Benchmark failed: " +:+ exn_msg e)) r]
        /\ is_ok o = false
        /\ (is_ok r = true -> o = Raise e)
        /\ Forall (fun ev => is_submit ev = false) tr).
Proof.
  split.
  - intros o s' tr Hrun pre ev rest Heq Hbad.
    apply get_aio_handle_run in Hrun
      as [(m & hd & -> & ->) | [(e & -> & ->) | (m & e & -> & ->)]].
    + exfalso.
      assert (Hall : Forall (fun e : event F => answered_ok e = true)
                       (pre ++ ev :: rest)).
      { rewrite <- Heq. repeat constructor. }
      apply Forall_app in Hall as [_ Hall]. inversion Hall. congruence.
    + destruct pre as [|a pre]; [|destruct pre; discriminate].
      injection Heq as <- <-. split; [reflexivity|]. eexists. reflexivity.
    + destruct pre as [|a [|b pre]].
      * injection Heq as <- <-. discriminate Hbad.
      * injection Heq as <- <- <-. split; [reflexivity|]. eexists. reflexivity.
      * destruct pre; discriminate.
  - intros e s1 init_tr o s' tr. apply run_benchmark_init_failure.
Qed.

Lemma init_failure_is_fatal_witness :
  (drop 2 (run clock (get_aio_handle 3145728 64 16) machine).2 = []
   /\ exists e,
        (run clock (get_aio_handle 3145728 64 16) machine).1.1
        = Raise (Exn RuntimeError ("Failed to initialize AIO handle: " +:+ exn_msg e)))
  /\ exists r,
       (run clock (run_benchmark args 3145728 [4096] (Path "/mnt/nvme/test")) machine).2
       = (run clock (get_aio_handle 3145728 64 16) machine).2
         ++ [Ev (Print true ("Benchmark failed: " +:+
                   exn_msg (init_error
                              (Exn EngineInitError
                                 "block_size is not a positive power of two")))) r]
       /\ is_ok (run clock (run_benchmark args 3145728 [4096] (Path "/mnt/nvme/test"))
                   machine).1.1 = false.
Proof.
  pose proof (init_failure_is_fatal (world_handler clock) args 3145728 [4096]
                (Path "/mnt/nvme/test") machine) as [Hget Hmain].
  split.
  - apply (Hget _ _ _ (run_eta (run clock (get_aio_handle 3145728 64 16) machine) _ eq_refl)
             (take 1 (run clock (get_aio_handle 3145728 64 16) machine).2)
             (Ev (AioHandle AioModule 3145728 64 false true 16)
                (Raise (Exn EngineInitError "block_size is not a positive power of two")))
             (drop 2 (run clock (get_aio_handle 3145728 64 16) machine).2)).
    + apply split_at. vm_compute. reflexivity.
    + reflexivity.
  - destruct (Hmain (init_error (Exn EngineInitError
                                   "block_size is not a positive power of two"))
                (run clock (get_aio_handle 3145728 64 16) machine).1.2
                (run clock (get_aio_handle 3145728 64 16) machine).2
                (run clock (run_benchmark args 3145728 [4096] (Path "/mnt/nvme/test"))
                   machine).1.1
                (run clock (run_benchmark args 3145728 [4096] (Path "/mnt/nvme/test"))
                   machine).1.2
                (run clock (run_benchmark args 3145728 [4096] (Path "/mnt/nvme/test"))
                   machine).2)
      as (r & Htr & Hfail & _).
    + apply run_eta. vm_compute. reflexivity.
    + apply run_eta. reflexivity.
    + exists r. split; [exact Htr|exact Hfail].
Defined.

(** ** The block size *)

Lemma is_power_of_two_spec (n : Z) :
  is_power_of_two n = true <-> exists k, 0 <= k /\ n = 2 ^ k.
Proof.
  unfold is_power_of_two. rewrite andb_true_iff, Z.ltb_lt, Z.eqb_eq. split.
  - intros [Hpos Heq]. exists (Z.log2 n). split; [apply Z.log2_nonneg|exact Heq].
  - intros (k & Hk & ->). split.
    + apply Z.pow_pos_nonneg; lia.
    + now rewrite Z.log2_pow2.
Qed.

Lemma engine_open_rejects (block_size queue_depth threads : Z) (direct_io fs_ok : bool) :
  is_power_of_two block_size = false ->
  engine_open block_size queue_depth threads direct_io fs_ok
  = Raise (Exn EngineInitError "block_size is not a positive power of two").
Proof. intros Hbs. unfold engine_open. now rewrite Hbs. Qed.

Lemma world_load {F : Type} (clock : nat -> F) (w : world) :
  world_handler clock _ LoadAsyncIO w
  = if w_aio_available w then (Ok AioModule, w)
    else (Raise (Exn RuntimeError "async_io op cannot be built"), w).
Proof. reflexivity. Qed.

Lemma world_aio_handle {F : Type} (clock : nat -> F) (w : world) m bs qd ss oe th :
  world_handler clock _ (AioHandle m bs qd ss oe th) w
  = match engine_open bs qd th false false with
    | Ok e => (Ok (Handle (length (w_engines w))), set_engines w (w_engines w ++ [e]))
    | Raise e => (Raise e, w)
    end.
Proof. reflexivity. Qed.

(** C5.  Against the engine of the specification: for a block size that is
    not a positive power of two, construction fails with [EngineInitError],
    and [get_aio_handle] raises (the [RuntimeError] that wraps it) and
    returns no handle; none is created. *)
Theorem get_aio_handle_rejects_block_size {F : Type} {NL : NumLib F} (clock : nat -> F)
    (w : world) (block_size queue_depth threads : Z) :
  ~ (exists k, 0 <= k /\ block_size = 2 ^ k) ->
  (forall direct_io fs_ok,
      raises (engine_open block_size queue_depth threads direct_io fs_ok) EngineInitError)
  /\ exists msg w' tr,
       run clock (get_aio_handle block_size queue_depth threads) w
       = (Raise (Exn RuntimeError msg), w', tr)
       /\ w_engines w' = w_engines w.
Proof.
  intros Hnot.
  assert (Hbs : is_power_of_two block_size = false).
  { destruct (is_power_of_two block_size) eqn:Hp; [|reflexivity].
    exfalso. apply Hnot. now apply is_power_of_two_spec. }
  split.
  - intros direct_io fs_ok. eexists. apply engine_open_rejects. exact Hbs.
  - unfold run, get_aio_handle.
    rewrite interp_try_except, interp_bind, interp_call, world_load.
    destruct (w_aio_available w); cbn [fst snd].
    + rewrite interp_call, world_aio_handle, engine_open_rejects by exact Hbs.
      cbn. eexists _, _, _. split; reflexivity.
    + cbn. eexists _, _, _. split; reflexivity.
Qed.

Lemma get_aio_handle_rejects_block_size_witness :
  raises (engine_open 3145728 64 16 false false) EngineInitError
  /\ exists msg w' tr,
       run clock (get_aio_handle 3145728 64 16) machine
       = (Raise (Exn RuntimeError msg), w', tr)
       /\ w_engines w' = w_engines machine.
Proof.
  assert (Hnot : ~ (exists k, 0 <= k /\ 3145728 = 2 ^ k)).
  { intros Hex. apply is_power_of_two_spec in Hex. vm_compute in Hex. discriminate. }
  destruct (get_aio_handle_rejects_block_size clock machine 3145728 64 16 Hnot)
    as [Hopen Hget].
  split; [apply Hopen|exact Hget].
Defined.

(** ** Cleaning the target directory *)

Section Cleaning.
Context {F : Type} {NL : NumLib F} {S : Type} (h : handler F S).

Lemma parse_arguments_parsed (args : Args) (s : S) :
  interp h (parse_arguments args) s
  = (match parsed_sizes args with
     | Ok v => Ok v
     | Raise e => Raise (size_error e)
     end, s, []).
Proof.
  unfold parse_arguments, parsed_sizes, size_error.
  rewrite interp_try_except, interp_bind, interp_lift.
  destruct (mapM parse_size (sizes args)) as [tensor_sizes|e]; cbv beta iota.
  - rewrite interp_bind, interp_lift.
    destruct (parse_size (block_size args)) as [bs|e]; cbv beta iota.
    + rewrite interp_mret. reflexivity.
    + destruct (isinstance e ValueError) eqn:He; rewrite interp_throw;
        unfold mbind, result_bind; cbv beta iota; rewrite He; reflexivity.
  - destruct (isinstance e ValueError) eqn:He; rewrite interp_throw;
      unfold mbind, result_bind; cbv beta iota; rewrite He; reflexivity.
Qed.

Lemma parsed_sizes_ok (args : Args) (ts : list Z) (bs : Z) :
  parsed_sizes args = Ok (ts, bs) ->
  mapM parse_size (sizes args) = Ok ts /\ parse_size (block_size args) = Ok bs.
Proof.
  unfold parsed_sizes.
  destruct (mapM parse_size (sizes args)) as [ts'|e]; [|discriminate].
  destruct (parse_size (block_size args)) as [bs'|e]; [|discriminate].
  cbn. now intros [= -> ->].
Qed.

Lemma clean_nvme_dir_run (p : path) s o s' tr :
  interp h (clean_nvme_dir p) s = (o, s', tr) ->
  exists r tail,
    tr = Ev (Rmtree p) r :: tail
    /\ Forall (fun e => is_print e = true) tail
    /\ exists failure,
         match r with
         | Ok _ =>
             exists r2,
               tail = [Ev (Print false ("Cleaned NVMe directory: " +:+ path_str p)) r2]
               /\ failure = failure_of r2
         | Raise e => tail = [] /\ failure = Some e
         end
         /\ o = match failure with
                | None => Ok tt
                | Some e =>
                    if isinstance e FileNotFoundError then Ok tt else Raise (clean_error e)
                end.
Proof.
  unfold clean_nvme_dir. rewrite interp_try_except.
  run_step h.
  - run_step h.
    + cbn. intros [= <- <- <-]. eexists _, _. split; [reflexivity|].
      split; [repeat constructor|]. exists None. split; [|now destruct x0].
      eexists. split; reflexivity.
    + destruct (isinstance e FileNotFoundError) eqn:Hfnf; cbv iota;
        rewrite ?interp_mret, ?interp_throw; cbn [app]; intros [= <- <- <-];
        eexists _, _; (split; [reflexivity|]);
        (split; [apply List.Forall_cons; [reflexivity|apply List.Forall_nil]|]);
        exists (Some e); rewrite Hfnf;
        (split; [|reflexivity]); eexists; split; reflexivity.
  - destruct (isinstance e FileNotFoundError) eqn:Hfnf; cbv iota;
      rewrite ?interp_mret, ?interp_throw; cbn [app]; intros [= <- <- <-];
      exists (Raise e), []; (split; [reflexivity|]); (split; [apply List.Forall_nil|]);
      exists (Some e); rewrite Hfnf; repeat split.
Qed.

Lemma main_run (args : Args) s o s' tr :
  interp h (main args) s = (o, s', tr) ->
  stopped_in_checks args o tr
  \/ exists tensor_sizes bs p s1 o1 s2 tr_clean,
       parsed_sizes args = Ok (tensor_sizes, bs)
       /\ interp h (clean_nvme_dir p) s1 = (o1, s2, tr_clean)
       /\ match o1 with
          | Ok _ =>
              exists tr_bench,
                interp h (run_benchmark args bs tensor_sizes p) s2 = (o, s', tr_bench)
                /\ tr = checks_passed args p ++ tr_clean ++ tr_bench
          | Raise e =>
              o = Raise e /\ tr = checks_passed args p ++ tr_clean
          end.
Proof.
  unfold main, stopped_in_checks. rewrite interp_bind, parse_arguments_parsed.
  destruct (parsed_sizes args) as [[tensor_sizes bs]|e] eqn:Hparse;
    [|intros [= <- <- <-]; left; left; exists e; auto].
  cbv beta iota.
  run_step h; [|intros [= <- <- <-]; left; right; left; exists e; auto].
  rename x into p. unfold check_parent. cbv zeta.
  rewrite interp_bind.
  run_step h;
    [|intros [= <- <- <-]; left; right; right; exists p; left; exists e; auto].
  destruct x; cbn [negb].
  - run_step h;
      [|intros [= <- <- <-]; left; right; right; exists p; right; right; left;
        exists e; auto].
    destruct x; cbn [negb]; rewrite interp_mret; cbv beta iota.
    + rewrite interp_mret. cbv beta iota. rewrite interp_bind.
      destruct (interp h (clean_nvme_dir p) s2) as [[[u|e] s3] tr_clean] eqn:Hclean.
      * destruct (interp h (run_benchmark args bs tensor_sizes p) s3)
          as [[o3 s4] tr_bench] eqn:Hbench.
        intros [= <- <- <-]. right.
        exists tensor_sizes, bs, p, s2, (Ok u), s3, tr_clean.
        split; [reflexivity|]. split; [exact Hclean|].
        exists tr_bench. split; [exact Hbench|]. reflexivity.
      * intros [= <- <- <-]. right.
        exists tensor_sizes, bs, p, s2, (Raise e), s3, tr_clean.
        split; [reflexivity|]. split; [exact Hclean|]. split; reflexivity.
    + rewrite interp_throw. cbv beta iota.
      intros [= <- <- <-]. left. right. right. exists p. do 3 right. auto.
  - rewrite interp_bind, interp_mret. cbv beta iota. rewrite interp_throw.
    intros [= <- <- <-]. left. right. right. exists p. right. left. auto.
Qed.


End Cleaning.

Lemma shutil_rmtree_removes (m m' : gmap path node) (p : path) :
  shutil_rmtree m p = Ok m' ->
  (forall q, is_under p q = true -> m' !! q = None)
  /\ (forall q, is_under p q = false -> m' !! q = m !! q).
Proof.
  unfold shutil_rmtree. destruct (m !! p) as [[sz|w]|]; try discriminate.
  destruct (forallb _ _); [|discriminate]. intros [= <-]. split.
  - intros q Hq. apply map_lookup_filter_None. right. intros x _. cbn. congruence.
  - intros q Hq. destruct (m !! q) as [x|] eqn:Hm.
    + apply map_lookup_filter_Some. split; [exact Hm|exact Hq].
    + apply map_lookup_filter_None. now left.
Qed.

Lemma shutil_rmtree_missing (m : gmap path node) (p : path) :
  m !! p = None -> raises (shutil_rmtree m p) FileNotFoundError.
Proof. intros Hp. unfold shutil_rmtree. rewrite Hp. eexists. reflexivity. Qed.

Lemma is_under_refl (p : path) : is_under p p = true.
Proof.
  unfold is_under. rewrite bool_decide_eq_true_2 by reflexivity. cbn [andb].
  induction (parts p) as [|x l IH]; [reflexivity|]. cbn. now rewrite String.eqb_refl.
Qed.

(** C10.  A run of [main] either stops in the checks that come first (a
    size or the block size is rejected, [expanduser] raises, or the parent
    directory is reported missing or not writable), or its fourth call is
    [shutil.rmtree] on the expanded path, and whatever the last block does,
    the engine and the benchmark on the sizes parsed from the arguments,
    comes after it.  If the removal returns, the line that reports it is
    printed.  If the directory is missing ([FileNotFoundError]) nothing is
    printed and the run goes on to the last block; any other exception of
    the removal ends the run with the [RuntimeError] that carries its
    message, and the engine is not built.  In the reference environment a
    removal that returns leaves nothing at or below the path, and touches
    nothing else. *)
Theorem main_cleans_before_benchmark {F : Type} {NL : NumLib F} {S : Type}
    (h : handler F S) (clock : nat -> F) (args : Args) :
  (forall s o s' tr,
      interp h (main args) s = (o, s', tr) ->
      stopped_in_checks args o tr
      \/ exists tensor_sizes bs p r tail bench,
           parsed_sizes args = Ok (tensor_sizes, bs)
           /\ tr = checks_passed args p ++ Ev (Rmtree p) r :: tail ++ bench
           /\ match r with
              | Ok _ =>
                  exists r2,
                    tail = [Ev (Print false ("Cleaned NVMe directory: " +:+ path_str p))
                              r2]
                    /\ after_removal h args bs tensor_sizes p (failure_of r2) o s' bench
              | Raise e =>
                  tail = [] /\ after_removal h args bs tensor_sizes p (Some e) o s' bench
              end)
  /\ (forall w p u w' tr,
      run clock (call (Rmtree p)) w = (Ok u, w', tr) ->
      (forall q, is_under p q = true -> w_fs w' !! q = None)
      /\ (forall q, is_under p q = false -> w_fs w' !! q = w_fs w !! q)).
Proof.
  split.
  - intros s o s' tr Hrun. apply main_run in Hrun as [Hstop|Hgo]; [now left|right].
    destruct Hgo as (sizes & bs & p & s1 & o1 & s2 & tr_clean & Hparse & Hclean & Hrest).
    apply clean_nvme_dir_run in Hclean as (r & tail & -> & _ & failure & Hr & Ho1).
    exists sizes, bs, p, r, tail.
    assert (Hafter : exists bench,
               tr = checks_passed args p ++ Ev (Rmtree p) r :: tail ++ bench
               /\ after_removal h args bs sizes p failure o s' bench).
    { unfold after_removal. destruct o1 as [u|e1].
      - destruct Hrest as (bench & Hbench & ->). exists bench. split; [reflexivity|].
        destruct failure as [e|]; [|eauto].
        destruct (isinstance e FileNotFoundError); [eauto|discriminate].
      - destruct Hrest as [-> ->]. exists []. split; [now rewrite app_nil_r|].
        destruct failure as [e|]; [|discriminate].
        destruct (isinstance e FileNotFoundError); [discriminate|].
        injection Ho1 as ->. split; reflexivity. }
    destruct Hafter as (bench & Htr & Hafter). exists bench.
    split; [exact Hparse|]. split; [exact Htr|].
    destruct r as [u|e].
    + destruct Hr as (r2 & -> & ->). eauto.
    + destruct Hr as (-> & ->). auto.
  - intros w p u w' tr Hrun. unfold run in Hrun.
    apply interp_call_ok in Hrun as [Hh _].
    change (fs_call w (shutil_rmtree (w_fs w) p) = (Ok u, w')) in Hh.
    unfold fs_call in Hh.
    destruct (shutil_rmtree (w_fs w) p) as [m|e] eqn:Hrm; [|discriminate].
    injection Hh as _ <-. cbn. now apply shutil_rmtree_removes in Hrm.
Qed.

Lemma main_cleans_before_benchmark_witness :
  (exists r tail bench,
      (run clock (main args) machine).2
      = checks_passed args (Path "/mnt/nvme/test")
        ++ Ev (Rmtree (Path "/mnt/nvme/test")) r :: tail ++ bench)
  /\ w_fs (run clock (call (Rmtree (Path "/mnt/nvme/test"))) machine).1.2
       !! Path "/mnt/nvme/test/old.swap" = None.
Proof.
  pose proof (main_cleans_before_benchmark (world_handler clock) clock args)
    as [Hmain Hrm].
  split.
  - unfold run.
    pose proof (Hmain machine _ _ _
                  (run_eta (interp (world_handler clock) (main args) machine) _ eq_refl))
      as Hm.
    clear Hmain Hrm.
    destruct Hm as [Hstop | (ts & bs & p & r & tail & bench & _ & Htr & _)].
    + exfalso.
      destruct Hstop
        as [(e & Hp & _)
           |[(e & Htr & _)
            |(p & [(e & Htr & _)|[(Htr & _)|[(e & Htr & _)|(Htr & _)]]])]];
        [vm_compute in Hp; discriminate Hp
        |apply (f_equal length) in Htr; vm_compute in Htr; discriminate Htr..].
    + pose (expanded := fun e : event Q =>
              match e with
              | Ev c r0 =>
                  match c in callE _ X return result X -> option path with
                  | ExpandUser _ =>
                      fun r1 => match r1 with Ok q => Some q | Raise _ => None end
                  | _ => fun _ => None
                  end r0
              end).
      assert (Hp : Some (Path "/mnt/nvme/test") = Some p).
      { pose proof (f_equal (fun l => match l with e :: _ => expanded e | [] => None end)
                      Htr) as Hhead.
        cbn [app checks_passed expanded] in Hhead. rewrite <- Hhead.
        vm_compute. reflexivity. }
      injection Hp as <-. exists r, tail, bench. exact Htr.
  - apply (Hrm machine (Path "/mnt/nvme/test") tt _
             (run clock (call (Rmtree (Path "/mnt/nvme/test"))) machine).2).
    + apply run_eta. vm_compute. reflexivity.
    + vm_compute. reflexivity.
Defined.

(** ** The queue depth *)

Section QueueDepth.
Context {F : Type}.






End QueueDepth.

Section MainShape.
Context {F : Type} {NL : NumLib F} {S : Type} (h : handler F S).


End MainShape.




(** * Further properties *)

(** ** [parse_size]: what the input may look like *)

Lemma upper_char_idem (c : ascii) : upper_char (upper_char c) = upper_char c.
Proof. destruct c as [[] [] [] [] [] [] [] []]; reflexivity. Qed.

Lemma upper_char_space (c : ascii) : is_space (upper_char c) = is_space c.
Proof. destruct c as [[] [] [] [] [] [] [] []]; reflexivity. Qed.

Lemma space_upper_char (c : ascii) : is_space c = true -> upper_char c = c.
Proof. destruct c as [[] [] [] [] [] [] [] []]; (reflexivity || discriminate). Qed.

Lemma str_upper_idem (s : string) : str_upper (str_upper s) = str_upper s.
Proof. induction s as [|c s IH]; [reflexivity|]. cbn. now rewrite upper_char_idem, IH. Qed.

Lemma str_upper_append (s t : string) :
  str_upper (s +:+ t) = str_upper s +:+ str_upper t.
Proof.
  induction s as [|c s IH]; [reflexivity|].
  rewrite append_cons. cbn [str_upper]. now rewrite append_cons, IH.
Qed.

Lemma str_rstrip_space (s : string) (c : ascii) :
  is_space c = true -> str_rstrip (s +:+ String c EmptyString) = str_rstrip s.
Proof.
  intros Hc. induction s as [|a s IH].
  - change (str_rstrip (String c EmptyString) = EmptyString).
    rewrite str_rstrip_cons. cbn [str_rstrip]. now rewrite Hc.
  - rewrite append_cons, !str_rstrip_cons, IH. reflexivity.
Qed.

Lemma str_strip_space_left (s : string) (c : ascii) :
  is_space c = true -> str_strip (String c s) = str_strip s.
Proof. intros Hc. unfold str_strip. cbn [str_lstrip]. now rewrite Hc. Qed.

Lemma str_strip_space_right (s : string) (c : ascii) :
  is_space c = true -> str_strip (s +:+ String c EmptyString) = str_strip s.
Proof.
  intros Hc. unfold str_strip. induction s as [|a s IH].
  - change (str_rstrip (str_lstrip (String c EmptyString)) = EmptyString).
    cbn [str_lstrip]. now rewrite Hc.
  - rewrite append_cons. cbn [str_lstrip]. destruct (is_space a); [exact IH|].
    rewrite <- append_cons. now apply str_rstrip_space.
Qed.

Lemma parse_size_of_normal_form (s s' : string) :
  str_strip (str_upper s) = str_strip (str_upper s') -> parse_size s = parse_size s'.
Proof. intros Heq. unfold parse_size. now rewrite Heq. Qed.

(** X1.  [parse_size] ignores the case of the letters and white space
    around the text: upper-casing the input, or adding a white-space
    character in front of it or behind it, changes neither the value
    returned nor the exception raised. *)
Theorem parse_size_ignores_case_and_padding (s : string) :
  parse_size (str_upper s) = parse_size s
  /\ forall c, is_space c = true ->
       parse_size (String c s) = parse_size s
       /\ parse_size (s +:+ String c EmptyString) = parse_size s.
Proof.
  split.
  - apply parse_size_of_normal_form. now rewrite str_upper_idem.
  - intros c Hc. split; apply parse_size_of_normal_form.
    + cbn [str_upper]. apply str_strip_space_left. now rewrite upper_char_space.
    + rewrite str_upper_append. cbn [str_upper].
      apply str_strip_space_right. now rewrite upper_char_space.
Qed.

Lemma parse_size_ignores_case_and_padding_witness :
  parse_size (String " " "8m") = parse_size "8m"
  /\ parse_size ("8m" +:+ String " " EmptyString) = parse_size "8m".
Proof.
  apply (proj2 (parse_size_ignores_case_and_padding "8m") " "%char). reflexivity.
Defined.

Lemma all_space_upper (s : string) : all_space s = true -> str_upper s = s.
Proof.
  induction s as [|c s IH]; [reflexivity|]. cbn [all_space str_upper]. intros Hs.
  apply andb_true_iff in Hs as [Hc Hs]. now rewrite (space_upper_char c Hc), IH.
Qed.

Lemma all_space_lstrip (s : string) : all_space s = true -> str_lstrip s = EmptyString.
Proof.
  induction s as [|c s IH]; [reflexivity|]. cbn [all_space str_lstrip]. intros Hs.
  apply andb_true_iff in Hs as [Hc Hs]. rewrite Hc. auto.
Qed.

(** X2.  A size that is empty or made of white space only is rejected with
    [ValueError]. *)
Theorem parse_size_rejects_blank (s : string) :
  all_space s = true ->
  parse_size s = Raise (Exn ValueError "invalid literal for int() with base 10: ''").
Proof.
  intros Hs. unfold parse_size, str_strip.
  rewrite (all_space_upper s Hs), (all_space_lstrip s Hs). reflexivity.
Qed.

Lemma parse_size_rejects_blank_witness :
  parse_size "   "
  = Raise (Exn ValueError "invalid literal for int() with base 10: ''").
Proof. apply (parse_size_rejects_blank "   "). reflexivity. Defined.

Lemma py_float_raises (p : string) (e : exn) :
  py_float p = Raise e -> exn_cls e = ValueError.
Proof. unfold py_float. destruct (float_literal _); [discriminate|]. now intros [= <-]. Qed.

Lemma py_int_raises (t : string) (e : exn) :
  py_int t = Raise e -> exn_cls e = ValueError.
Proof. unfold py_int. destruct (int_parse _); [discriminate| |]; now intros [= <-]. Qed.

Lemma int_of_float_raises (x : float) (e : exn) :
  int_of_float x = Raise e ->
  (exn_cls e = OverflowError /\ exists neg, x = FInf neg)
  \/ (exn_cls e = ValueError /\ x = FNan).
Proof.
  destruct x as [m ex|neg|]; cbn; [discriminate| |]; intros [= <-].
  - left. eauto.
  - right. auto.
Qed.

(** X3.  [parse_size] raises nothing but [ValueError] and [OverflowError],
    and [OverflowError] only for a text that ends in K, M or G (the float
    product was infinite). *)
Theorem parse_size_raises_only (s : string) (e : exn) :
  parse_size s = Raise e ->
  exn_cls e = ValueError
  \/ (exn_cls e = OverflowError
      /\ (endswith (str_strip (str_upper s)) "K"
          || endswith (str_strip (str_upper s)) "M"
          || endswith (str_strip (str_upper s)) "G") = true).
Proof.
  unfold parse_size.
  destruct (endswith _ "K") eqn:HK;
    [|destruct (endswith _ "M") eqn:HM; [|destruct (endswith _ "G") eqn:HG]].
  1-3: destruct (py_float _) as [x|e1] eqn:Hf; cbn;
       [intros Hi; apply int_of_float_raises in Hi as [[Ho _]|[Hv _]]; [right|left]; auto
       |intros [= <-]; left; eapply py_float_raises; exact Hf].
  intros Hi. left. eapply py_int_raises. exact Hi.
Qed.

Lemma parse_size_raises_only_witness :
  exn_cls (Exn OverflowError "cannot convert float infinity to integer") = ValueError
  \/ (exn_cls (Exn OverflowError "cannot convert float infinity to integer")
      = OverflowError
      /\ (endswith (str_strip (str_upper "infk")) "K"
          || endswith (str_strip (str_upper "infk")) "M"
          || endswith (str_strip (str_upper "infk")) "G") = true).
Proof. apply (parse_size_raises_only "infk"). reflexivity. Defined.

(** ** [main]: the checks before the directory is touched *)

Lemma mapM_first_failure {A B} (f : A -> result B) (good : list A) (bad : A)
    (rest : list A) (e : exn) :
  Forall (fun x => is_ok (f x) = true) good -> f bad = Raise e ->
  mapM f (good ++ bad :: rest) = Raise e.
Proof.
  intros Hgood Hbad. induction Hgood as [|x good Hx _ IH]; cbn.
  - now rewrite Hbad.
  - destruct (f x) as [y|ex]; [|discriminate]. cbn. cbn in IH. now rewrite IH.
Qed.

Lemma mapM_all_ok {A B} (f : A -> result B) (l : list A) :
  Forall (fun x => is_ok (f x) = true) l -> exists ys, mapM f l = Ok ys.
Proof.
  induction 1 as [|x l Hx _ [ys IH]]; cbn; [eauto|].
  destruct (f x) as [y|ex]; [|discriminate]. cbn. cbn in IH. rewrite IH. cbn. eauto.
Qed.

Section MainChecks.
Context {F : Type} {NL : NumLib F} {S : Type} (h : handler F S).

Lemma main_parse_failure (args : Args) (s : S) (e : exn) :
  interp h (parse_arguments args) s = (Raise (size_error e), s, []) ->
  interp h (main args) s = (Raise (size_error e), s, []).
Proof. intros Hp. unfold main. now rewrite interp_bind, Hp. Qed.

Lemma parse_arguments_sizes_failure (args : Args) (s : S) (e : exn) :
  mapM parse_size (sizes args) = Raise e ->
  interp h (parse_arguments args) s = (Raise (size_error e), s, []).
Proof.
  intros Hm. unfold parse_arguments, size_error.
  rewrite interp_try_except, interp_bind, interp_lift, Hm. cbv beta iota.
  destruct (isinstance e ValueError); now rewrite interp_throw.
Qed.

Lemma parse_arguments_block_failure (args : Args) (s : S) (ts : list Z) (e : exn) :
  mapM parse_size (sizes args) = Ok ts ->
  parse_size (block_size args) = Raise e ->
  interp h (parse_arguments args) s = (Raise (size_error e), s, []).
Proof.
  intros Hm Hb. unfold parse_arguments, size_error.
  rewrite interp_try_except, interp_bind, interp_lift, Hm. cbv beta iota.
  rewrite interp_bind, interp_lift, Hb. cbv beta iota.
  destruct (isinstance e ValueError); now rewrite interp_throw.
Qed.

(** X4.  [main] parses the sizes, in order, and then the block size before
    it makes any call: at the first text [parse_size] rejects it stops, with
    no call made (no path query, no deletion, no engine).  A [ValueError] is
    raised again as [ValueError("Invalid size format: ...")]; the
    [OverflowError] of an infinite product is not caught and leaves [main]
    as it is. *)
Theorem main_rejects_bad_sizes (args : Args) (s : S) (e : exn) :
  (forall good bad rest,
      sizes args = good ++ bad :: rest ->
      Forall (fun x => is_ok (parse_size x) = true) good ->
      parse_size bad = Raise e ->
      interp h (main args) s = (Raise (size_error e), s, []))
  /\ (Forall (fun x => is_ok (parse_size x) = true) (sizes args) ->
      parse_size (block_size args) = Raise e ->
      interp h (main args) s = (Raise (size_error e), s, []))
  /\ (exn_cls e = OverflowError -> size_error e = e)
  /\ (exn_cls e = ValueError ->
      size_error e = Exn ValueError ("Invalid size format: " +:+ exn_msg e)).
Proof.
  split; [|split; [|split]].
  - intros good bad rest Hsizes Hgood Hbad.
    apply main_parse_failure, parse_arguments_sizes_failure.
    rewrite Hsizes. now apply mapM_first_failure.
  - intros Hall Hbad. destruct (mapM_all_ok parse_size _ Hall) as [ts Hts].
    eapply main_parse_failure, parse_arguments_block_failure; eassumption.
  - intros He. unfold size_error, isinstance. now rewrite He.
  - intros He. unfold size_error, isinstance. now rewrite He.
Qed.

(** X5.  The parent check of [main]: [os.access] is asked only when
    [exists()] answered true, the check passes only when both answered
    true, and it fails with the [ValueError] that names the path when either
    answered false; an exception of either call passes unchanged.  No other
    call is made. *)
Theorem check_parent_outcomes (p : path) s o s' tr :
  interp h (check_parent p) s = (o, s', tr) ->
  (tr = [Ev (PathExists (path_parent p)) (Ok true);
         Ev (OsAccessW (path_parent p)) (Ok true)] /\ o = Ok tt)
  \/ (tr = [Ev (PathExists (path_parent p)) (Ok false)] /\ o = Raise (parent_error p))
  \/ (tr = [Ev (PathExists (path_parent p)) (Ok true);
            Ev (OsAccessW (path_parent p)) (Ok false)] /\ o = Raise (parent_error p))
  \/ (exists e, tr = [Ev (PathExists (path_parent p)) (Raise e)] /\ o = Raise e)
  \/ (exists e, tr = [Ev (PathExists (path_parent p)) (Ok true);
                      Ev (OsAccessW (path_parent p)) (Raise e)] /\ o = Raise e).
Proof.
  unfold check_parent. cbv zeta. rewrite interp_bind.
  run_step h; [|intros [= <- <- <-]; do 3 right; left; eauto].
  destruct x; cbn [negb].
  - run_step h; [|intros [= <- <- <-]; do 4 right; eauto].
    destruct x; cbn [negb]; rewrite interp_mret; cbv beta iota.
    + rewrite interp_mret. intros [= <- <- <-]. left. auto.
    + rewrite interp_throw. intros [= <- <- <-]. do 2 right. left. auto.
  - rewrite interp_bind, interp_mret. cbv beta iota. rewrite interp_throw.
    intros [= <- <- <-]. right. left. auto.
Qed.

End MainChecks.

Lemma main_rejects_bad_sizes_witness :
  run clock (main {| nvme_path := "/mnt/nvme/test"; sizes := ["2M"; "8 MB"; "x"];
                     iterations := 2; threads := 16; queue_depth := 64;
                     block_size := "2M" |}) machine
  = (Raise (size_error (Exn ValueError "invalid literal for int() with base 10: '8 MB'")),
     machine, []).
Proof.
  apply (proj1 (main_rejects_bad_sizes (world_handler clock)
                  {| nvme_path := "/mnt/nvme/test"; sizes := ["2M"; "8 MB"; "x"];
                     iterations := 2; threads := 16; queue_depth := 64;
                     block_size := "2M" |} machine
                  (Exn ValueError "invalid literal for int() with base 10: '8 MB'"))
           ["2M"] "8 MB" ["x"]).
  - reflexivity.
  - repeat constructor.
  - reflexivity.
Defined.

Lemma check_parent_outcomes_witness :
  (run clock (check_parent (Path "/nowhere/test")) machine).2
  = [Ev (PathExists (path_parent (Path "/nowhere/test"))) (Ok false)]
  /\ (run clock (check_parent (Path "/nowhere/test")) machine).1.1
     = Raise (parent_error (Path "/nowhere/test")).
Proof.
  destruct (check_parent_outcomes (world_handler clock) (Path "/nowhere/test") machine
              _ _ _ (run_eta (run clock (check_parent (Path "/nowhere/test")) machine)
                       _ eq_refl))
    as [[Htr Ho]|[H|[[Htr Ho]|[(e & Htr & Ho)|(e & Htr & Ho)]]]];
    try (exfalso; apply (f_equal (map answered_ok)) in Htr; vm_compute in Htr;
         discriminate Htr).
  exact H.
Defined.

(** ** [benchmark]: edge cases and failures *)

Section Edge.
Context {F : Type} {NL : NumLib F} {S : Type} (h : handler F S).

Lemma range_empty (n : Z) : n <= 0 -> range n = [].
Proof. intros Hn. unfold range. now replace (Z.to_nat n) with 0%nat by lia. Qed.

(** X6.  With an iteration count of zero or less and at least one size,
    [benchmark] creates the directory, prints at most the header of the
    first size and fails: no tensor is allocated and nothing is submitted.
    When the calls return, the exception is the [ValueError] of the f-string
    of the header if the size has more than 4300 digits, and otherwise the
    [ValueError] of [calculate_statistics] for an empty list. *)
Theorem benchmark_needs_iterations (aio_handle : handle) (size : Z) (rest : list Z)
    (iterations : Z) (nvme_path : string) s o s' tr :
  iterations <= 0 ->
  interp h (benchmark aio_handle (size :: rest) iterations nvme_path) s = (o, s', tr) ->
  exists r tail,
    tr = Ev (Mkdir (Path nvme_path) true true) r :: tail
    /\ Forall (fun e => is_print e = true) tail
    /\ (length tail <= 1)%nat
    /\ is_ok o = false
    /\ (all_answered tr ->
        o = Raise (if int_str_limit <=? Z.abs size then digits_error
                   else Exn ValueError "No latencies provided for statistics.")
        /\ length tail = if int_str_limit <=? Z.abs size then 0%nat else 1%nat).
Proof.
  intros Hn. unfold benchmark. cbv zeta.
  run_step h.
  - rewrite for_each_cons, interp_bind. cbv beta. unfold benchmark_size.
    rewrite interp_bind_lift. unfold format_int.
    destruct (int_str_limit <=? Z.abs size) eqn:Hlim.
    + intros [= <- <- <-]. eexists _, _. split; [reflexivity|].
      split; [constructor|]. split; [cbn; lia|]. split; [reflexivity|].
      intros _. split; reflexivity.
    + rewrite (range_empty iterations Hn).
      run_step h.
      * rewrite interp_bind_lift. unfold len_range.
        destruct (Z.leb_spec (2 ^ 63) iterations) as [Hbig|_]; [exfalso; lia|].
        cbn [for_each]. rewrite interp_bind. cbn [interp]. cbv beta iota.
        rewrite interp_bind_lift. cbn [calculate_statistics]. cbv beta iota.
        intros [= <- <- <-]. eexists _, _. split; [reflexivity|].
        split; [repeat constructor|]. split; [cbn; lia|]. split; [reflexivity|].
        intros _. split; reflexivity.
      * intros [= <- <- <-]. eexists _, _. split; [reflexivity|].
        split; [repeat constructor|]. split; [cbn; lia|]. split; [reflexivity|].
        intros Hall. inversion Hall as [|? ? _ Hall']. inversion Hall'. discriminate.
  - intros [= <- <- <-]. eexists _, _. split; [reflexivity|].
    split; [constructor|]. split; [cbn; lia|]. split; [reflexivity|].
    intros Hall. inversion Hall. discriminate.
Qed.

End Edge.

Lemma benchmark_needs_iterations_witness :
  exists r tail,
    (run clock (benchmark (Handle 0) [4096] 0 "/mnt/nvme/test") ready).2
    = Ev (Mkdir (Path "/mnt/nvme/test") true true) r :: tail
    /\ is_ok (run clock (benchmark (Handle 0) [4096] 0 "/mnt/nvme/test") ready).1.1
       = false.
Proof.
  destruct (benchmark_needs_iterations (world_handler clock) (Handle 0) 4096 [] 0
              "/mnt/nvme/test" ready _ _ _ ltac:(lia)
              (run_eta (run clock (benchmark (Handle 0) [4096] 0 "/mnt/nvme/test") ready)
                 _ eq_refl))
    as (r & tail & Htr & _ & _ & Hfail & _).
  exists r, tail. split; [exact Htr|exact Hfail].
Defined.

(** ** Runs of [benchmark] that fail *)

Section PlanRules.
Context {F : Type} {NL : NumLib F}.

Lemma raised_by_after (e : exn) (tr1 tr2 : list (event F)) :
  all_answered tr1 -> raised_by e tr2 -> raised_by e (tr1 ++ tr2).
Proof.
  intros H1 [(pre & X & c & -> & Hpre)|[He H2]].
  - left. exists (tr1 ++ pre), X, c. split; [now rewrite app_assoc|].
    now apply Forall_app_2.
  - right. split; [exact He|now apply Forall_app_2].
Qed.

Lemma plan_ret {A} (a : A) (Q : A -> Prop) :
  Q a -> follows_plan (F:=F) (mret a) [] Q.
Proof. intros Ha S h s. cbn. repeat split; [constructor|exact Ha]. Qed.

Lemma plan_lift {A} (r : result A) (Q : A -> Prop) :
  (forall a, r = Ok a -> Q a) -> (forall e, r = Raise e -> own_error e) ->
  follows_plan (F:=F) (lift r) [] Q.
Proof.
  intros Hok Herr S h s. rewrite interp_lift. destruct r as [a|e].
  - repeat split; [constructor|now apply Hok].
  - split; [apply prefix_nil|]. right. split; [now apply Herr|constructor].
Qed.

Lemma plan_call {X} (c : callE F X) (plan : list op) :
  (forall r, op_of (Ev c r) = plan) -> follows_plan (call c) plan (fun _ => True).
Proof.
  intros Hplan S h s. rewrite interp_call. destruct (h X c s) as [[x|e] s1]; cbn [fst snd].
  - unfold ops. cbn [flat_map]. rewrite app_nil_r, Hplan.
    repeat split. repeat constructor.
  - unfold ops. cbn [flat_map]. rewrite app_nil_r, Hplan. split; [reflexivity|].
    left. exists [], X, c. split; [reflexivity|constructor].
Qed.

Lemma plan_bind {A B} (p : prog F A) (f : A -> prog F B) (xs ys : list op)
    (Q : A -> Prop) (R : B -> Prop) :
  follows_plan p xs Q -> (forall a, Q a -> follows_plan (f a) ys R) ->
  follows_plan (p ≫= f) (xs ++ ys) R.
Proof.
  intros Hp Hf S h s. rewrite interp_bind. specialize (Hp S h s).
  destruct (interp h p s) as [[[a|e] s1] tr1].
  - destruct Hp as (Hops & Hall & HQ). specialize (Hf a HQ S h s1).
    destruct (interp h (f a) s1) as [[[b|e] s2] tr2].
    + destruct Hf as (Hops2 & Hall2 & HR). rewrite ops_app, Hops, Hops2.
      repeat split; [now apply Forall_app_2|exact HR].
    + destruct Hf as (Hpre & Hby). rewrite ops_app, Hops.
      split; [now apply prefix_app|now apply raised_by_after].
  - destruct Hp as (Hpre & Hby). split; [now apply prefix_app_r|exact Hby].
Qed.

Lemma plan_weaken {A} (p : prog F A) (xs xs' : list op) (Q Q' : A -> Prop) :
  follows_plan p xs Q -> xs = xs' -> (forall a, Q a -> Q' a) ->
  follows_plan p xs' Q'.
Proof.
  intros Hp <- HQ S h s. specialize (Hp S h s).
  destruct (interp h p s) as [[[a|e] s1] tr1]; [|exact Hp].
  destruct Hp as (Hops & Hall & Ha). repeat split; auto.
Qed.

(** A loop follows the plans of its iterations; [J done st] is the invariant
    of the loop state after the items [done]. *)
Lemma plan_for_each {X St} (l : list X) (body : St -> X -> prog F St)
    (g : X -> list op) (J : list X -> St -> Prop) :
  (forall done st x, In x l -> J done st ->
     follows_plan (body st x) (g x) (J (done ++ [x]))) ->
  forall done st, J done st ->
    follows_plan (for_each l body st) (flat_map g l) (J (done ++ l)).
Proof.
  induction l as [|x l IH]; intros Hbody done st HJ.
  - rewrite app_nil_r. now apply plan_ret.
  - rewrite for_each_cons. cbn [flat_map].
    apply plan_bind with (Q := J (done ++ [x])).
    + apply Hbody; [now left|exact HJ].
    + intros st' HJ'. replace (done ++ x :: l) with ((done ++ [x]) ++ l)
        by now rewrite <- app_assoc.
      apply IH; [|exact HJ']. intros d s0 y Hy. apply Hbody. now right.
Qed.

Lemma flat_map_singleton {A B} (g : A -> B) (l : list A) :
  flat_map (fun x => [g x]) l = List.map g l.
Proof. induction l as [|a l IH]; [reflexivity|]. cbn. now rewrite IH. Qed.

End PlanRules.

Section BenchmarkPlan.
Context {F : Type} {NL : NumLib F}.

Lemma plan_bind_quiet {A B} (p : prog F A) (f : A -> prog F B) (ys : list op)
    (Q : A -> Prop) (R : B -> Prop) :
  follows_plan p [] Q -> (forall a, Q a -> follows_plan (f a) ys R) ->
  follows_plan (p ≫= f) ys R.
Proof. intros Hp Hf. exact (plan_bind p f [] ys Q R Hp Hf). Qed.

Lemma plan_bind_op {A B} (p : prog F A) (f : A -> prog F B) (o : op) (ys : list op)
    (Q : A -> Prop) (R : B -> Prop) :
  follows_plan p [o] Q -> (forall a, Q a -> follows_plan (f a) ys R) ->
  follows_plan (p ≫= f) (o :: ys) R.
Proof. intros Hp Hf. exact (plan_bind p f [o] ys Q R Hp Hf). Qed.

Lemma calculate_statistics_own_error (latencies : list F) (size_bytes : Z) (e : exn) :
  calculate_statistics latencies size_bytes = Raise e -> own_error e.
Proof.
  unfold calculate_statistics. destruct latencies as [|x xs].
  - intros [= <-]. now left.
  - cbv zeta. destruct (bandwidths_of size_bytes (x :: xs)) as [bw|e0] eqn:Hbw.
    + change (Ok bw ≫= ?k) with (k bw). cbv beta.
      destruct (negb _); [|discriminate]. intros [= <-]. right. now left.
    + intros [= <-]. right. right. left.
      destruct (int_too_large size_bytes) eqn:Hbig.
      * rewrite (bandwidths_of_too_large size_bytes (x :: xs) Hbig) in Hbw.
        destruct (List.filter fgt0 (x :: xs)); [discriminate|]. now injection Hbw as <-.
      * rewrite (bandwidths_of_fits size_bytes (x :: xs) Hbig) in Hbw. discriminate.
Qed.

Lemma statistics_plan (latencies : list F) (size_bytes : Z) :
  follows_plan (F:=F) (lift (calculate_statistics latencies size_bytes)) []
    (fun _ => True).
Proof.
  apply plan_lift; [trivial|]. intros e. apply calculate_statistics_own_error.
Qed.

Lemma format_int_plan (n : Z) :
  follows_plan (F:=F) (lift (format_int n)) [] (fun _ => True).
Proof.
  apply plan_lift; [trivial|]. intros e He. do 3 right. left.
  eapply format_int_error. exact He.
Qed.

Lemma format_test_file_name_plan (size i : Z) :
  follows_plan (F:=F) (lift (format_test_file_name size i)) []
    (fun name => name = test_file_name size i).
Proof.
  apply plan_lift.
  - intros name. apply format_test_file_name_ok.
  - intros e He. do 3 right. left. eapply format_test_file_name_error. exact He.
Qed.

Lemma len_range_plan (n : Z) :
  follows_plan (F:=F) (lift (len_range n)) [] (fun _ => True).
Proof.
  apply plan_lift; [trivial|]. intros e He. do 4 right.
  eapply len_range_error. exact He.
Qed.

Ltac quiet_call :=
  eapply plan_bind_quiet; [apply plan_call; intros ?; reflexivity|intros ? _].

Lemma write_iteration_plan (aio_handle : handle) (nvme_dir : path) (size : Z)
    (files : list path) (lats : list F) (i : Z) :
  follows_plan (write_iteration aio_handle nvme_dir size (files, lats) i)
    [OpWrite (path_str (test_file nvme_dir size i))]
    (fun st => st.1 = files ++ [test_file nvme_dir size i]).
Proof.
  unfold write_iteration. cbv zeta. quiet_call.
  eapply plan_bind_quiet; [apply format_test_file_name_plan|intros name ->].
  quiet_call.
  eapply plan_bind_op; [apply plan_call; intros ?; reflexivity|intros ? _].
  do 2 quiet_call. now apply plan_ret.
Qed.

Lemma read_iteration_plan (aio_handle : handle) (test_files : list path) (size : Z)
    (lats : list F) (i : Z) (f : path) :
  test_files !! Z.to_nat i = Some f ->
  follows_plan (read_iteration aio_handle test_files size lats i)
    [OpRead (path_str f)] (fun _ => True).
Proof.
  intros Hf. unfold read_iteration. rewrite Hf. quiet_call.
  eapply plan_bind_quiet; [apply plan_ret with (Q := fun g => g = f); reflexivity|].
  intros g ->. quiet_call.
  eapply plan_bind_op; [apply plan_call; intros ?; reflexivity|intros ? _].
  do 2 quiet_call. now apply plan_ret.
Qed.

Lemma print_statistics_plan (title : string) (stats : statistics F) :
  follows_plan (print_statistics title stats) [] (fun _ => True).
Proof.
  unfold print_statistics. cbv zeta. do 10 quiet_call.
  apply plan_call. intros ?. reflexivity.
Qed.

Lemma cleanup_plan (test_files : list path) :
  follows_plan (F:=F) (cleanup test_files)
    (List.map (fun f => OpUnlink f true) test_files) (fun _ => True).
Proof.
  unfold cleanup. rewrite <- flat_map_singleton.
  apply (plan_for_each test_files _ (fun f => [OpUnlink f true])
           (fun _ _ => True)) with (done := []); [|exact I].
  intros _ st x _ _. apply plan_call. intros ?. reflexivity.
Qed.

Lemma write_loop_plan (aio_handle : handle) (nvme_dir : path) (size : Z) (l : list Z) :
  follows_plan (for_each l (write_iteration aio_handle nvme_dir size) ([], []))
    (List.map (fun i => OpWrite (path_str (test_file nvme_dir size i))) l)
    (fun st => st.1 = List.map (test_file nvme_dir size) l).
Proof.
  rewrite <- flat_map_singleton.
  apply (plan_for_each l _ (fun i => [OpWrite (path_str (test_file nvme_dir size i))])
           (fun done st => st.1 = List.map (test_file nvme_dir size) done))
    with (done := []); [|reflexivity].
  intros done [files lats] i _ Hfiles. cbn in Hfiles. subst files.
  eapply plan_weaken; [apply write_iteration_plan|reflexivity|].
  intros st ->. now rewrite List.map_app.
Qed.

Lemma read_loop_plan (aio_handle : handle) (nvme_dir : path) (size iterations : Z) :
  follows_plan
    (for_each (range iterations)
       (read_iteration aio_handle (List.map (test_file nvme_dir size) (range iterations))
          size) [])
    (List.map (fun i => OpRead (path_str (test_file nvme_dir size i))) (range iterations))
    (fun _ => True).
Proof.
  rewrite <- flat_map_singleton.
  apply (plan_for_each (range iterations) _
           (fun i => [OpRead (path_str (test_file nvme_dir size i))])
           (fun _ _ => True)) with (done := []); [|exact I].
  intros _ lats i Hi _. apply read_iteration_plan. now apply range_lookup.
Qed.

Lemma benchmark_size_plan (aio_handle : handle) (nvme_dir : path) (iterations size : Z) :
  follows_plan (benchmark_size aio_handle nvme_dir iterations size)
    (size_ops nvme_dir iterations size) (fun _ => True).
Proof.
  unfold benchmark_size, size_ops.
  eapply plan_bind_quiet; [apply format_int_plan|intros size_str _].
  quiet_call.
  eapply plan_bind_quiet; [apply len_range_plan|intros ? _].
  eapply plan_bind; [apply write_loop_plan|]. intros [files lats] Hfiles.
  cbn in Hfiles. subst files.
  eapply plan_bind_quiet; [apply statistics_plan|intros ? _].
  eapply plan_bind_quiet; [apply print_statistics_plan|intros ? _].
  eapply plan_bind_quiet; [apply len_range_plan|intros ? _].
  eapply plan_bind; [apply read_loop_plan|intros ? _].
  eapply plan_bind_quiet; [apply statistics_plan|intros ? _].
  eapply plan_bind_quiet; [apply print_statistics_plan|intros ? _].
  eapply plan_weaken; [|apply app_nil_r|trivial].
  eapply plan_bind;
    [|intros ? _; eapply plan_bind_quiet; [apply format_int_plan|intros ? _];
      apply plan_call; intros ?; reflexivity].
  eapply plan_weaken; [apply cleanup_plan|apply List.map_map|intros ? H; exact H].
Qed.

Lemma benchmark_plan (aio_handle : handle) (tensor_sizes : list Z) (iterations : Z)
    (nvme_path : string) :
  follows_plan (benchmark aio_handle tensor_sizes iterations nvme_path)
    (benchmark_ops nvme_path iterations tensor_sizes) (fun _ => True).
Proof.
  unfold benchmark, benchmark_ops. cbv zeta.
  eapply plan_bind_op; [apply plan_call; intros ?; reflexivity|intros ? _].
  apply (plan_for_each tensor_sizes _ (size_ops (Path nvme_path) iterations)
           (fun _ _ => True)) with (done := []); [|exact I].
  intros _ st size _ _. apply benchmark_size_plan.
Qed.

End BenchmarkPlan.

Section FailingRuns.
Context {F : Type} {NL : NumLib F} {S : Type} (h : handler F S).

Lemma benchmark_ops_own (nvme_path : string) (iterations : Z) (tensor_sizes : list Z)
    (p : path) (missing_ok : bool) :
  In (OpUnlink p missing_ok) (benchmark_ops nvme_path iterations tensor_sizes) ->
  exists size i, In size tensor_sizes /\ In i (range iterations)
    /\ p = test_file (Path nvme_path) size i /\ missing_ok = true.
Proof.
  unfold benchmark_ops. intros [Hin|Hin]; [discriminate|].
  apply in_flat_map in Hin as (size & Hsize & Hin). exists size.
  unfold size_ops in Hin. rewrite !in_app_iff, !in_map_iff in Hin.
  destruct Hin as [(i & Hi & _)|[(i & Hi & _)|(i & Hi & Hin)]]; try discriminate.
  injection Hi as <- <-. now exists i.
Qed.

(** X7.  Every run of [benchmark], whether it returns or is cut short by an
    exception, makes an initial part of the planned file operations: the
    [mkdir], then size by size the writes, the reads and the removals of that
    size's test files.  Hence what it removes is always one of its own test
    files, with [missing_ok=True]. *)
Theorem benchmark_runs_are_plan_prefixes (aio_handle : handle) (tensor_sizes : list Z)
    (iterations : Z) (nvme_path : string) s o s' tr :
  interp h (benchmark aio_handle tensor_sizes iterations nvme_path) s = (o, s', tr) ->
  ops tr `prefix_of` benchmark_ops nvme_path iterations tensor_sizes
  /\ forall p missing_ok, In (OpUnlink p missing_ok) (ops tr) ->
       exists size i, In size tensor_sizes /\ In i (range iterations)
         /\ p = test_file (Path nvme_path) size i /\ missing_ok = true.
Proof.
  intros Hrun.
  pose proof (benchmark_plan aio_handle tensor_sizes iterations nvme_path S h s) as Hp.
  rewrite Hrun in Hp.
  assert (ops tr `prefix_of` benchmark_ops nvme_path iterations tensor_sizes)
    as Hpre.
  { destruct o as [a|e]; [|exact (proj1 Hp)]. destruct Hp as (-> & _). reflexivity. }
  split; [exact Hpre|]. intros p b Hin. destruct Hpre as (k & Hk).
  apply (benchmark_ops_own nvme_path iterations tensor_sizes). rewrite Hk.
  apply in_app_iff. now left.
Qed.

(** X8.  [benchmark] handles no exception.  A run that fails either ends
    with the call that raised, the exception passing unchanged and every
    earlier call having returned; or it made only calls that returned and
    fails with an exception of what [benchmark] computes itself: one of the
    two [ValueError]s of [calculate_statistics], its [OverflowError] for a
    size too large for a float, the [ValueError] of an f-string for an int
    of more than 4300 digits, or the [OverflowError] of
    [len(range(iterations))].  In a run that returns every call returned.
    In particular [test_files[i]] never fails. *)
Theorem benchmark_failure_origin (aio_handle : handle) (tensor_sizes : list Z)
    (iterations : Z) (nvme_path : string) s o s' tr :
  interp h (benchmark aio_handle tensor_sizes iterations nvme_path) s = (o, s', tr) ->
  (forall e, o = Raise e ->
     (exists pre X (c : callE F X),
        tr = pre ++ [Ev c (Raise e)] /\ Forall (fun ev => answered_ok ev = true) pre)
     \/ ((e = Exn ValueError "No latencies provided for statistics."
          \/ e = Exn ValueError "Some latencies were zero; cannot compute bandwidth."
          \/ e = Exn OverflowError "int too large to convert to float"
          \/ e = digits_error
          \/ e = Exn OverflowError "Python int too large to convert to C ssize_t")
         /\ Forall (fun ev => answered_ok ev = true) tr))
  /\ (is_ok o = true -> Forall (fun ev => answered_ok ev = true) tr).
Proof.
  intros Hrun.
  pose proof (benchmark_plan aio_handle tensor_sizes iterations nvme_path S h s) as Hp.
  rewrite Hrun in Hp. split.
  - intros e ->. exact (proj2 Hp).
  - destruct o as [a|e]; [|discriminate]. intros _. exact (proj1 (proj2 Hp)).
Qed.

End FailingRuns.

Lemma benchmark_runs_are_plan_prefixes_witness :
  ops example_run.2 `prefix_of` benchmark_ops "/mnt/nvme/test" 2 [4096; 8192].
Proof.
  exact (proj1 (benchmark_runs_are_plan_prefixes (world_handler clock) (Handle 0)
                  [4096; 8192] 2 "/mnt/nvme/test" ready _ _ _
                  (run_eta example_run _ eq_refl))).
Defined.

Lemma benchmark_failure_origin_witness :
  exists pre X (c : callE Q X),
    (run clock (benchmark (Handle 3) [4096] 2 "/mnt/nvme/test") ready).2
    = pre ++ [Ev c (Raise (Exn RuntimeError "unknown aio handle"))]
    /\ Forall (fun ev => answered_ok ev = true) pre.
Proof.
  destruct (proj1 (benchmark_failure_origin (world_handler clock) (Handle 3) [4096] 2
                     "/mnt/nvme/test" ready _ _ _
                     (run_eta (run clock (benchmark (Handle 3) [4096] 2 "/mnt/nvme/test")
                                 ready) _ eq_refl))
              (Exn RuntimeError "unknown aio handle")
              ltac:(vm_compute; reflexivity))
    as [H|[He _]].
  - exact H.
  - exfalso. unfold digits_error in He.
    destruct He as [He|[He|[He|[He|He]]]]; discriminate He.
Defined.

(** ** [parse_size] on numerals *)

Lemma round_exact (n k : Z) :
  0 <= n < 2 ^ 53 -> 0 <= k -> round_binary64 (n * 2 ^ k) (2 ^ k) = float_of_exact n.
Proof.
  intros [Hn0 Hn53] Hk. unfold round_binary64, float_of_exact.
  assert (Hpk : 0 < 2 ^ k) by (apply Z.pow_pos_nonneg; lia).
  destruct (Z.eqb_spec n 0) as [->|Hnz].
  - reflexivity.
  - assert (Hpos : 0 < n) by lia.
    destruct (Z.eqb_spec (n * 2 ^ k) 0) as [Hz|_]; [nia|].
    rewrite Z.abs_eq by nia.
    assert (HL : 0 <= Z.log2 n) by apply Z.log2_nonneg.
    assert (HL52 : Z.log2 n < 53) by (apply Z.log2_lt_pow2; lia).
    pose proof (Z.log2_spec n Hpos) as [Hlo Hhi].
    assert (Hfl : floor_log2_ratio (n * 2 ^ k) (2 ^ k) = Z.log2 n).
    { unfold floor_log2_ratio. rewrite Z.log2_mul_pow2, Z.log2_pow2 by lia.
      replace (k + Z.log2 n - k) with (Z.log2 n) by lia.
      destruct (Z.leb_spec 0 (Z.log2 n)) as [_|]; [|lia].
      destruct (Z.leb_spec (2 ^ k * 2 ^ Z.log2 n) (n * 2 ^ k)) as [_|Hbad];
        [reflexivity|nia]. }
    rewrite Hfl. rewrite Z.max_l by lia.
    assert (Hsgn : Z.sgn (n * 2 ^ k) = 1) by (apply Z.sgn_pos; nia).
    rewrite Hsgn.
    destruct (Z.leb_spec 0 (Z.log2 n - 52)) as [He|He].
    + assert (HLeq : Z.log2 n = 52) by lia. rewrite HLeq.
      change (2 ^ (52 - 52)) with 1. change (52 - 52) with 0.
      change (2 ^ 0) with 1. rewrite !Z.mul_1_r.
      rewrite Z.div_mul, Z.mod_mul by lia. change (2 * 0) with 0.
      destruct (Z.ltb_spec 0 (2 ^ k)) as [_|]; [|lia].
      destruct (Z.leb_spec (2 ^ 1024) n) as [Hbig|_].
      * exfalso. assert (2 ^ 53 < 2 ^ 1024) by (apply Z.pow_lt_mono_r; lia). lia.
      * cbn [andb]. now rewrite Z.mul_1_l.
    + replace (- (Z.log2 n - 52)) with (52 - Z.log2 n) by lia.
      replace (n * 2 ^ k * 2 ^ (52 - Z.log2 n))
        with (n * 2 ^ (52 - Z.log2 n) * 2 ^ k) by ring.
      rewrite Z.div_mul, Z.mod_mul by lia. change (2 * 0) with 0.
      destruct (Z.ltb_spec 0 (2 ^ k)) as [_|]; [|lia].
      cbn [andb]. now rewrite Z.mul_1_l.
Qed.

Lemma float_of_exact_round (n : Z) :
  0 <= n < 2 ^ 53 -> decimal_to_float n 0 = float_of_exact n.
Proof.
  intros Hn. unfold decimal_to_float. change (0 <=? 0) with true. cbv iota.
  change (round_binary64 (n * 10 ^ 0) 1) with (round_binary64 (n * 2 ^ 0) (2 ^ 0)).
  now apply round_exact.
Qed.

Lemma fmul_exact (n : Z) :
  0 <= n -> n * 1024 < 2 ^ 53 ->
  fmul (float_of_exact n) (float_of_small_int 1024) = float_of_exact (n * 1024).
Proof.
  intros Hn0 Hn. unfold float_of_exact at 1. unfold float_of_small_int.
  destruct (Z.eqb_spec n 0) as [->|Hnz]; [reflexivity|].
  assert (Hpos : 0 < n) by lia.
  assert (HL : 0 <= Z.log2 n) by apply Z.log2_nonneg.
  assert (HL52 : Z.log2 n < 52) by (apply Z.log2_lt_pow2; lia).
  cbn [fmul]. rewrite Z.add_0_r.
  destruct (Z.leb_spec 0 (Z.log2 n - 52)) as [|_]; [lia|].
  replace (- (Z.log2 n - 52)) with (52 - Z.log2 n) by lia.
  replace (n * 2 ^ (52 - Z.log2 n) * 1024)
    with (n * 1024 * 2 ^ (52 - Z.log2 n)) by ring.
  apply round_exact; lia.
Qed.

Lemma int_of_exact (n : Z) :
  0 <= n < 2 ^ 53 -> int_of_float (float_of_exact n) = Ok n.
Proof.
  intros [Hn0 Hn]. unfold float_of_exact.
  destruct (Z.eqb_spec n 0) as [->|Hnz]; [reflexivity|].
  assert (Hpos : 0 < n) by lia.
  assert (HL52 : Z.log2 n < 53) by (apply Z.log2_lt_pow2; lia).
  cbn [int_of_float]. unfold truncated. f_equal.
  destruct (Z.leb_spec 0 (Z.log2 n - 52)) as [He|He].
  - replace (Z.log2 n) with 52 by lia. change (2 ^ (52 - 52)) with 1. lia.
  - replace (- (Z.log2 n - 52)) with (52 - Z.log2 n) by lia.
    apply Z.quot_mul. assert (0 < 2 ^ (52 - Z.log2 n)) by (apply Z.pow_pos_nonneg; lia).
    lia.
Qed.

Lemma times_1024_exact (k : nat) (n : Z) :
  0 <= n -> n * 1024 ^ Z.of_nat k < 2 ^ 53 ->
  times_1024 k (float_of_exact n) = float_of_exact (n * 1024 ^ Z.of_nat k).
Proof.
  intros Hn0. induction k as [|k IH]; intros Hn.
  - cbn. now rewrite Z.mul_1_r.
  - rewrite Nat2Z.inj_succ, Z.pow_succ_r in * by lia.
    assert (Hp : 0 < 1024 ^ Z.of_nat k) by (apply Z.pow_pos_nonneg; lia).
    unfold times_1024 in *. rewrite Nat.iter_succ, IH by nia.
    rewrite fmul_exact by nia. f_equal. ring.
Qed.

(** *** The characters of a numeral *)

Lemma digit_char_val (d : nat) :
  (d <= 9)%nat -> digit_val (digit_char d) = Some (Z.of_nat d).
Proof. intros Hd. do 10 (destruct d as [|d]; [reflexivity|]). lia. Qed.

Lemma digit_char_plain (d : nat) :
  (d <= 9)%nat ->
  is_space (digit_char d) = false /\ upper_char (digit_char d) = digit_char d
  /\ (code (digit_char d) =? 45) = false /\ (code (digit_char d) =? 43) = false
  /\ Ascii.eqb (digit_char d) "I" = false /\ Ascii.eqb (digit_char d) "N" = false.
Proof. intros Hd. do 10 (destruct d as [|d]; [now vm_compute|]). lia. Qed.

Lemma str_rstrip_id (s : string) :
  Forall (fun c => is_space c = false) (String.list_ascii_of_string s) ->
  str_rstrip s = s.
Proof.
  induction s as [|c s IH]; [reflexivity|]. cbn [String.list_ascii_of_string].
  intros Hall. inversion Hall as [|? ? Hc Hs]; subst. rewrite str_rstrip_cons, IH by exact Hs.
  destruct s; [now rewrite Hc|reflexivity].
Qed.

Lemma str_strip_id (s : string) :
  Forall (fun c => is_space c = false) (String.list_ascii_of_string s) ->
  str_strip s = s.
Proof.
  intros Hall. unfold str_strip.
  assert (Hl : str_lstrip s = s).
  { destruct s as [|c s]; [reflexivity|]. inversion Hall as [|? ? Hc _]; subst.
    cbn [str_lstrip]. now rewrite Hc. }
  rewrite Hl. now apply str_rstrip_id.
Qed.

Lemma c_strip_id (s : string) :
  Forall (fun c => is_space c = false) (String.list_ascii_of_string s) ->
  c_strip s = s.
Proof.
  intros Hall. unfold c_strip.
  assert (Hl : c_lstrip s = s).
  { destruct s as [|c s]; [reflexivity|]. inversion Hall as [|? ? Hc _]; subst.
    cbn [c_lstrip]. now rewrite (not_space_not_c_space c Hc). }
  rewrite Hl. clear Hl. induction s as [|c s IH]; [reflexivity|].
  cbn [String.list_ascii_of_string] in Hall.
  inversion Hall as [|? ? Hc Hs]; subst. rewrite c_rstrip_cons, IH by exact Hs.
  destruct s; [now rewrite (not_space_not_c_space c Hc)|reflexivity].
Qed.

Lemma numeral_chars (ds : list nat) :
  String.list_ascii_of_string (numeral ds) = List.map digit_char ds.
Proof. induction ds as [|d ds IH]; [reflexivity|]. cbn. now rewrite IH. Qed.

Lemma numeral_no_space (ds : list nat) :
  Forall (fun d => (d <= 9)%nat) ds ->
  Forall (fun c => is_space c = false) (String.list_ascii_of_string (numeral ds)).
Proof.
  rewrite numeral_chars. intros Hds. apply List.Forall_map.
  eapply Forall_impl; [exact Hds|]. intros d Hd. apply (digit_char_plain d Hd).
Qed.

Lemma numeral_upper (ds : list nat) :
  Forall (fun d => (d <= 9)%nat) ds -> str_upper (numeral ds) = numeral ds.
Proof.
  induction 1 as [|d ds Hd _ IH]; [reflexivity|]. cbn [numeral str_upper].
  rewrite IH. f_equal. apply (digit_char_plain d Hd).
Qed.

Lemma digitpart_rest_numeral (ds : list nat) (acc : digits) :
  Forall (fun d => (d <= 9)%nat) ds ->
  digitpart_rest (List.map digit_char ds) acc
  = (Digits (fold_left (fun a d => 10 * a + Z.of_nat d) ds (dg_value acc))
       (dg_count acc + length ds), []).
Proof.
  intros Hds. revert acc. induction Hds as [|d ds Hd _ IH]; intros acc.
  - cbn. rewrite Nat.add_0_r. now destruct acc.
  - cbn [List.map digitpart_rest]. rewrite (digit_char_val d Hd), IH.
    cbn [push_digit dg_value dg_count fold_left length]. do 2 f_equal. lia.
Qed.

Lemma digitpart_numeral (ds : list nat) :
  ds <> [] -> Forall (fun d => (d <= 9)%nat) ds ->
  digitpart (List.map digit_char ds) = Some (Digits (numeral_value ds) (length ds), []).
Proof.
  intros Hne Hds. destruct ds as [|d ds]; [congruence|].
  inversion Hds as [|? ? Hd Hrest]; subst.
  cbn [List.map digitpart]. rewrite (digit_char_val d Hd), digitpart_rest_numeral by exact Hrest.
  unfold numeral_value. cbn [dg_value dg_count fold_left length]. do 3 f_equal.
Qed.

Lemma read_sign_numeral (ds : list nat) :
  Forall (fun d => (d <= 9)%nat) ds ->
  read_sign (List.map digit_char ds) = (false, List.map digit_char ds).
Proof.
  intros Hds. destruct Hds as [|d ds Hd _]; [reflexivity|]. cbn [List.map read_sign].
  destruct (digit_char_plain d Hd) as (_ & _ & -> & -> & _). reflexivity.
Qed.

Lemma py_int_numeral (ds : list nat) :
  ds <> [] -> Forall (fun d => (d <= 9)%nat) ds -> (length ds <= int_max_str_digits)%nat ->
  py_int (numeral ds) = Ok (numeral_value ds).
Proof.
  intros Hne Hds Hlen. unfold py_int.
  rewrite (c_strip_id _ (numeral_no_space ds Hds)), numeral_chars.
  unfold int_parse. rewrite read_sign_numeral, digitpart_numeral by assumption.
  cbn [dg_count dg_value apply_sign].
  destruct (Nat.leb_spec (length ds) int_max_str_digits) as [_|]; [reflexivity|lia].
Qed.

Lemma numeral_value_nonneg (ds : list nat) : 0 <= numeral_value ds.
Proof.
  unfold numeral_value.
  assert (Hgen : forall acc, 0 <= acc ->
            0 <= fold_left (fun a d => 10 * a + Z.of_nat d) ds acc).
  { induction ds as [|d ds IH]; intros acc Hacc; [exact Hacc|].
    cbn [fold_left]. apply IH. lia. }
  now apply Hgen.
Qed.

Lemma py_float_numeral (ds : list nat) :
  ds <> [] -> Forall (fun d => (d <= 9)%nat) ds -> numeral_value ds < 2 ^ 53 ->
  py_float (numeral ds) = Ok (float_of_exact (numeral_value ds)).
Proof.
  intros Hne Hds Hlt. unfold py_float.
  rewrite (c_strip_id _ (numeral_no_space ds Hds)), numeral_chars.
  unfold float_literal. rewrite read_sign_numeral by assumption.
  assert (Hword : forall w,
            String.eqb (str_upper (String.string_of_list_ascii (List.map digit_char ds))) w
            = true -> w <> "INF" /\ w <> "INFINITY" /\ w <> "NAN").
  { destruct ds as [|d ds]; [congruence|]. inversion Hds as [|? ? Hd _]; subst.
    cbn [List.map String.string_of_list_ascii str_upper].
    destruct (digit_char_plain d Hd) as (_ & -> & _ & _ & HI & HN).
    intros w Hw. repeat split; intros ->; cbn [String.eqb] in Hw;
      rewrite ?HI, ?HN in Hw; discriminate. }
  destruct (String.eqb _ "INF") eqn:H1; [now apply Hword in H1|].
  destruct (String.eqb _ "INFINITY") eqn:H2; [now apply Hword in H2|].
  destruct (String.eqb _ "NAN") eqn:H3; [now apply Hword in H3|].
  cbn [orb]. unfold read_number. rewrite digitpart_numeral by assumption.
  cbn [read_exponent dg_value apply_sign]. change (0 - Z.of_nat 0) with 0.
  rewrite float_of_exact_round; [reflexivity|].
  split; [apply numeral_value_nonneg|exact Hlt].
Qed.

(** X9.  On a numeral of at most 4300 decimal digits, leading zeros
    allowed, [parse_size] returns the number it denotes. *)
Theorem parse_size_numeral (ds : list nat) :
  ds <> [] -> Forall (fun d => (d <= 9)%nat) ds -> (length ds <= 4300)%nat ->
  parse_size (numeral ds) = Ok (numeral_value ds).
Proof.
  intros Hne Hds Hlen. apply parse_size_plain.
  rewrite (numeral_upper ds Hds), (str_strip_id _ (numeral_no_space ds Hds)).
  now apply py_int_numeral.
Qed.

Lemma parse_size_numeral_witness :
  parse_size (numeral [4%nat; 0%nat; 9%nat; 6%nat]) = Ok 4096.
Proof.
  apply (parse_size_numeral [4%nat; 0%nat; 9%nat; 6%nat]).
  - discriminate.
  - repeat constructor.
  - cbn. lia.
Defined.

(** X10.  On a numeral followed by K, M or G (in either case),
    [parse_size] returns the number times 1024, 1024^2 or 1024^3 exactly,
    as long as the product is below 2^53: the float arithmetic of the script
    loses nothing there. *)
Theorem parse_size_numeral_suffix (ds : list nat) (suffix : string) (k : nat) :
  ds <> [] -> Forall (fun d => (d <= 9)%nat) ds ->
  suffix_power (str_upper suffix) = Some k ->
  numeral_value ds * 1024 ^ Z.of_nat k < 2 ^ 53 ->
  parse_size (numeral ds +:+ suffix) = Ok (numeral_value ds * 1024 ^ Z.of_nat k).
Proof.
  intros Hne Hds Hk Hlt.
  pose proof (numeral_value_nonneg ds) as Hn0.
  assert (Hp : 1 <= 1024 ^ Z.of_nat k).
  { assert (0 < 1024 ^ Z.of_nat k) by (apply Z.pow_pos_nonneg; lia). lia. }
  assert (Hsuf : Forall (fun c => is_space c = false)
                   (String.list_ascii_of_string (str_upper suffix))).
  { unfold suffix_power in Hk.
    destruct (String.eqb_spec (str_upper suffix) "K") as [->|_]; [repeat constructor|].
    destruct (String.eqb_spec (str_upper suffix) "M") as [->|_]; [repeat constructor|].
    destruct (String.eqb_spec (str_upper suffix) "G") as [->|_]; [repeat constructor|].
    discriminate. }
  rewrite (parse_size_suffix _ (numeral ds) (str_upper suffix) k
             (float_of_exact (numeral_value ds))).
  - rewrite times_1024_exact by assumption. apply int_of_exact. lia.
  - rewrite str_upper_append, (numeral_upper ds Hds). apply str_strip_id.
    assert (Happ : forall a b, String.list_ascii_of_string (a +:+ b)
                   = String.list_ascii_of_string a ++ String.list_ascii_of_string b).
    { induction a as [|c a IH]; intros b; [reflexivity|].
      rewrite append_cons. cbn. now rewrite IH. }
    rewrite Happ. apply Forall_app_2; [now apply numeral_no_space|exact Hsuf].
  - exact Hk.
  - apply py_float_numeral; try assumption. nia.
Qed.

Lemma parse_size_numeral_suffix_witness :
  parse_size (numeral [3%nat; 2%nat] +:+ "m") = Ok (32 * 1024 ^ 2).
Proof.
  apply (parse_size_numeral_suffix [3%nat; 2%nat] "m" 2).
  - discriminate.
  - repeat constructor.
  - reflexivity.
  - vm_compute. reflexivity.
Defined.

(** ** [main]: how a failure of the last block is reported *)

Section CallKinds.
Context {F : Type} {NL : NumLib F}.
Variable P : event F -> bool.

Lemma only_ret {A} (a : A) : only_calls P (mret a : prog F A).
Proof. intros S h s. constructor. Qed.

Lemma only_throw {A} (e : exn) : only_calls P (@Throw F A e).
Proof. intros S h s. constructor. Qed.

Lemma only_lift {A} (r : result A) : only_calls P (lift r : prog F A).
Proof. intros S h s. rewrite interp_lift. constructor. Qed.

Lemma only_call {X} (c : callE F X) :
  (forall r, P (Ev c r) = true) -> only_calls P (call c).
Proof. intros Hc S h s. rewrite interp_call. cbn [snd]. repeat constructor. apply Hc. Qed.

Lemma only_bind {A B} (p : prog F A) (f : A -> prog F B) :
  only_calls P p -> (forall a, only_calls P (f a)) -> only_calls P (p ≫= f).
Proof.
  intros Hp Hf S h s. rewrite interp_bind. specialize (Hp S h s).
  destruct (interp h p s) as [[[a|e] s1] tr1]; [|exact Hp].
  specialize (Hf a S h s1). destruct (interp h (f a) s1) as [[o s2] tr2].
  cbn [snd] in *. now apply Forall_app_2.
Qed.

Lemma only_try_except {A} (p : prog F A) (handle : exn -> prog F A) :
  only_calls P p -> (forall e, only_calls P (handle e)) ->
  only_calls P (try_except p handle).
Proof.
  intros Hp Hh S h s. rewrite interp_try_except. specialize (Hp S h s).
  destruct (interp h p s) as [[[a|e] s1] tr1]; [exact Hp|].
  specialize (Hh e S h s1). destruct (interp h (handle e) s1) as [[o s2] tr2].
  cbn [snd] in *. now apply Forall_app_2.
Qed.

Lemma only_for_each {X St} (l : list X) (body : St -> X -> prog F St) (st : St) :
  (forall st' x, only_calls P (body st' x)) -> only_calls P (for_each l body st).
Proof.
  intros Hbody. revert st. induction l as [|x l IH]; intros st.
  - apply only_ret.
  - rewrite for_each_cons. apply only_bind; [apply Hbody|exact IH].
Qed.

End CallKinds.

Section Stderr.
Context {F : Type} {NL : NumLib F}.

Ltac only_step :=
  first [ apply only_bind; [|intros ?]
        | apply only_call; intros ?; reflexivity
        | apply only_ret | apply only_throw | apply only_lift ].

Lemma get_aio_handle_stderr (block_size queue_depth threads : Z) :
  only_calls (F:=F) quiet_on_stderr (get_aio_handle block_size queue_depth threads).
Proof.
  unfold get_aio_handle. apply only_try_except; [|intros e; apply only_throw].
  repeat only_step.
Qed.

Lemma benchmark_stderr (aio_handle : handle) (tensor_sizes : list Z) (iterations : Z)
    (nvme_path : string) :
  only_calls (F:=F) quiet_on_stderr (benchmark aio_handle tensor_sizes iterations nvme_path).
Proof.
  unfold benchmark. cbv zeta. apply only_bind; [repeat only_step|intros _].
  apply only_for_each. intros _ size. unfold benchmark_size.
  apply only_bind; [apply only_lift|intros size_str].
  apply only_bind; [repeat only_step|intros _].
  apply only_bind; [apply only_lift|intros _].
  apply only_bind.
  { apply only_for_each. intros [files lats] i. unfold write_iteration. cbv zeta.
    repeat only_step. }
  intros [files lats].
  apply only_bind; [apply only_lift|intros write_stats].
  apply only_bind; [unfold print_statistics; cbv zeta; repeat only_step|intros _].
  apply only_bind; [apply only_lift|intros _].
  apply only_bind.
  { apply only_for_each. intros lats' i. unfold read_iteration.
    apply only_bind; [repeat only_step|intros tensor].
    apply only_bind; [destruct (files !! Z.to_nat i); repeat only_step|intros f].
    repeat only_step. }
  intros read_latencies.
  apply only_bind; [apply only_lift|intros read_stats].
  apply only_bind; [unfold print_statistics; cbv zeta; repeat only_step|intros _].
  apply only_bind; [|intros _; repeat only_step].
  unfold cleanup. apply only_for_each. intros _ f. repeat only_step.
Qed.

End Stderr.

Section Reports.
Context {F : Type} {NL : NumLib F} {S : Type} (h : handler F S).

(** X11.  The last block of [main] calls [print(..., file=sys.stderr)] only
    to report a failure.  If the engine is opened and [benchmark] returns,
    no such call is made; if either raises [e], the line
    [Benchmark failed: e] is printed there once, as the last call, and [e]
    itself is raised again when that [print] returns.  (The progress bars
    [tqdm] draws are the library's own writes, not calls of the script.) *)
Theorem run_benchmark_reports_failure (args : Args) (block_size : Z)
    (tensor_sizes : list Z) (nvme_path : path) s o s' tr :
  interp h (run_benchmark args block_size tensor_sizes nvme_path) s = (o, s', tr) ->
  (is_ok o = true /\ Forall (fun ev => is_stderr ev = false) tr)
  \/ exists e s1 body r,
       interp h (aio_handle ← get_aio_handle block_size (queue_depth args) (threads args);
                 benchmark aio_handle tensor_sizes (iterations args) (path_str nvme_path)) s
       = (Raise e, s1, body)
       /\ tr = body ++ [Ev (Print true ("Benchmark failed: " +:+ exn_msg e)) r]
       /\ Forall (fun ev => is_stderr ev = false) body
       /\ is_ok o = false
       /\ (is_ok r = true -> o = Raise e).
Proof.
  unfold run_benchmark. rewrite interp_try_except.
  assert (Hquiet : only_calls (F:=F) quiet_on_stderr
            (aio_handle ← get_aio_handle block_size (queue_depth args) (threads args);
             benchmark aio_handle tensor_sizes (iterations args) (path_str nvme_path))).
  { apply only_bind; [apply get_aio_handle_stderr|intros hd; apply benchmark_stderr]. }
  specialize (Hquiet S h s).
  destruct (interp h _ s) as [[[u|e] s1] body] eqn:Hbody; cbn [snd] in Hquiet.
  - intros [= <- <- <-]. left. split; [reflexivity|].
    eapply Forall_impl; [exact Hquiet|]. intros ev Hev. unfold quiet_on_stderr in Hev.
    now destruct (is_stderr ev).
  - assert (Hbody' : Forall (fun ev => is_stderr ev = false) body).
    { eapply Forall_impl; [exact Hquiet|]. intros ev Hev. unfold quiet_on_stderr in Hev.
      now destruct (is_stderr ev). }
    run_step h.
    + rewrite interp_throw. intros [= <- <- <-]. right. exists e, s1, body, (Ok x).
      repeat split; try reflexivity; assumption.
    + intros [= <- <- <-]. right. exists e, s1, body, (Raise e0).
      repeat split; try reflexivity; try assumption. discriminate.
Qed.

End Reports.

Lemma run_benchmark_reports_failure_witness :
  exists e r body,
    (run clock (run_benchmark args 3 [4096] (Path "/mnt/nvme/test")) machine).2
    = body ++ [Ev (Print true ("Benchmark failed: " +:+ exn_msg e)) r]
    /\ Forall (fun ev => is_stderr ev = false) body.
Proof.
  destruct (run_benchmark_reports_failure (world_handler clock) args 3 [4096]
              (Path "/mnt/nvme/test") machine _ _ _
              (run_eta (run clock (run_benchmark args 3 [4096] (Path "/mnt/nvme/test"))
                          machine) _ eq_refl))
    as [[Hok _]|(e & s1 & body & r & _ & Htr & Hq & _)].
  - exfalso. vm_compute in Hok. discriminate Hok.
  - exists e, r, body. split; assumption.
Defined.

(** ** The test files and the target directory *)

Lemma list_ascii_of_append (a b : string) :
  String.list_ascii_of_string (a +:+ b)
  = String.list_ascii_of_string a ++ String.list_ascii_of_string b.
Proof.
  induction a as [|c a IH]; [reflexivity|]. rewrite append_cons. cbn. now rewrite IH.
Qed.

Lemma pretty_N_go_chars (P : ascii -> Prop) :
  (forall d, P (pretty_N_char d)) ->
  forall x s, Forall P (String.list_ascii_of_string s) ->
    Forall P (String.list_ascii_of_string (pretty_N_go x s)).
Proof.
  intros HP x. induction (N.lt_wf_0 x) as [x _ IH]. intros s Hs.
  destruct (N.eq_dec x 0%N) as [->|Hx]; [now rewrite pretty_N_go_0|].
  rewrite pretty_N_go_step by lia. apply IH.
  - apply N.div_lt; lia.
  - cbn. constructor; [apply HP|exact Hs].
Qed.

Lemma str_of_int_chars (P : ascii -> Prop) :
  (forall d, P (pretty_N_char d)) -> P "-"%char ->
  forall z, Forall P (String.list_ascii_of_string (str_of_int z)).
Proof.
  intros HP Hdash z.
  assert (HN : forall x, Forall P (String.list_ascii_of_string (pretty (N.pos x)))).
  { intros x. unfold pretty, pretty_N. destruct (decide (N.pos x = 0%N)); [discriminate|].
    apply pretty_N_go_chars; [exact HP|constructor]. }
  unfold str_of_int, pretty, pretty_Z. destruct z as [|x|x].
  - repeat constructor. apply (HP 0%N).
  - apply HN.
  - rewrite list_ascii_of_append. apply Forall_app_2; [repeat constructor; exact Hdash|].
    apply HN.
Qed.

(** The characters of [str(n)] for an integer: digits and the minus sign,
    so no slash, underscore or dot. *)
Lemma str_of_int_plain (z : Z) :
  Forall (fun c => (code c =? 47) = false /\ c <> "_"%char /\ c <> "."%char)
    (String.list_ascii_of_string (str_of_int z)).
Proof.
  apply str_of_int_chars; [|split; [reflexivity|split; discriminate]].
  intros d. unfold pretty_N_char. destruct d as [|p].
  - split; [reflexivity|split; discriminate].
  - do 4 (try destruct p as [p|p|]);
      (split; [reflexivity|split; discriminate]).
Qed.

Lemma string_of_list_rev_rev (s : string) (cur : list ascii) :
  String.string_of_list_ascii (rev (rev (String.list_ascii_of_string s) ++ cur))
  = String.string_of_list_ascii (rev cur) +:+ s.
Proof.
  rewrite rev_app_distr, rev_involutive.
  generalize (rev cur) as l. induction l as [|c l IH]; intros.
  - cbn. apply String.string_of_list_ascii_of_string.
  - cbn. now rewrite IH.
Qed.

Lemma split_slash_app (a s : string) (cur : list ascii) :
  no_slash a ->
  split_slash (a +:+ s) cur = split_slash s (rev (String.list_ascii_of_string a) ++ cur).
Proof.
  unfold no_slash. revert cur. induction a as [|c a IH]; intros cur Ha; [reflexivity|].
  cbn [String.list_ascii_of_string] in Ha. inversion Ha as [|? ? Hc Ha']; subst.
  rewrite append_cons. cbn [split_slash]. rewrite Hc, IH by exact Ha'.
  cbn [String.list_ascii_of_string rev]. now rewrite <- app_assoc.
Qed.

Lemma append_empty_r (s : string) : s +:+ EmptyString = s.
Proof. induction s as [|c s IH]; [reflexivity|]. rewrite append_cons. now rewrite IH. Qed.

Lemma split_slash_part (a : string) : no_slash a -> split_slash a [] = [a].
Proof.
  intros Ha. rewrite <- (append_empty_r a) at 1. rewrite split_slash_app by exact Ha.
  cbn [split_slash]. now rewrite string_of_list_rev_rev.
Qed.

Lemma split_join (ps : list string) :
  ps <> [] -> Forall no_slash ps -> split_slash (join_slash ps) [] = ps.
Proof.
  intros Hne Hps. induction Hps as [|p ps Hp Hps IH]; [congruence|].
  destruct ps as [|q ps].
  - cbn [join_slash]. now apply split_slash_part.
  - change (join_slash (p :: q :: ps)) with (p +:+ "/" +:+ join_slash (q :: ps)).
    rewrite split_slash_app by exact Hp.
    change ("/" +:+ join_slash (q :: ps)) with (String "/" (join_slash (q :: ps))).
    cbn [split_slash]. change (code "/" =? 47) with true. cbv iota.
    rewrite string_of_list_rev_rev, IH by discriminate. reflexivity.
Qed.

Lemma filter_real_parts (ps : list string) :
  Forall (fun s => is_real_part s = true /\ no_slash s) ps ->
  List.filter is_real_part ps = ps.
Proof.
  induction 1 as [|p ps [Hp _] _ IH]; [reflexivity|]. cbn. now rewrite Hp, IH.
Qed.

Lemma join_slash_head (p : string) (ps : list string) :
  exists t, join_slash (p :: ps) = p +:+ t.
Proof.
  destruct ps as [|q ps].
  - exists EmptyString. cbn. now rewrite append_empty_r.
  - now exists ("/" +:+ join_slash (q :: ps)).
Qed.

Lemma join_slash_first (q : string) (ps : list string) :
  is_real_part q = true -> no_slash q ->
  exists c t, join_slash (q :: ps) = String c t /\ (code c =? 47) = false.
Proof.
  intros Hreal Hq. destruct (join_slash_head q ps) as [t ->].
  destruct q as [|c q]; [discriminate|]. rewrite append_cons.
  exists c, (q +:+ t). split; [reflexivity|].
  unfold no_slash in Hq. cbn [String.list_ascii_of_string] in Hq. now inversion Hq.
Qed.

(** [Path(str(p))] is [p] for a well-formed path, whatever its root. *)
Lemma Path_path_str (p : path) : well_formed p -> Path (path_str p) = p.
Proof.
  destruct p as [a ps]. unfold well_formed, path_str. cbn [root parts].
  intros Hwf.
  assert (Hns : Forall no_slash ps).
  { eapply Forall_impl; [exact Hwf|]. now intros s [_ Hs]. }
  assert (Hparts : ps <> [] ->
            List.filter is_real_part (split_slash (join_slash ps) []) = ps).
  { intros Hne. rewrite split_join by assumption. now apply filter_real_parts. }
  assert (Hfirst : ps = []
                   \/ exists c t, join_slash ps = String c t /\ (code c =? 47) = false).
  { destruct ps as [|q ps]; [now left|right].
    inversion Hwf as [|? ? [Hreal Hq] _]; subst. now apply join_slash_first. }
  unfold Path. destruct a.
  - destruct ps as [|q ps]; [reflexivity|].
    rewrite Hparts by discriminate. f_equal.
    destruct Hfirst as [|(c & t & -> & Hc)]; [discriminate|].
    cbn [leading_root]. now rewrite Hc.
  - change ("/" +:+ join_slash ps) with (String "/" (join_slash ps)).
    cbn [split_slash leading_root]. change (code "/" =? 47) with true. cbv iota.
    cbn [rev String.string_of_list_ascii List.filter is_real_part String.eqb negb andb].
    destruct Hfirst as [->|(c & t & Hj & Hc)]; [reflexivity|]. f_equal.
    + rewrite Hj. now rewrite Hc.
    + apply Hparts. intros ->. discriminate Hj.
  - change ("//" +:+ join_slash ps) with (String "/" (String "/" (join_slash ps))).
    cbn [split_slash leading_root]. change (code "/" =? 47) with true. cbv iota.
    cbn [rev String.string_of_list_ascii List.filter is_real_part String.eqb negb andb].
    destruct Hfirst as [->|(c & t & Hj & Hc)]; [reflexivity|]. f_equal.
    + rewrite Hj. now rewrite Hc.
    + apply Hparts. intros ->. discriminate Hj.
Qed.

Lemma test_file_name_no_slash (size i : Z) : no_slash (test_file_name size i).
Proof.
  unfold no_slash, test_file_name. rewrite !list_ascii_of_append.
  assert (Hint : forall z, Forall (fun c => (code c =? 47) = false)
                             (String.list_ascii_of_string (str_of_int z))).
  { intros z. eapply Forall_impl; [apply str_of_int_plain|]. now intros c [Hc _]. }
  repeat apply Forall_app_2; try apply Hint; repeat constructor.
Qed.

Lemma Path_test_file_name (size i : Z) :
  Path (test_file_name size i) = MkPath NoRoot [test_file_name size i].
Proof.
  unfold Path. rewrite split_slash_part by apply test_file_name_no_slash.
  reflexivity.
Qed.

Lemma test_file_parts (nvme_dir : path) (size i : Z) :
  test_file nvme_dir size i
  = MkPath (root nvme_dir) (parts nvme_dir ++ [test_file_name size i]).
Proof. unfold test_file, path_div. now rewrite Path_test_file_name. Qed.

(** Two strings cut at a character that neither holds before the cut. *)
Lemma append_sep_inj (c : ascii) (a b x y : string) :
  ~ In c (String.list_ascii_of_string a) -> ~ In c (String.list_ascii_of_string b) ->
  a +:+ String c x = b +:+ String c y -> a = b /\ x = y.
Proof.
  revert b. induction a as [|a0 a IH]; intros [|b0 b] Ha Hb Heq.
  - cbn in Heq. injection Heq as ->. now split.
  - rewrite append_cons in Heq. cbn in Heq. injection Heq as -> _.
    exfalso. apply Hb. now left.
  - rewrite append_cons in Heq. cbn in Heq. injection Heq as <- _.
    exfalso. apply Ha. now left.
  - rewrite !append_cons in Heq. injection Heq as -> Heq.
    destruct (IH b) as [-> ->]; [| |exact Heq|now split].
    + intros Hin. apply Ha. now right.
    + intros Hin. apply Hb. now right.
Qed.

Lemma test_file_name_inj (size i size' i' : Z) :
  test_file_name size i = test_file_name size' i' -> size = size' /\ i = i'.
Proof.
  unfold test_file_name. intros Heq.
  assert (Hno : forall (c : ascii) z, (c = "_" \/ c = ".")%char ->
            ~ In c (String.list_ascii_of_string (str_of_int z))).
  { intros c z Hc Hin. pose proof (str_of_int_plain z) as Hall.
    rewrite List.Forall_forall in Hall. destruct (Hall c Hin) as (_ & H1 & H2).
    destruct Hc; contradiction. }
  injection Heq as Heq.
  apply append_sep_inj in Heq as [Hsize Hrest]; [|apply Hno; now left..].
  apply append_sep_inj in Hrest as [Hi _]; [|apply Hno; now right..].
  split; [exact (pretty_Z_inj _ _ Hsize)|exact (pretty_Z_inj _ _ Hi)].
Qed.

(** X12.  Every test file lies directly in the target directory, and the
    files of two different (size, iteration) pairs are different: no
    iteration writes over the file of another. *)
Theorem test_files_distinct_in_directory (nvme_dir : path) (size i size' i' : Z) :
  (size, i) <> (size', i') ->
  path_parent (test_file nvme_dir size i) = nvme_dir
  /\ test_file nvme_dir size i <> test_file nvme_dir size' i'.
Proof.
  intros Hne. rewrite !test_file_parts. split.
  - unfold path_parent. cbn [root parts]. rewrite removelast_last. now destruct nvme_dir.
  - intros Heq. apply (f_equal parts) in Heq. cbn [parts] in Heq.
    apply app_inv_head in Heq. apply Hne.
    destruct (test_file_name_inj size i size' i') as [-> ->]; [|reflexivity].
    exact (f_equal (fun l => List.hd EmptyString l) Heq).
Qed.

Lemma test_files_distinct_in_directory_witness :
  path_parent (test_file (Path "/mnt/nvme/test") 4096 0) = Path "/mnt/nvme/test"
  /\ test_file (Path "/mnt/nvme/test") 4096 0 <> test_file (Path "/mnt/nvme/test") 4096 1.
Proof.
  apply (test_files_distinct_in_directory (Path "/mnt/nvme/test") 4096 0 4096 1).
  discriminate.
Defined.

(** ** [main] benchmarks the directory it cleaned *)

Section SameDirectory.
Context {F : Type} {NL : NumLib F} {S : Type} (h : handler F S).

Lemma init_no_ops (tr : list (event F)) :
  Forall (fun e => is_init e = true) tr -> ops tr = [].
Proof.
  induction 1 as [|[X c r] tr Hc _ IH]; [reflexivity|].
  unfold ops in *. cbn [flat_map]. rewrite IH. now destruct c.
Qed.

Lemma run_benchmark_ops (args : Args) (block_size : Z) (tensor_sizes : list Z)
    (nvme_path : path) s o s' tr :
  interp h (run_benchmark args block_size tensor_sizes nvme_path) s = (o, s', tr) ->
  ops tr `prefix_of` benchmark_ops (path_str nvme_path) (iterations args) tensor_sizes.
Proof.
  unfold run_benchmark. rewrite interp_try_except, interp_bind.
  destruct (interp h (get_aio_handle _ _ _) s) as [[[hd|e] s1] tr1] eqn:Hinit;
    apply init_events, init_no_ops in Hinit.
  - pose proof (benchmark_plan hd tensor_sizes (iterations args) (path_str nvme_path)
                  S h s1) as Hplan.
    destruct (interp h (benchmark _ _ _ _) s1) as [[[u|e] s2] tr2].
    + intros [= <- <- <-]. rewrite ops_app, Hinit. cbn [app].
      destruct Hplan as (-> & _). reflexivity.
    + destruct Hplan as (Hpre & _).
      destruct (interp h (call (Print true _) ≫= _) s2) as [[o3 s3] tr3] eqn:Hprint.
      intros [= <- <- <-].
      assert (Htr3 : ops tr3 = []).
      { revert Hprint. run_step h.
        - rewrite interp_throw. now intros [= <- <- <-].
        - now intros [= <- <- <-]. }
      rewrite !ops_app, Hinit, Htr3, app_nil_r. exact Hpre.
  - destruct (interp h (call (Print true _) ≫= _) s1) as [[o3 s3] tr3] eqn:Hprint.
    intros [= <- <- <-].
    assert (Htr3 : ops tr3 = []).
    { revert Hprint. run_step h.
      - rewrite interp_throw. now intros [= <- <- <-].
      - now intros [= <- <- <-]. }
    rewrite ops_app, Hinit, Htr3. apply prefix_nil.
Qed.

(** X13.  A run of [main] either stops in the checks that come first, or
    removes the expanded path [p] as its fourth call, and every file
    operation after it belongs to the plan for the sizes parsed from the
    arguments, carried out in that same directory [p]: [benchmark] receives
    [str(p)] and builds its path from it again, which gives [p] back,
    whether [p] is relative or begins with one slash or with two. *)
Theorem main_benchmarks_cleaned_directory (args : Args) s o s' tr :
  interp h (main args) s = (o, s', tr) ->
  stopped_in_checks args o tr
  \/ exists tensor_sizes bs p r post,
       parsed_sizes args = Ok (tensor_sizes, bs)
       /\ tr = checks_passed args p ++ Ev (Rmtree p) r :: post
       /\ (well_formed p ->
           ops post `prefix_of`
             (OpMkdir p true true
                :: flat_map (size_ops p (iterations args)) tensor_sizes)).
Proof.
  intros Hrun. apply main_run in Hrun
    as [Hstop|(ts & bs & p & s1 & o1 & s2 & tr_clean & Hparse & Hclean & Hrest)];
    [now left|right].
  apply clean_nvme_dir_run in Hclean as (r & tail & -> & Hprints & _).
  apply prints_no_ops in Hprints.
  destruct o1 as [u|e].
  - destruct Hrest as (tr_bench & Hbench & ->). apply run_benchmark_ops in Hbench.
    exists ts, bs, p, r, (tail ++ tr_bench). split; [exact Hparse|].
    split; [reflexivity|].
    intros Hwf. rewrite ops_app, Hprints. cbn [app].
    unfold benchmark_ops in Hbench. now rewrite (Path_path_str p Hwf) in Hbench.
  - destruct Hrest as (-> & ->). exists ts, bs, p, r, tail.
    split; [exact Hparse|]. split; [reflexivity|].
    intros _. rewrite Hprints. apply prefix_nil.
Qed.

End SameDirectory.

Lemma main_benchmarks_cleaned_directory_witness :
  exists r post,
    (run clock (main args) machine).2
    = checks_passed args (Path "/mnt/nvme/test")
      ++ Ev (Rmtree (Path "/mnt/nvme/test")) r :: post
    /\ ops post `prefix_of`
         (OpMkdir (Path "/mnt/nvme/test") true true
            :: flat_map (size_ops (Path "/mnt/nvme/test") 2) [4096; 1048576]).
Proof.
  pose proof (main_benchmarks_cleaned_directory (world_handler clock) args machine)
    as Hmain.
  unfold run.
  pose proof (Hmain _ _ _ (run_eta (interp (world_handler clock) (main args) machine)
                             _ eq_refl)) as Hm.
  clear Hmain. destruct Hm as [Hstop|(ts & bs & p & r & post & Hts & Htr & Hpre)].
  - exfalso.
    destruct Hstop
      as [(e & Hp & _)
         |[(e & Htr & _)
          |(p & [(e & Htr & _)|[(Htr & _)|[(e & Htr & _)|(Htr & _)]]])]];
      [vm_compute in Hp; discriminate Hp
      |apply (f_equal length) in Htr; vm_compute in Htr; discriminate Htr..].
  - pose (expanded := fun e : event Q =>
            match e with
            | Ev c r0 =>
                match c in callE _ X return result X -> option path with
                | ExpandUser _ => fun r1 => match r1 with Ok q => Some q | Raise _ => None end
                | _ => fun _ => None
                end r0
            end).
    assert (Hp : Some (Path "/mnt/nvme/test") = Some p).
    { pose proof (f_equal (fun l => match l with e :: _ => expanded e | [] => None end) Htr)
        as Hhead.
      cbn [app checks_passed expanded] in Hhead. rewrite <- Hhead. vm_compute. reflexivity. }
    injection Hp as <-.
    assert (Hsizes : Ok ([4096; 1048576], 2097152) = Ok (ts, bs))
      by (rewrite <- Hts; vm_compute; reflexivity).
    injection Hsizes as <- <-.
    exists r, post. split; [exact Htr|].
    apply Hpre. unfold well_formed, no_slash. cbn. repeat constructor.
Defined.

(** ** A failure leaves the files of the size in progress *)

Section FilesLeft.
Context {F : Type} {NL : NumLib F}.

Lemma not_unlink_false (tr : list (event F)) :
  Forall (fun e => not_unlink e = true) tr -> Forall (fun e => is_unlink e = false) tr.
Proof.
  intros Hall. eapply Forall_impl; [exact Hall|]. intros e He.
  unfold not_unlink in He. now destruct (is_unlink e).
Qed.

Lemma failed_in_cleanup_after (tr1 tr2 : list (event F)) :
  failed_in_cleanup tr2 -> failed_in_cleanup (tr1 ++ tr2).
Proof.
  intros (pre & last & -> & Hlast). exists (tr1 ++ pre), last.
  split; [now rewrite app_assoc|exact Hlast].
Qed.

Lemma keeps_never {A} (p : prog F A) :
  only_calls not_unlink p -> keeps_files_on_failure p.
Proof.
  intros Hp S h s. specialize (Hp S h s).
  destruct (interp h p s) as [[[a|e] s1] tr]; [exact I|].
  left. now apply not_unlink_false.
Qed.

Lemma keeps_bind {A B} (p : prog F A) (f : A -> prog F B) :
  only_calls not_unlink p -> (forall a, keeps_files_on_failure (f a)) ->
  keeps_files_on_failure (p ≫= f).
Proof.
  intros Hp Hf S h s. rewrite interp_bind. specialize (Hp S h s).
  destruct (interp h p s) as [[[a|e] s1] tr1]; cbn [snd] in Hp.
  - specialize (Hf a S h s1). destruct (interp h (f a) s1) as [[[b|e] s2] tr2]; [exact I|].
    destruct Hf as [Hnone|Hlast].
    + left. apply Forall_app_2; [now apply not_unlink_false|exact Hnone].
    + right. now apply failed_in_cleanup_after.
  - left. now apply not_unlink_false.
Qed.

Lemma cleanup_failure {S : Type} (h : handler F S) (files : list path) :
  forall s e s' tr,
    interp h (cleanup files) s = (Raise e, s', tr) -> failed_in_cleanup tr.
Proof.
  unfold cleanup. induction files as [|f files IH]; intros s e s' tr.
  - cbn. discriminate.
  - rewrite for_each_cons. run_step h.
    + destruct (interp h (for_each files _ _) s0) as [[[u|e1] s2] tr2] eqn:Hrest;
        [discriminate|].
      intros [= <- <- <-]. destruct x. apply IH in Hrest.
      now apply (failed_in_cleanup_after [_]).
    + intros [= <- <- <-]. exists [], (Ev (Unlink f true) (Raise e0)).
      repeat split.
Qed.

Lemma keeps_cleanup (files : list path) (line : string) :
  keeps_files_on_failure (F:=F) (cleanup files;; call (Print false line)).
Proof.
  intros S h s. rewrite interp_bind.
  destruct (interp h (cleanup files) s) as [[[u|e] s1] tr1] eqn:Hclean.
  - run_step h; [exact I|]. right.
    exists (tr1 ++ []), (Ev (Print false line) (Raise e)).
    rewrite app_nil_r. repeat split.
  - right. eapply cleanup_failure. exact Hclean.
Qed.

Lemma keeps_bind_lift {A B} (r : result A) (f : A -> prog F B) :
  (forall a, r = Ok a -> keeps_files_on_failure (f a)) ->
  keeps_files_on_failure (lift r ≫= f).
Proof.
  intros Hf S h s. rewrite interp_bind_lift. destruct r as [a|e].
  - apply (Hf a eq_refl).
  - left. constructor.
Qed.

Lemma keeps_cleanup_format (files : list path) (r : result string)
    (line : string -> string) (a : string) :
  r = Ok a ->
  keeps_files_on_failure (F:=F)
    (cleanup files;; (text ← lift r; call (Print false (line text)))).
Proof. intros ->. exact (keeps_cleanup files (line a)). Qed.

Ltac no_unlink_step :=
  first [ apply only_bind; [|intros ?]
        | apply only_call; intros ?; reflexivity
        | apply only_ret | apply only_throw | apply only_lift ].

Lemma benchmark_size_keeps (aio_handle : handle) (nvme_dir : path) (iterations size : Z) :
  keeps_files_on_failure (benchmark_size aio_handle nvme_dir iterations size).
Proof.
  unfold benchmark_size.
  apply keeps_bind_lift. intros size_str Hsize.
  apply keeps_bind; [repeat no_unlink_step|intros _].
  apply keeps_bind; [apply only_lift|intros _].
  apply keeps_bind.
  { apply only_for_each. intros [files lats] i. unfold write_iteration. cbv zeta.
    repeat no_unlink_step. }
  intros [files lats].
  apply keeps_bind; [apply only_lift|intros write_stats].
  apply keeps_bind; [unfold print_statistics; cbv zeta; repeat no_unlink_step|intros _].
  apply keeps_bind; [apply only_lift|intros _].
  apply keeps_bind.
  { apply only_for_each. intros lats' i. unfold read_iteration.
    apply only_bind; [repeat no_unlink_step|intros tensor].
    apply only_bind; [destruct (files !! Z.to_nat i); repeat no_unlink_step|intros f].
    repeat no_unlink_step. }
  intros read_latencies.
  apply keeps_bind; [apply only_lift|intros read_stats].
  apply keeps_bind; [unfold print_statistics; cbv zeta; repeat no_unlink_step|intros _].
  exact (keeps_cleanup_format files (format_int size)
           (fun text => "Cleaned up files for size " +:+ text
                          +:+ String (Ascii.ascii_of_nat 10) EmptyString)
           size_str Hsize).
Qed.

End FilesLeft.

Section FilesLeftRuns.
Context {F : Type} {NL : NumLib F} {S : Type} (h : handler F S).

Lemma sizes_loop_failure (aio_handle : handle) (nvme_dir : path) (iterations : Z)
    (tensor_sizes : list Z) :
  forall s e s' tr,
    interp h (for_each tensor_sizes
                (fun _ size => benchmark_size aio_handle nvme_dir iterations size) tt) s
    = (Raise e, s', tr) ->
    exists done size rest tr_done tr_size,
      tensor_sizes = done ++ size :: rest
      /\ tr = tr_done ++ tr_size
      /\ ops tr_done = flat_map (size_ops nvme_dir iterations) done
      /\ (Forall (fun ev => is_unlink ev = false) tr_size \/ failed_in_cleanup tr_size).
Proof.
  induction tensor_sizes as [|size sizes IH]; intros s e s' tr.
  - cbn. discriminate.
  - rewrite for_each_cons, interp_bind.
    pose proof (benchmark_size_keeps aio_handle nvme_dir iterations size S h s) as Hkeep.
    pose proof (benchmark_size_plan aio_handle nvme_dir iterations size S h s) as Hplan.
    destruct (interp h (benchmark_size aio_handle nvme_dir iterations size) s)
      as [[[u|e1] s1] tr1].
    + destruct Hplan as (Hops & _).
      destruct (interp h (for_each sizes _ u) s1) as [[[v|e2] s2] tr2] eqn:Hrest;
        [discriminate|].
      intros [= <- <- <-]. destruct u.
      apply IH in Hrest as (done & sz & rest & tr_done & tr_size & -> & -> & Hdone & Hcur).
      exists (size :: done), sz, rest, (tr1 ++ tr_done), tr_size.
      split; [reflexivity|]. split; [now rewrite app_assoc|].
      split; [|exact Hcur]. rewrite ops_app, Hops, Hdone. reflexivity.
    + intros [= <- <- <-]. exists [], size, sizes, [], tr1. repeat split. exact Hkeep.
Qed.

(** X14.  The removal of the test files is not guarded: when a run of
    [benchmark] fails while a size is in progress, it has removed the files
    of the sizes completed before and, unless it was an [unlink] or a
    [print] that raised, none of the calls made for the size in progress is
    an [unlink], so the files written for it stay in the directory. *)
Theorem benchmark_failure_leaves_files (aio_handle : handle) (tensor_sizes : list Z)
    (iterations : Z) (nvme_path : string) s e s' tr :
  interp h (benchmark aio_handle tensor_sizes iterations nvme_path) s = (Raise e, s', tr) ->
  (exists r, tr = [Ev (Mkdir (Path nvme_path) true true) r] /\ is_ok r = false)
  \/ exists done size rest tr_done tr_size,
       tensor_sizes = done ++ size :: rest
       /\ tr = tr_done ++ tr_size
       /\ ops tr_done = benchmark_ops nvme_path iterations done
       /\ (Forall (fun ev => is_unlink ev = false) tr_size \/ failed_in_cleanup tr_size).
Proof.
  unfold benchmark. cbv zeta. run_step h.
  - destruct (interp h (for_each tensor_sizes _ _) s0) as [[[v|e2] s2] tr2] eqn:Hloop;
      [discriminate|].
    intros [= <- <- <-]. right.
    apply sizes_loop_failure in Hloop
      as (done & size & rest & tr_done & tr_size & -> & -> & Hdone & Hcur).
    exists done, size, rest, (Ev (Mkdir (Path nvme_path) true true) (Ok x) :: tr_done),
      tr_size.
    repeat split; [|exact Hcur].
    unfold benchmark_ops. change (ops (?ev :: ?t)) with (op_of ev ++ ops t).
    cbn [op_of app]. now rewrite Hdone.
  - intros [= <- <- <-]. left. now exists (Raise e0).
Qed.

End FilesLeftRuns.

Lemma benchmark_failure_leaves_files_witness :
  exists tr_done tr_size,
    (run clock (benchmark (Handle 3) [4096] 2 "/mnt/nvme/test") ready).2
    = tr_done ++ tr_size
    /\ ops tr_done = benchmark_ops "/mnt/nvme/test" 2 []
    /\ Forall (fun ev => is_unlink ev = false) tr_size.
Proof.
  destruct (benchmark_failure_leaves_files (world_handler clock) (Handle 3) [4096] 2
              "/mnt/nvme/test" ready (Exn RuntimeError "unknown aio handle") _ _
              (run_eta (run clock (benchmark (Handle 3) [4096] 2 "/mnt/nvme/test") ready)
                 _ ltac:(vm_compute; reflexivity)))
    as [(r & Htr & _)|(done & size & rest & tr_done & tr_size & Hsizes & Htr & Hdone & Hcur)].
  - exfalso. apply (f_equal length) in Htr. vm_compute in Htr. discriminate Htr.
  - assert (Hd : done = []).
    { destruct done as [|d [|d' done]]; [reflexivity|discriminate|discriminate]. }
    subst done. exists tr_done, tr_size. split; [exact Htr|]. split; [exact Hdone|].
    destruct Hcur as [Hnone|(pre & ev0 & Hlast & Hfail & Hkind)]; [exact Hnone|].
    exfalso. rewrite Hlast in Htr.
    apply (f_equal (fun l => option_map (fun ev => is_unlink ev || is_print ev) (last l)))
      in Htr.
    rewrite app_assoc, last_snoc in Htr. cbn [option_map] in Htr. rewrite Hkind in Htr.
    vm_compute in Htr. discriminate Htr.
Defined.
